(** * pdf-signer: the overlay engine of [app.py], embedded and verified

    The development follows [PDFSignatureApp] of [src/app.py]: the element
    model ([SignatureElement]), the viewport (zoom level, base scale), the
    gesture handlers (click, drag, ctrl+scroll), the page refresh and the
    export ([save_pdf]).

    Modelling conventions.
    - Python numbers (the [int] literals and the [float] results of [/] and
      [*]) are exact rationals [Q]; the rounding of binary64 arithmetic is
      outside the model, except for the drag handler: its arithmetic on
      the stored position is embedded a second time with every operation
      rounded to binary64 ([on_canvas_drag_64]).  [int(v)] truncates
      towards zero ([py_int]).
      Python's [min] and [max] return their first argument unless a later
      one is strictly smaller (resp. greater): [py_min], [py_max].
    - [self] is an explicit [State] record threaded through every handler.
    - The element list is a Python list of mutable objects;
      [selected_element] aliases one of them and is kept as its index.
    - PIL images are heap objects: [images] maps an object identity to the
      image, an image element's [content] holds the identity, [copy()]
      allocates, [thumbnail] overwrites in place.
    - The Tk canvas is a list of items with monotonically allocated ids.
    - PIL and PyMuPDF are collaborators: decoded images, [thumbnail] and the
      PNG encoder are section variables, and a placement on an output page
      is recorded as a command.  Their calls are taken to succeed, so the
      handlers that only guard collaborator failures are not entered.
    - Embedded: [update_page_display], [render_signatures],
      [draw_element_on_canvas], [show_selection_border], the zoom
      operations, [open_pdf], page turning, [add_image_signature],
      [add_text_signature], [on_canvas_click], [on_canvas_drag],
      [on_ctrl_scroll] and [save_pdf]; further on [delete_selected],
      [clear_all], [on_element_select], [change_selected_text_color],
      inline text editing, [save_signature_name] and the timer that
      removes the size feedback.  The list box, the signature library,
      dialogs and status-bar messages are left out. *)

From Stdlib Require Import ZArith QArith Qabs Qround Qpower Lqa Lia String Ascii List
  DecimalString.
From Stdlib Require SpecFloat.
From stdpp Require Import base option list gmap.
Import ListNotations.

Local Open Scope Q_scope.
Local Open Scope string_scope.

(** ** Python arithmetic *)

Definition Qltb (a b : Q) : bool := negb (Qle_bool b a).

(** [max(a, b)]: [b] when [b > a], else [a]. *)
Definition py_max (a b : Q) : Q := if Qltb a b then b else a.

(** [min(a, b)]: [b] when [b < a], else [a]. *)
Definition py_min (a b : Q) : Q := if Qltb b a then b else a.

(** [int(v)] on a float: truncation towards zero. *)
Definition py_int (v : Q) : Z := Z.quot (Qnum v) (Zpos (Qden v)).

(** ** Element model *)

Inductive ElementType := image | text.

(** [content]: a reference to a PIL image, or a string. *)
Inductive Content :=
| ImageContent (ref : nat)
| TextContent (s : string).

Record SignatureElement := {
  content : Content;
  x : Q;
  y : Q;
  width : Q;
  height : Q;
  page_num : nat;
  canvas_id : option nat;
  text_color : string
}.

(** The constructors of the application pair ['image'] with an image and
    ['text'] with a string; the tag is read off the content. *)
Definition element_type (e : SignatureElement) : ElementType :=
  match content e with
  | ImageContent _ => image
  | TextContent _ => text
  end.

Definition is_image (e : SignatureElement) : bool :=
  match element_type e with image => true | text => false end.

Definition is_text (e : SignatureElement) : bool :=
  match element_type e with image => false | text => true end.

Definition set_canvas_id (cid : option nat) (e : SignatureElement) : SignatureElement :=
  {| content := content e; x := x e; y := y e; width := width e;
     height := height e; page_num := page_num e; canvas_id := cid;
     text_color := text_color e |}.

Definition set_position (nx ny : Q) (e : SignatureElement) : SignatureElement :=
  {| content := content e; x := nx; y := ny; width := width e;
     height := height e; page_num := page_num e; canvas_id := canvas_id e;
     text_color := text_color e |}.

Definition set_size (nw nh : Q) (e : SignatureElement) : SignatureElement :=
  {| content := content e; x := x e; y := y e; width := nw;
     height := nh; page_num := page_num e; canvas_id := canvas_id e;
     text_color := text_color e |}.

(** The stored base-display envelope of an element. *)
Definition geometry (e : SignatureElement) : Q * Q * Q * Q :=
  (x e, y e, width e, height e).

(** Everything of an element but its canvas handle. *)
Definition stored (e : SignatureElement) : Content * (Q * Q * Q * Q) * nat * string :=
  (content e, geometry e, page_num e, text_color e).

(** ** Canvas *)

Inductive Shape :=
| PageImage (scale : Q)
| Picture (px py : Q) (w h : Z) (src : nat)
| Text (px py : Q) (txt : string) (font_size : Z) (fill : string)
| Rectangle (x1 y1 x2 y2 : Q).

Record Item := { item_id : nat; item_tag : string; item_shape : Shape }.

Record Canvas := { next_id : nat; items : list Item }.

(** [canvas.create_*]: the new item gets the next id. *)
Definition canvas_create (sh : Shape) (tag : string) (cv : Canvas) : nat * Canvas :=
  (next_id cv,
   {| next_id := S (next_id cv);
      items := items cv ++ [{| item_id := next_id cv; item_tag := tag; item_shape := sh |}] |}).

(** [canvas.delete("all")] *)
Definition canvas_delete_all (cv : Canvas) : Canvas :=
  {| next_id := next_id cv; items := [] |}.

(** [canvas.delete(tag)] *)
Definition canvas_delete_tag (tag : string) (cv : Canvas) : Canvas :=
  {| next_id := next_id cv;
     items := List.filter (fun it => negb (String.eqb (item_tag it) tag)) (items cv) |}.

(** [canvas.delete(id)] *)
Definition canvas_delete_id (id : nat) (cv : Canvas) : Canvas :=
  {| next_id := next_id cv;
     items := List.filter (fun it => negb (Nat.eqb (item_id it) id)) (items cv) |}.

Definition shift_shape (dx dy : Q) (sh : Shape) : Shape :=
  match sh with
  | PageImage sc => PageImage sc
  | Picture px py w h src => Picture (px + dx) (py + dy) w h src
  | Text px py txt fs fill => Text (px + dx) (py + dy) txt fs fill
  | Rectangle x1 y1 x2 y2 => Rectangle (x1 + dx) (y1 + dy) (x2 + dx) (y2 + dy)
  end.

(** [canvas.move(id, dx, dy)]; an id that names no item moves nothing. *)
Definition canvas_move (id : option nat) (dx dy : Q) (cv : Canvas) : Canvas :=
  match id with
  | None => cv
  | Some i =>
      {| next_id := next_id cv;
         items := List.map (fun it =>
                    if Nat.eqb (item_id it) i
                    then {| item_id := item_id it; item_tag := item_tag it;
                            item_shape := shift_shape dx dy (item_shape it) |}
                    else it) (items cv) |}
  end.

(** [if element.canvas_id: canvas.delete(element.canvas_id)]: [None] and
    0 are false. *)
Definition canvas_delete_drawn (cid : option nat) (cv : Canvas) : Canvas :=
  match cid with
  | Some (S k) => canvas_delete_id (S k) cv
  | _ => cv
  end.

(** ** Output file name

    A character is a code point below 256 ([ascii] read as Latin-1); names
    with other code points are outside the model. *)

Definition in_range (lo hi : nat) (c : ascii) : bool :=
  Nat.leb lo (nat_of_ascii c) && Nat.leb (nat_of_ascii c) hi.

(** [str.isalnum] on one character: letters, decimal digits and the other
    numeric characters of Latin-1. *)
Definition isalnum (c : ascii) : bool :=
  in_range 48 57 c || in_range 65 90 c || in_range 97 122 c
  || in_range 170 170 c || in_range 178 179 c || in_range 181 181 c
  || in_range 185 186 c || in_range 188 190 c
  || in_range 192 214 c || in_range 216 246 c || in_range 248 255 c.

(** [str.isspace] on one character. *)
Definition isspace (c : ascii) : bool :=
  in_range 9 13 c || in_range 28 32 c || in_range 133 133 c || in_range 160 160 c.

(** [c.isalnum() or c in (' ', '-', '_')] *)
Definition keep_char (c : ascii) : bool :=
  isalnum c || Ascii.eqb c " " || Ascii.eqb c "-" || Ascii.eqb c "_".

(** ["".join(c for c in s if keep(c))] *)
Fixpoint join_if (keep : ascii -> bool) (s : string) : string :=
  match s with
  | EmptyString => EmptyString
  | String c r => if keep c then String c (join_if keep r) else join_if keep r
  end.

(** [s.rstrip()]: trailing whitespace removed. *)
Fixpoint rstrip (s : string) : string :=
  match s with
  | EmptyString => EmptyString
  | String c r =>
      match rstrip r with
      | EmptyString => if isspace c then EmptyString else String c EmptyString
      | r' => String c r'
      end
  end.

(** [s.replace(a, b)] for single characters. *)
Fixpoint replace_char (a b : ascii) (s : string) : string :=
  match s with
  | EmptyString => EmptyString
  | String c r => String (if Ascii.eqb c a then b else c) (replace_char a b r)
  end.

Definition safe_name (signature_name : string) : string :=
  replace_char " " "_" (rstrip (join_if keep_char signature_name)).

(** [f"{file_name}_signed_by_{safe_name}.pdf"] *)
Definition output_filename (file_name signature_name : string) : string :=
  file_name ++ "_signed_by_" ++ safe_name signature_name ++ ".pdf".

(** ** Export commands *)

Inductive Placement :=
| InsertImage (rect : Q * Q * Q * Q) (stream : list Byte.byte)
| InsertText (point : Q * Q) (txt : string) (fontsize : Q) (color : Q * Q * Q).

Inductive SaveResult :=
| NoPdfLoaded
| NoSignatures
| Failed
| Saved (output : string) (pages : list (list Placement)).

Definition color_map (c : string) : Q * Q * Q :=
  if String.eqb c "black" then (0, 0, 0)
  else if String.eqb c "red" then (1, 0, 0)
  else if String.eqb c "blue" then (0, 0, 1)
  else if String.eqb c "green" then (0, 0.5, 0)
  else if String.eqb c "purple" then (0.5, 0, 0.5)
  else if String.eqb c "orange" then (1, 0.5, 0)
  else if String.eqb c "brown" then (0.6, 0.3, 0)
  else if String.eqb c "gray" then (0.5, 0.5, 0.5)
  else (0, 0, 0).

(** The placement the second loop of [save_pdf] makes: the text [info] at
    font size 6. *)
Definition is_signature_info (info : string) (c : Placement) : bool :=
  match c with
  | InsertText _ txt fontsize _ => String.eqb txt info && Qeq_bool fontsize 6
  | InsertImage _ _ => false
  end.

Definition newline : string := String (ascii_of_nat 10) EmptyString.

(** The hint [create_ui] writes on the empty canvas. *)
Definition hint_text : string :=
  "Click 'Open PDF' to start" ++ newline ++ newline ++ "Tips:" ++ newline
  ++ "• Click signature to select" ++ newline
  ++ "• Double-click text to edit" ++ newline
  ++ "• Ctrl+Scroll to resize" ++ newline
  ++ "• Drag to move".

(** [v / self.base_scale_factor]: fails when the attribute is absent or
    zero. *)
Definition over_base_scale (bs : option Q) (v : Q) : option Q :=
  match bs with
  | None => None
  | Some b => if Qeq_bool b 0 then None else Some (v / b)
  end.

(** [str(int)] *)
Definition str_of_int (n : Z) : string :=
  DecimalString.NilZero.string_of_int (Z.to_int n).

(** ** Document geometry *)

Record PageRect := { rect_width : Q; rect_height : Q }.

Section App.

(** The raster-image collaborator. *)
Context {Image : Type}.
Variable thumbnail : Z * Z -> Image -> Image.
Variable save_png : Image -> list Byte.byte.

(** ** Session state ([self]) *)

Record State := {
  pdf_doc : option (list PageRect);
  pdf_file_name : string;
  signature_elements : list SignatureElement;
  current_page : nat;
  selected_element : option nat;
  drag_data : Q * Q;
  page_scale_factor : Q;
  base_scale_factor : option Q;
  zoom_level : Q;
  signature_name : string;
  canvas : Canvas;
  images : gmap nat Image
}.

(** [pdf_file_name] is [os.path.splitext(os.path.basename(pdf_file_path))[0]];
    [base_scale_factor] is absent until the first page refresh. *)

Definition canvas_width : Q := 700.

Definition set_canvas (cv : Canvas) (s : State) : State :=
  {| pdf_doc := pdf_doc s; pdf_file_name := pdf_file_name s;
     signature_elements := signature_elements s; current_page := current_page s;
     selected_element := selected_element s; drag_data := drag_data s;
     page_scale_factor := page_scale_factor s;
     base_scale_factor := base_scale_factor s; zoom_level := zoom_level s;
     signature_name := signature_name s; canvas := cv; images := images s |}.

Definition set_elements (els : list SignatureElement) (s : State) : State :=
  {| pdf_doc := pdf_doc s; pdf_file_name := pdf_file_name s;
     signature_elements := els; current_page := current_page s;
     selected_element := selected_element s; drag_data := drag_data s;
     page_scale_factor := page_scale_factor s;
     base_scale_factor := base_scale_factor s; zoom_level := zoom_level s;
     signature_name := signature_name s; canvas := canvas s; images := images s |}.

Definition set_selected (sel : option nat) (s : State) : State :=
  {| pdf_doc := pdf_doc s; pdf_file_name := pdf_file_name s;
     signature_elements := signature_elements s; current_page := current_page s;
     selected_element := sel; drag_data := drag_data s;
     page_scale_factor := page_scale_factor s;
     base_scale_factor := base_scale_factor s; zoom_level := zoom_level s;
     signature_name := signature_name s; canvas := canvas s; images := images s |}.

Definition set_drag_data (d : Q * Q) (s : State) : State :=
  {| pdf_doc := pdf_doc s; pdf_file_name := pdf_file_name s;
     signature_elements := signature_elements s; current_page := current_page s;
     selected_element := selected_element s; drag_data := d;
     page_scale_factor := page_scale_factor s;
     base_scale_factor := base_scale_factor s; zoom_level := zoom_level s;
     signature_name := signature_name s; canvas := canvas s; images := images s |}.

Definition set_zoom_level (z : Q) (s : State) : State :=
  {| pdf_doc := pdf_doc s; pdf_file_name := pdf_file_name s;
     signature_elements := signature_elements s; current_page := current_page s;
     selected_element := selected_element s; drag_data := drag_data s;
     page_scale_factor := page_scale_factor s;
     base_scale_factor := base_scale_factor s; zoom_level := z;
     signature_name := signature_name s; canvas := canvas s; images := images s |}.

Definition set_current_page (p : nat) (s : State) : State :=
  {| pdf_doc := pdf_doc s; pdf_file_name := pdf_file_name s;
     signature_elements := signature_elements s; current_page := p;
     selected_element := selected_element s; drag_data := drag_data s;
     page_scale_factor := page_scale_factor s;
     base_scale_factor := base_scale_factor s; zoom_level := zoom_level s;
     signature_name := signature_name s; canvas := canvas s; images := images s |}.

Definition set_scales (psf base : Q) (s : State) : State :=
  {| pdf_doc := pdf_doc s; pdf_file_name := pdf_file_name s;
     signature_elements := signature_elements s; current_page := current_page s;
     selected_element := selected_element s; drag_data := drag_data s;
     page_scale_factor := psf;
     base_scale_factor := Some base; zoom_level := zoom_level s;
     signature_name := signature_name s; canvas := canvas s; images := images s |}.

Definition set_images (imgs : gmap nat Image) (s : State) : State :=
  {| pdf_doc := pdf_doc s; pdf_file_name := pdf_file_name s;
     signature_elements := signature_elements s; current_page := current_page s;
     selected_element := selected_element s; drag_data := drag_data s;
     page_scale_factor := page_scale_factor s;
     base_scale_factor := base_scale_factor s; zoom_level := zoom_level s;
     signature_name := signature_name s; canvas := canvas s; images := imgs |}.

(** Truth value of [self.pdf_doc]: a document object is true when it has
    at least one page. *)
Definition doc_loaded (s : State) : bool :=
  match pdf_doc s with
  | Some (_ :: _) => true
  | _ => false
  end.

Definition page_count (s : State) : nat :=
  match pdf_doc s with
  | Some pages => length pages
  | None => 0%nat
  end.

(** ** Rendering *)

(** [draw_element_on_canvas]: the element is drawn at its stored envelope
    times the zoom level and receives the id of the new canvas item.  A
    failure inside is caught there and leaves element and canvas as they
    were. *)
Definition draw_element_on_canvas (zoom : Q) (imgs : gmap nat Image)
    (e : SignatureElement) (cv : Canvas) : SignatureElement * Canvas :=
  let zoomed_x := x e * zoom in
  let zoomed_y := y e * zoom in
  let zoomed_width := width e * zoom in
  let zoomed_height := height e * zoom in
  match content e with
  | ImageContent ref =>
      match imgs !! ref with
      | None => (e, cv)
      | Some _ =>
          let '(id, cv') :=
            canvas_create (Picture zoomed_x zoomed_y (py_int zoomed_width)
                             (py_int zoomed_height) ref) "signature" cv in
          (set_canvas_id (Some id) e, cv')
      end
  | TextContent txt =>
      let font_size := Z.max 8 (py_int (zoomed_height - 2)) in
      let '(id, cv') :=
        canvas_create (Text zoomed_x zoomed_y txt font_size (text_color e))
          "signature" cv in
      (set_canvas_id (Some id) e, cv')
  end.

(** [render_signatures]: the elements of the current page, in list order. *)
Fixpoint render_signatures (zoom : Q) (imgs : gmap nat Image) (cur : nat)
    (els : list SignatureElement) (cv : Canvas) : list SignatureElement * Canvas :=
  match els with
  | [] => ([], cv)
  | e :: rest =>
      let '(e', cv1) :=
        if Nat.eqb (page_num e) cur
        then draw_element_on_canvas zoom imgs e cv
        else (e, cv) in
      let '(rest', cv2) := render_signatures zoom imgs cur rest cv1 in
      (e' :: rest', cv2)
  end.

(** [show_selection_border]: the dashed border and one resize handle. *)
Definition show_selection_border (zoom : Q) (e : SignatureElement) (cv : Canvas) : Canvas :=
  let zoomed_x := x e * zoom in
  let zoomed_y := y e * zoom in
  let zoomed_width := width e * zoom in
  let zoomed_height := height e * zoom in
  let border_margin := 5 in
  let cv1 := snd (canvas_create
                    (Rectangle (zoomed_x - border_margin) (zoomed_y - border_margin)
                       (zoomed_x + zoomed_width + border_margin)
                       (zoomed_y + zoomed_height + border_margin))
                    "selection_border" cv) in
  let hx := zoomed_x + zoomed_width in
  let hy := zoomed_y + zoomed_height in
  snd (canvas_create (Rectangle (hx - 4) (hy - 4) (hx + 4) (hy + 4))
         "selection_border" cv1).

(** [update_page_display]: clears the selection, recomputes the base scale
    of the current page, redraws the page raster and the elements. *)
Definition update_page_display (s : State) : State :=
  if negb (doc_loaded s) then s else
  let s1 := set_canvas (canvas_delete_tag "selection_border" (canvas s))
              (set_selected None s) in
  match pdf_doc s with
  | None => s1
  | Some pages =>
      match pages !! current_page s with
      | None => s1
      | Some page_rect =>
          let base_scale :=
            if Qltb 0 (rect_width page_rect)
            then canvas_width / rect_width page_rect else 1.0 in
          let psf := base_scale * zoom_level s in
          let s2 := set_scales psf base_scale s1 in
          let cv1 := canvas_delete_all (canvas s2) in
          let cv2 := snd (canvas_create (PageImage psf) "pdf_page" cv1) in
          let '(els, cv3) :=
            render_signatures (zoom_level s2) (images s2) (current_page s2)
              (signature_elements s2) cv2 in
          set_canvas cv3 (set_elements els s2)
      end
  end.

(** ** Zoom *)

Definition zoom_in (s : State) : State :=
  if doc_loaded s
  then update_page_display (set_zoom_level (py_min 3.0 (zoom_level s * 1.2)) s)
  else s.

Definition zoom_out (s : State) : State :=
  if doc_loaded s
  then update_page_display (set_zoom_level (py_max 0.5 (zoom_level s / 1.2)) s)
  else s.

Definition zoom_reset (s : State) : State :=
  if doc_loaded s
  then update_page_display (set_zoom_level 1.0 s)
  else s.

Inductive ZoomOp := ZoomIn | ZoomOut | ZoomReset.

Definition zoom_op (op : ZoomOp) (s : State) : State :=
  match op with
  | ZoomIn => zoom_in s
  | ZoomOut => zoom_out s
  | ZoomReset => zoom_reset s
  end.

Definition zoom_ops (ops : list ZoomOp) (s : State) : State :=
  fold_left (fun st op => zoom_op op st) ops s.

(** ** Documents, pages, new elements *)

(** The state [__init__] leaves, for a user name [name]. *)
Definition initial_state (name : string) : State :=
  {| pdf_doc := None; pdf_file_name := ""; signature_elements := [];
     current_page := 0%nat; selected_element := None; drag_data := (0, 0);
     page_scale_factor := 1.0; base_scale_factor := None; zoom_level := 1.0;
     signature_name := name;
     canvas := {| next_id := 2%nat;
                  items := [{| item_id := 1%nat; item_tag := "";
                               item_shape := Text 350 300 hint_text 12 "gray" |}] |};
     images := ∅ |}.

(** [open_pdf], once the file dialog returned a path that PyMuPDF opened:
    [pages] are the page rectangles, [stem] the file name without directory
    and extension. *)
Definition open_pdf (pages : list PageRect) (stem : string) (s : State) : State :=
  update_page_display
    {| pdf_doc := Some pages; pdf_file_name := stem; signature_elements := [];
       current_page := 0%nat; selected_element := None; drag_data := drag_data s;
       page_scale_factor := page_scale_factor s;
       base_scale_factor := base_scale_factor s; zoom_level := 1.0;
       signature_name := signature_name s; canvas := canvas s;
       images := images s |}.

Definition prev_page (s : State) : State :=
  if doc_loaded s && Nat.ltb 0 (current_page s)
  then set_selected None
         (update_page_display (set_current_page (current_page s - 1) s))
  else s.

Definition next_page (s : State) : State :=
  if doc_loaded s && Nat.ltb (current_page s) (page_count s - 1)
  then set_selected None
         (update_page_display (set_current_page (current_page s + 1) s))
  else s.

(** Appending an element and drawing it: the tail of [add_image_signature],
    [use_saved_signature] and [add_text_signature]. *)
Definition append_and_draw (e : SignatureElement) (s : State) : State :=
  let '(e', cv) := draw_element_on_canvas (zoom_level s) (images s) e (canvas s) in
  set_canvas cv (set_elements (signature_elements s ++ [e']) s).

(** [add_image_signature] / [use_saved_signature], once the image [img] was
    decoded (resp. copied from the library): a new image object. *)
Definition add_image_signature (img : Image) (s : State) : State :=
  if negb (doc_loaded s) then s else
  let ref := fresh (dom (images s)) in
  let s1 := set_images (<[ref := img]> (images s)) s in
  append_and_draw
    {| content := ImageContent ref; x := 100; y := 100; width := 150;
       height := 75; page_num := current_page s; canvas_id := None;
       text_color := "black" |} s1.

Definition add_text_signature (s : State) : State :=
  if negb (doc_loaded s) then s else
  let font_size := 12 in
  let s1 := append_and_draw
    {| content := TextContent "Text"; x := 100; y := 200; width := 200;
       height := font_size + 10; page_num := current_page s; canvas_id := None;
       text_color := "black" |} s in
  let i := length (signature_elements s) in
  match signature_elements s1 !! i with
  | None => s1
  | Some e =>
      set_canvas (show_selection_border (zoom_level s1) e (canvas s1))
        (set_selected (Some i) s1)
  end.

(** ** Gestures *)

(** The first element of the current page whose canvas item is
    [clicked_item] (the loop of [on_canvas_click]). *)
Fixpoint find_clicked (clicked_item cur : nat) (i : nat)
    (els : list SignatureElement) : option nat :=
  match els with
  | [] => None
  | e :: rest =>
      if match canvas_id e with
         | Some id => Nat.eqb id clicked_item
         | None => false
         end && Nat.eqb (page_num e) cur
      then Some i
      else find_clicked clicked_item cur (S i) rest
  end.

(** [on_canvas_click] at canvas position [(canvas_x, canvas_y)];
    [clicked_item] is what [canvas.find_closest] answers there. *)
Definition on_canvas_click (canvas_x canvas_y : Q) (clicked_item : nat)
    (s : State) : State :=
  let cv := canvas_delete_tag "selection_border" (canvas s) in
  match find_clicked clicked_item (current_page s) 0 (signature_elements s) with
  | Some i =>
      match signature_elements s !! i with
      | Some e =>
          set_canvas (show_selection_border (zoom_level s) e cv)
            (set_drag_data (canvas_x, canvas_y) (set_selected (Some i) s))
      | None => set_canvas cv (set_selected None s)
      end
  | None => set_canvas cv (set_selected None s)
  end.

(** [on_ctrl_scroll] with wheel delta [delta]. *)
Definition on_ctrl_scroll (delta : Z) (s : State) : State :=
  match selected_element s with
  | None => s
  | Some i =>
      match signature_elements s !! i with
      | None => s
      | Some e =>
          let scale_factor := if Z.ltb 0 delta then 1.1 else 0.9 in
          let new_width := py_max 20 (width e * scale_factor) in
          let new_height := py_max 10 (height e * scale_factor) in
          let new_width := py_min 500 new_width in
          let new_height := py_min 300 new_height in
          let e1 := set_size new_width new_height e in
          let cv1 := canvas_delete_drawn (canvas_id e1) (canvas s) in
          let '(e2, cv2) :=
            draw_element_on_canvas (zoom_level s) (images s) e1 cv1 in
          let cv3 := canvas_delete_tag "selection_border" cv2 in
          let cv4 := show_selection_border (zoom_level s) e2 cv3 in
          let feedback_x := x e2 * zoom_level s + width e2 * zoom_level s + 10 in
          let feedback_y := y e2 * zoom_level s in
          let cv5 :=
            snd (canvas_create
                   (Text feedback_x feedback_y
                      (str_of_int (py_int new_width) ++ "x"
                       ++ str_of_int (py_int new_height)) 10 "blue")
                   "size_feedback" cv4) in
          set_canvas cv5 (set_elements (<[i := e2]> (signature_elements s)) s)
      end
  end.

(** [on_canvas_drag] with the pointer at canvas position
    [(canvas_x, canvas_y)]. *)
Definition on_canvas_drag (canvas_x canvas_y : Q) (s : State) : State :=
  match selected_element s with
  | None => s
  | Some i =>
      match signature_elements s !! i with
      | None => s
      | Some e =>
          let delta_x := canvas_x - fst (drag_data s) in
          let delta_y := canvas_y - snd (drag_data s) in
          let e1 := set_position (x e + delta_x / zoom_level s)
                      (y e + delta_y / zoom_level s) e in
          let cv1 := canvas_move (canvas_id e1) delta_x delta_y (canvas s) in
          let cv2 := canvas_delete_tag "selection_border" cv1 in
          let cv3 := show_selection_border (zoom_level s) e1 cv2 in
          set_drag_data (canvas_x, canvas_y)
            (set_canvas cv3 (set_elements (<[i := e1]> (signature_elements s)) s))
      end
  end.

(** A drag gesture: one [on_canvas_drag] per pointer position. *)
Definition drag_through (path : list (Q * Q)) (s : State) : State :=
  fold_left (fun st p => on_canvas_drag (fst p) (snd p) st) path s.

(** ** Export *)

(** One element of the first loop of [save_pdf].  An image is copied, the
    copy is shrunk in place and encoded; the rectangle is computed after
    that.  [None] stands for an exception, which ends the export. *)
Definition export_element (bs : option Q) (e : SignatureElement)
    (imgs : gmap nat Image) : gmap nat Image * option Placement :=
  match content e with
  | ImageContent ref =>
      match imgs !! ref with
      | None => (imgs, None)
      | Some img =>
          let c := fresh (dom imgs) in
          let imgs1 := <[c := img]> imgs in
          let imgs2 := alter (thumbnail (800, 600)%Z) c imgs1 in
          (imgs2,
           img_copy ← imgs2 !! c;
           x0 ← over_base_scale bs (x e);
           y0 ← over_base_scale bs (y e);
           x1 ← over_base_scale bs (x e + width e);
           y1 ← over_base_scale bs (y e + height e);
           Some (InsertImage (x0, y0, x1, y1) (save_png img_copy)))
      end
  | TextContent txt =>
      (imgs,
       px ← over_base_scale bs (x e);
       py ← over_base_scale bs (y e + height e);
       h ← over_base_scale bs (height e);
       Some (InsertText (px, py) txt (py_max 8 h) (color_map (text_color e))))
  end.

Fixpoint export_elements (bs : option Q) (els : list SignatureElement)
    (imgs : gmap nat Image) : gmap nat Image * option (list Placement) :=
  match els with
  | [] => (imgs, Some [])
  | e :: rest =>
      match export_element bs e imgs with
      | (imgs1, None) => (imgs1, None)
      | (imgs1, Some p) =>
          let '(imgs2, r) := export_elements bs rest imgs1 in
          (imgs2, cons p <$> r)
      end
  end.

(** [[elem for elem in self.signature_elements if elem.page_num == page_num]] *)
Definition page_elements (page : nat) (els : list SignatureElement) : list SignatureElement :=
  List.filter (fun e => Nat.eqb (page_num e) page) els.

(** The first loop over the pages [pages] of the copy. *)
Fixpoint export_pages (bs : option Q) (els : list SignatureElement)
    (pages : list nat) (imgs : gmap nat Image)
    : gmap nat Image * option (list (list Placement)) :=
  match pages with
  | [] => (imgs, Some [])
  | p :: rest =>
      match export_elements bs (page_elements p els) imgs with
      | (imgs1, None) => (imgs1, None)
      | (imgs1, Some placed) =>
          let '(imgs2, r) := export_pages bs els rest imgs1 in
          (imgs2, cons placed <$> r)
      end
  end.

(** The second loop, for one page: the signature info goes to the first
    image element of a page that has one. *)
Definition signature_info (bs : option Q) (info : string) (page : nat)
    (els : list SignatureElement) : list Placement :=
  if existsb is_image (page_elements page els)
  then match List.filter is_image (page_elements page els) with
       | [] => []
       | e :: _ =>
           match over_base_scale bs (x e), over_base_scale bs (y e) with
           | Some px, Some py => [InsertText (px, py) info 6 (0.4, 0.4, 0.4)]
           | _, _ => []
           end
       end
  else [].

(** [save_pdf]; [now] is the formatted time stamp.  The result carries the
    placements made on each page of the copy, in order. *)
Definition save_pdf (now : string) (s : State) : State * SaveResult :=
  if negb (doc_loaded s) then (s, NoPdfLoaded) else
  match signature_elements s with
  | [] => (s, NoSignatures)
  | _ :: _ =>
      let '(imgs, r) :=
        export_pages (base_scale_factor s) (signature_elements s)
          (seq 0 (page_count s)) (images s) in
      match r with
      | None => (set_images imgs s, Failed)
      | Some placed =>
          let info := "Signed by " ++ signature_name s ++ newline ++ now in
          (set_images imgs s,
           Saved (output_filename (pdf_file_name s) (signature_name s))
             (imap (fun p cmds =>
                      (cmds ++ signature_info (base_scale_factor s) info p
                                 (signature_elements s))%list) placed))
      end
  end.

End App.

(** * Further handlers

    Element management ([delete_selected], [clear_all],
    [on_element_select]), the colour of a text element
    ([change_selected_text_color]) and inline text editing
    ([on_double_click], [start_text_editing], [finish_text_editing],
    [cancel_text_editing]).  The list box, the status bar and the dialogs
    stay left out: [clear_all] is the confirmed case, [on_element_select]
    receives the row the list box reports. *)

Definition set_text_color (c : string) (e : SignatureElement) : SignatureElement :=
  {| content := content e; x := x e; y := y e; width := width e;
     height := height e; page_num := page_num e; canvas_id := canvas_id e;
     text_color := c |}.

Definition set_content (c : Content) (e : SignatureElement) : SignatureElement :=
  {| content := c; x := x e; y := y e; width := width e;
     height := height e; page_num := page_num e; canvas_id := canvas_id e;
     text_color := text_color e |}.

(** [s.lstrip()] and [s.strip()] *)
Fixpoint lstrip (s : string) : string :=
  match s with
  | EmptyString => EmptyString
  | String c r => if isspace c then lstrip r else s
  end.

Definition strip (s : string) : string := rstrip (lstrip s).

(** [a == b] on canvas ids ([None] or an integer). *)
Definition canvas_id_eq (a b : option nat) : bool :=
  match a, b with
  | None, None => true
  | Some i, Some j => Nat.eqb i j
  | _, _ => false
  end.

(** [canvas.create_window]: the window item takes an id; the widget it
    shows is kept in [text_entry], not among [items]. *)
Definition canvas_create_window (cv : Canvas) : Canvas :=
  {| next_id := S (next_id cv); items := items cv |}.

(** The [tk.Entry] of inline editing: its text, font size, place and
    width on the canvas. *)
Record Entry := {
  entry_text : string;
  entry_font_size : Z;
  entry_x : Q;
  entry_y : Q;
  entry_width : Q
}.

Section Handlers.

Context {Image : Type}.

(** [Image.__eq__] of PIL, on two distinct image objects. *)
Variable image_eq : Image -> Image -> bool.

Local Abbreviation State := (@State Image).

(** [a == b] on contents: the same object, or equal values. *)
Definition content_eq (imgs : gmap nat Image) (a b : Content) : bool :=
  match a, b with
  | ImageContent r1, ImageContent r2 =>
      Nat.eqb r1 r2
      || match imgs !! r1, imgs !! r2 with
         | Some i1, Some i2 => image_eq i1 i2
         | _, _ => false
         end
  | TextContent s1, TextContent s2 => String.eqb s1 s2
  | _, _ => false
  end.

(** The [__eq__] a dataclass generates: field by field. *)
Definition element_eq (imgs : gmap nat Image) (a b : SignatureElement) : bool :=
  content_eq imgs (content a) (content b)
  && Qeq_bool (x a) (x b) && Qeq_bool (y a) (y b)
  && Qeq_bool (width a) (width b) && Qeq_bool (height a) (height b)
  && Nat.eqb (page_num a) (page_num b)
  && canvas_id_eq (canvas_id a) (canvas_id b)
  && String.eqb (text_color a) (text_color b).

(** [list.remove(value)]: the first item that is [value] itself (position
    [i]) or equal to it goes. *)
Fixpoint list_remove (imgs : gmap nat Image) (i : nat) (value : SignatureElement)
    (j : nat) (l : list SignatureElement) : list SignatureElement :=
  match l with
  | [] => []
  | e :: rest =>
      if Nat.eqb j i || element_eq imgs e value
      then rest
      else e :: list_remove imgs i value (S j) rest
  end.

Definition delete_selected (s : State) : State :=
  match selected_element s with
  | None => s
  | Some i =>
      match signature_elements s !! i with
      | None => s
      | Some e =>
          let cv := canvas_delete_drawn (canvas_id e) (canvas s) in
          set_selected None
            (set_elements (list_remove (images s) i e 0 (signature_elements s))
               (set_canvas cv s))
      end
  end.

Definition clear_all (s : State) : State :=
  update_page_display (set_selected None (set_elements [] s)).

(** [on_element_select] for the row [index] of the list box. *)
Definition on_element_select (index : nat) (s : State) : State :=
  match signature_elements s !! index with
  | None => s
  | Some e =>
      set_selected (Some index)
        (if negb (Nat.eqb (page_num e) (current_page s))
         then update_page_display (set_current_page (page_num e) s)
         else s)
  end.

(** [change_selected_text_color]; [new_color] is the value of the colour
    box. *)
Definition change_selected_text_color (new_color : string) (s : State) : State :=
  match selected_element s with
  | None => s
  | Some i =>
      match signature_elements s !! i with
      | None => s
      | Some e =>
          if is_text e then
            let e1 := set_text_color new_color e in
            let cv1 := canvas_delete_drawn (canvas_id e1) (canvas s) in
            let '(e2, cv2) :=
              draw_element_on_canvas (zoom_level s) (images s) e1 cv1 in
            let cv3 := show_selection_border (zoom_level s) e2 cv2 in
            set_canvas cv3 (set_elements (<[i := e2]> (signature_elements s)) s)
          else s
      end
  end.

(** ** Inline text editing *)

(** The session together with the editing attributes of [self]. *)
Record Ui := {
  app : State;
  is_editing_text : bool;
  text_entry : option Entry
}.

Definition on_app (f : State -> State) (u : Ui) : Ui :=
  {| app := f (app u); is_editing_text := is_editing_text u;
     text_entry := text_entry u |}.

(** [start_text_editing] for the element at position [i]. *)
Definition start_text_editing (i : nat) (u : Ui) : Ui :=
  match signature_elements (app u) !! i with
  | None => u
  | Some e =>
      match content e with
      | ImageContent _ => u
      | TextContent txt =>
          let s := app u in
          let cv1 := canvas_delete_drawn (canvas_id e) (canvas s) in
          let zoomed_font_size := py_int ((height e - 2) * zoom_level s) in
          let zoomed_x := x e * zoom_level s in
          let zoomed_y := y e * zoom_level s in
          let zoomed_width := width e * zoom_level s in
          {| app := set_canvas (canvas_create_window cv1) s;
             is_editing_text := true;
             text_entry := Some {| entry_text := txt;
                                   entry_font_size := zoomed_font_size;
                                   entry_x := zoomed_x; entry_y := zoomed_y;
                                   entry_width := zoomed_width |} |}
      end
  end.

(** The user replaces the text of the entry. *)
Definition type_text (t : string) (u : Ui) : Ui :=
  match text_entry u with
  | None => u
  | Some en =>
      {| app := app u; is_editing_text := is_editing_text u;
         text_entry := Some {| entry_text := t;
                               entry_font_size := entry_font_size en;
                               entry_x := entry_x en; entry_y := entry_y en;
                               entry_width := entry_width en |} |}
  end.

(** The end of both editing handlers: the entry is gone, the element is
    drawn again with its border. *)
Definition close_entry (i : nat) (e1 : SignatureElement) (u : Ui) : Ui :=
  let s := app u in
  let '(e2, cv2) :=
    draw_element_on_canvas (zoom_level s) (images s) e1 (canvas s) in
  let cv3 := show_selection_border (zoom_level s) e2 cv2 in
  {| app := set_canvas cv3 (set_elements (<[i := e2]> (signature_elements s)) s);
     is_editing_text := false;
     text_entry := None |}.

(** [finish_text_editing], bound to the text element at position [i]. *)
Definition finish_text_editing (i : nat) (u : Ui) : Ui :=
  match text_entry u with
  | None => u
  | Some en =>
      if negb (is_editing_text u) then u else
      match signature_elements (app u) !! i with
      | None => u
      | Some e =>
          match content e with
          | ImageContent _ => u
          | TextContent _ =>
              let new_text := strip (entry_text en) in
              let e1 :=
                match new_text with
                | EmptyString => set_content (TextContent "Text") e
                | String _ _ => set_content (TextContent new_text) e
                end in
              close_entry i e1 u
          end
      end
  end.

(** [cancel_text_editing], bound to the text element at position [i]. *)
Definition cancel_text_editing (i : nat) (u : Ui) : Ui :=
  match text_entry u with
  | None => u
  | Some en =>
      if negb (is_editing_text u) then u else
      match signature_elements (app u) !! i with
      | None => u
      | Some e =>
          match content e with
          | ImageContent _ => u
          | TextContent txt =>
              let e1 :=
                if String.eqb txt "Click to edit text"
                then set_content (TextContent "Text") e else e in
              close_entry i e1 u
          end
      end
  end.

Definition on_double_click (u : Ui) : Ui :=
  match selected_element (app u) with
  | None => u
  | Some i => start_text_editing i u
  end.

(** The editing handlers are bound to an element object.  It may have
    been deleted since: then it is in no position of the list, the
    handlers work on it all the same and draw it on the canvas. *)
Definition start_text_editing_removed (e : SignatureElement) (u : Ui) : Ui :=
  match content e with
  | ImageContent _ => u
  | TextContent txt =>
      let s := app u in
      let cv1 := canvas_delete_drawn (canvas_id e) (canvas s) in
      let zoomed_font_size := py_int ((height e - 2) * zoom_level s) in
      let zoomed_x := x e * zoom_level s in
      let zoomed_y := y e * zoom_level s in
      let zoomed_width := width e * zoom_level s in
      {| app := set_canvas (canvas_create_window cv1) s;
         is_editing_text := true;
         text_entry := Some {| entry_text := txt;
                               entry_font_size := zoomed_font_size;
                               entry_x := zoomed_x; entry_y := zoomed_y;
                               entry_width := zoomed_width |} |}
  end.

Definition close_entry_removed (e1 : SignatureElement) (u : Ui) : Ui :=
  let s := app u in
  let '(e2, cv2) :=
    draw_element_on_canvas (zoom_level s) (images s) e1 (canvas s) in
  let cv3 := show_selection_border (zoom_level s) e2 cv2 in
  {| app := set_canvas cv3 s; is_editing_text := false; text_entry := None |}.

Definition finish_text_editing_removed (e : SignatureElement) (u : Ui) : Ui :=
  match text_entry u with
  | None => u
  | Some en =>
      if negb (is_editing_text u) then u else
      match content e with
      | ImageContent _ => u
      | TextContent _ =>
          let new_text := strip (entry_text en) in
          let e1 :=
            match new_text with
            | EmptyString => set_content (TextContent "Text") e
            | String _ _ => set_content (TextContent new_text) e
            end in
          close_entry_removed e1 u
      end
  end.

Definition cancel_text_editing_removed (e : SignatureElement) (u : Ui) : Ui :=
  match text_entry u with
  | None => u
  | Some en =>
      if negb (is_editing_text u) then u else
      match content e with
      | ImageContent _ => u
      | TextContent txt =>
          let e1 :=
            if String.eqb txt "Click to edit text"
            then set_content (TextContent "Text") e else e in
          close_entry_removed e1 u
      end
  end.

(** ** Name and size feedback *)

(** [save_signature_name]; [entered] is the content of the name box. *)
Definition save_signature_name (entered : string) (s : State) : State :=
  match strip entered with
  | EmptyString => s
  | String c r =>
      {| pdf_doc := pdf_doc s; pdf_file_name := pdf_file_name s;
         signature_elements := signature_elements s;
         current_page := current_page s;
         selected_element := selected_element s; drag_data := drag_data s;
         page_scale_factor := page_scale_factor s;
         base_scale_factor := base_scale_factor s; zoom_level := zoom_level s;
         signature_name := String c r; canvas := canvas s; images := images s |}
  end.

(** The call [on_ctrl_scroll] schedules: [canvas.delete("size_feedback")]. *)
Definition remove_size_feedback (s : State) : State :=
  set_canvas (canvas_delete_tag "size_feedback" (canvas s)) s.

(** ** Sessions *)

(** What the user (or a timer) does next.  [StartEdit] is the delayed
    call [add_text_signature] schedules; [Confirm] is Return or the loss
    of focus in the entry, [Cancel] is Escape; the three come with the
    position of the element they are bound to, or with the element itself
    once it was deleted.  [OpenPdf] is a file that was chosen and opened,
    [AddImage] an image that was chosen and decoded, or picked from the
    library and copied. *)
Inductive Event :=
| OpenPdf (pages : list PageRect) (stem : string)
| Zoom (op : ZoomOp)
| PrevPage
| NextPage
| AddImage (img : Image)
| AddText
| Click (canvas_x canvas_y : Q) (clicked_item : nat)
| DoubleClick
| Drag (canvas_x canvas_y : Q)
| CtrlScroll (delta : Z)
| ListSelect (index : nat)
| ApplyColor (new_color : string)
| DeleteSelected
| ClearAll
| Save (now : string)
| StartEdit (i : nat)
| TypeText (t : string)
| Confirm (i : nat)
| Cancel (i : nat)
| StartEditRemoved (e : SignatureElement)
| ConfirmRemoved (e : SignatureElement)
| CancelRemoved (e : SignatureElement)
| SaveName (entered : string)
| FeedbackTimeout.

Variable thumbnail : Z * Z -> Image -> Image.
Variable save_png : Image -> list Byte.byte.

Definition handle (ev : Event) (u : Ui) : Ui :=
  match ev with
  | OpenPdf pages stem => on_app (open_pdf pages stem) u
  | Zoom op => on_app (zoom_op op) u
  | PrevPage => on_app prev_page u
  | NextPage => on_app next_page u
  | AddImage img => on_app (add_image_signature img) u
  | AddText => on_app add_text_signature u
  | Click cx cy item => on_app (on_canvas_click cx cy item) u
  | DoubleClick => on_double_click u
  | Drag cx cy => on_app (on_canvas_drag cx cy) u
  | CtrlScroll delta => on_app (on_ctrl_scroll delta) u
  | ListSelect index => on_app (on_element_select index) u
  | ApplyColor c => on_app (change_selected_text_color c) u
  | DeleteSelected => on_app delete_selected u
  | ClearAll => on_app clear_all u
  | Save now => on_app (fun s => fst (save_pdf thumbnail save_png now s)) u
  | StartEdit i => start_text_editing i u
  | TypeText t => type_text t u
  | Confirm i => finish_text_editing i u
  | Cancel i => cancel_text_editing i u
  | StartEditRemoved e => start_text_editing_removed e u
  | ConfirmRemoved e => finish_text_editing_removed e u
  | CancelRemoved e => cancel_text_editing_removed e u
  | SaveName entered => on_app (save_signature_name entered) u
  | FeedbackTimeout => on_app remove_size_feedback u
  end.

(** The application after [__init__], and after a sequence of events. *)
Definition started (name : string) : Ui :=
  {| app := initial_state name; is_editing_text := false; text_entry := None |}.

Definition run (evs : list Event) (u : Ui) : Ui :=
  fold_left (fun st ev => handle ev st) evs u.

End Handlers.

(** * Binary64 arithmetic

    A Python [float] is an IEEE 754 binary64 number, and [+], [-] and [/]
    on floats return the exact result rounded to the nearest binary64
    number, ties to the even mantissa.  A float is kept as the rational
    number it stands for.  The exponent range is left unbounded: results
    of magnitude below 2^-1022 or from 2^1024 on (subnormal numbers,
    overflow) are outside the model. *)

(** The nearest integer, ties to even. *)
Definition rne (s : Q) : Z :=
  let f := Qfloor s in
  match Qcompare (s - inject_Z f) (1 # 2) with
  | Lt => f
  | Gt => (f + 1)%Z
  | Eq => if Z.even f then f else (f + 1)%Z
  end.

(** The exponent [e] of the last mantissa bit of a positive [a]:
    [2^52 <= a / 2^e < 2^53]. *)
Definition binary64_exponent (a : Q) : Z :=
  let e0 := (Z.log2 (Qnum a) - Z.log2 (Zpos (Qden a)) - 53)%Z in
  if Qle_bool (2 ^ 53) (a * 2 ^ (- e0)) then (e0 + 1)%Z else e0.

(** Rounding to binary64. *)
Definition round64 (q : Q) : Q :=
  match Qnum q with
  | Z0 => 0
  | _ =>
      let a := Qabs q in
      let e := binary64_exponent a in
      let r := inject_Z (rne (a * 2 ^ (- e))) * 2 ^ e in
      Qred (if (Qnum q <? 0)%Z then - r else r)
  end.

(** The unit roundoff of binary64, [2^-53]. *)
Definition unit_roundoff : Q := 1 # (2 ^ 53).

Definition float_add (a b : Q) : Q := round64 (a + b).
Definition float_sub (a b : Q) : Q := round64 (a - b).
Definition float_div (a b : Q) : Q := round64 (a / b).

(** The value of a finite number of the Standard Library's specification
    of IEEE 754 arithmetic, and the binary64 number nearest to [m * 2^e]
    there. *)
Definition spec_float_value (f : SpecFloat.spec_float) : option Q :=
  match f with
  | SpecFloat.S754_zero _ => Some 0
  | SpecFloat.S754_finite sign m e =>
      Some ((if sign then -1 else 1) * inject_Z (Zpos m) * 2 ^ e)
  | _ => None
  end.

Definition spec_float_of (m e : Z) : SpecFloat.spec_float :=
  SpecFloat.binary_normalize 53 1024 m e false.

Section Rounded.

Context {Image : Type}.

Local Abbreviation State := (@State Image).

(** [on_canvas_drag] with the arithmetic on the stored position as the
    code performs it: [canvas_x - self.drag_data["x"]], [delta_x /
    self.zoom_level] and [+=] are each rounded to binary64.  The canvas
    (Tk's own arithmetic on item coordinates) is kept as before. *)
Definition on_canvas_drag_64 (canvas_x canvas_y : Q) (s : State) : State :=
  match selected_element s with
  | None => s
  | Some i =>
      match signature_elements s !! i with
      | None => s
      | Some e =>
          let delta_x := float_sub canvas_x (fst (drag_data s)) in
          let delta_y := float_sub canvas_y (snd (drag_data s)) in
          let e1 := set_position
                      (float_add (x e) (float_div delta_x (zoom_level s)))
                      (float_add (y e) (float_div delta_y (zoom_level s))) e in
          let cv1 := canvas_move (canvas_id e1) delta_x delta_y (canvas s) in
          let cv2 := canvas_delete_tag "selection_border" cv1 in
          let cv3 := show_selection_border (zoom_level s) e1 cv2 in
          set_drag_data (canvas_x, canvas_y)
            (set_canvas cv3 (set_elements (<[i := e1]> (signature_elements s)) s))
      end
  end.

(** A drag gesture in binary64: one [on_canvas_drag_64] per pointer
    position. *)
Definition drag_through_64 (path : list (Q * Q)) (s : State) : State :=
  fold_left (fun st p => on_canvas_drag_64 (fst p) (snd p) st) path s.

End Rounded.

(** * Auxiliary definitions *)

(** The size arithmetic of [on_ctrl_scroll] for one dimension with the
    limits [lo] and [hi]. *)
Definition rescale (lo hi scale_factor v : Q) : Q :=
  py_min hi (py_max lo (v * scale_factor)).

Definition scroll_factor (delta : Z) : Q := if Z.ltb 0 delta then 1.1 else 0.9.

Fixpoint qpow (q : Q) (n : nat) : Q :=
  match n with
  | O => 1
  | S k => q * qpow q k
  end.

(** Views of the session used in the statements. *)

Section Views.

Context {Image : Type}.

(** What a page refresh keeps: the document, the page shown, the zoom
    level, the names, the image heap and the stored part of every
    element. *)
Definition kept (s : @State Image) :=
  (pdf_doc s, pdf_file_name s, current_page s, zoom_level s,
   signature_name s, images s, List.map stored (signature_elements s)).

(** What [save_pdf] reads from the session. *)
Definition export_input (s : @State Image) :=
  (pdf_doc s, pdf_file_name s, signature_name s, images s,
   base_scale_factor s, List.map stored (signature_elements s)).

(** The base scale a page refresh leaves: that of the page being shown. *)
Definition refreshed_base_scale (s : @State Image) : option Q :=
  if doc_loaded s then
    match pdf_doc s with
    | Some pages =>
        match pages !! current_page s with
        | Some page_rect =>
            Some (if Qltb 0 (rect_width page_rect)
                  then canvas_width / rect_width page_rect else 1.0)
        | None => base_scale_factor s
        end
    | None => base_scale_factor s
    end
  else base_scale_factor s.

End Views.

(** A base scale that can be divided by. *)
Definition usable (bs : option Q) : Prop :=
  exists b, bs = Some b /\ Qeq_bool b 0 = false.

(** What every session keeps (see the theorems on sessions): the zoom
    level stays in its range, image elements refer to live image objects,
    an open document has a positive base scale and a current page inside
    it, every element is anchored to a page of the document, the selection
    is an element of the list, and the canvas handles of the elements are
    ids the canvas has handed out, no two the same. *)
Definition drawn_below (n : nat) (e : SignatureElement) : Prop :=
  exists id, canvas_id e = Some id /\ (id < n)%nat.

Record consistent {Image : Type} (s : @State Image) : Prop := {
  zoom_in_range : 0.5 <= zoom_level s /\ zoom_level s <= 3.0;
  images_alive :
    Forall (fun e => forall r, content e = ImageContent r -> is_Some (images s !! r))
      (signature_elements s);
  base_scale_positive :
    doc_loaded s = true -> exists b, base_scale_factor s = Some b /\ 0 < b;
  page_in_document : doc_loaded s = true -> (current_page s < page_count s)%nat;
  elements_anchored :
    Forall (fun e => (page_num e < page_count s)%nat) (signature_elements s);
  selection_in_list :
    forall i, selected_element s = Some i -> (i < length (signature_elements s))%nat;
  handles_below :
    Forall (drawn_below (next_id (canvas s))) (signature_elements s);
  handles_distinct : NoDup (List.map canvas_id (signature_elements s))
}.

(** The canvas item [draw_element_on_canvas] makes for [e]. *)
Definition drawn_shape (zoom : Q) (e : SignatureElement) : Shape :=
  match content e with
  | ImageContent ref =>
      Picture (x e * zoom) (y e * zoom) (py_int (width e * zoom))
        (py_int (height e * zoom)) ref
  | TextContent txt =>
      Text (x e * zoom) (y e * zoom) txt (Z.max 8 (py_int (height e * zoom - 2)))
        (text_color e)
  end.

(** The scale that fits a page to the canvas width
    ([base_scale] of [update_page_display]). *)
Definition fit_scale (page_rect : PageRect) : Q :=
  if Qltb 0 (rect_width page_rect)
  then canvas_width / rect_width page_rect else 1.0.

(** The elements after a redraw of page [cur] that starts at canvas id
    [n]: those of the page receive the ids [n], [n + 1], ... in list
    order, the others keep their handle. *)
Fixpoint relabel (cur n : nat) (els : list SignatureElement) : list SignatureElement :=
  match els with
  | [] => []
  | e :: rest =>
      if Nat.eqb (page_num e) cur
      then set_canvas_id (Some n) e :: relabel cur (S n) rest
      else e :: relabel cur n rest
  end.

(** The canvas items a redraw adds for the elements [shown], from id [n]
    on. *)
Definition drawn_items (zoom : Q) (n : nat) (shown : list SignatureElement) : list Item :=
  imap (fun k e => {| item_id := (n + k)%nat; item_tag := "signature";
                      item_shape := drawn_shape zoom e |}) shown.

Definition alive {Image : Type} (imgs : gmap nat Image) (e : SignatureElement) : Prop :=
  forall r, content e = ImageContent r -> is_Some (imgs !! r).

(** What the export places for one element at base scale [b]: an image
    fills its rectangle with the encoded, shrunk copy of its image; a text
    is set with its base line at the bottom of the box. *)
Definition placed {Image : Type} (thumbnail : Z * Z -> Image -> Image)
    (save_png : Image -> list Byte.byte) (b : Q) (imgs : gmap nat Image)
    (e : SignatureElement) : option Placement :=
  match content e with
  | ImageContent ref =>
      match imgs !! ref with
      | Some img =>
          Some (InsertImage
                  (x e / b, y e / b, (x e + width e) / b, (y e + height e) / b)
                  (save_png (thumbnail (800, 600)%Z img)))
      | None => None
      end
  | TextContent txt =>
      Some (InsertText (x e / b, (y e + height e) / b) txt
              (py_max 8 (height e / b)) (color_map (text_color e)))
  end.

(** The text a confirmed edit leaves. *)
Definition confirmed_text (typed : string) : string :=
  match strip typed with
  | EmptyString => "Text"
  | String c r => String c r
  end.





(** Both coordinates of a point are at most [W] in magnitude. *)
Definition within (W : Q) (p : Q * Q) : Prop :=
  Qabs (fst p) <= W /\ Qabs (snd p) <= W.

(** The sizes [on_ctrl_scroll] allows. *)
Definition in_bounds (e : SignatureElement) : Prop :=
  20 <= width e /\ width e <= 500 /\ 10 <= height e /\ height e <= 300.

(** The sanitisation in the words of the specification: keep the
    alphanumerics, spaces, hyphens and underscores, replace every space by
    an underscore. *)
Definition sanitize_as_specified (name : string) : string :=
  replace_char " " "_" (join_if keep_char name).

(** Trailing spaces (and only spaces) removed. *)
Fixpoint drop_trailing_spaces (s : string) : string :=
  match s with
  | EmptyString => EmptyString
  | String c r =>
      match drop_trailing_spaces r with
      | EmptyString => if Ascii.eqb c " " then EmptyString else String c EmptyString
      | r' => String c r'
      end
  end.

Fixpoint all_chars (p : ascii -> bool) (s : string) : bool :=
  match s with
  | EmptyString => true
  | String c r => p c && all_chars p r
  end.

(** The characters of a sanitised name. *)
Definition name_char (c : ascii) : bool :=
  isalnum c || Ascii.eqb c "-" || Ascii.eqb c "_".

(** The font size in the words of the specification: [max(8, height - 2)]
    in base-display units, scaled by the zoom level. *)
Definition font_size_as_specified (h zoom : Q) : Z :=
  py_int (py_max 8 (h - 2) * zoom).

(** The font size of the text item [id] of a canvas. *)
Definition item_font_size (cv : Canvas) (id : nat) : option Z :=
  match List.filter (fun it => Nat.eqb (item_id it) id) (items cv) with
  | [{| item_shape := Text _ _ _ font_size _ |}] => Some font_size
  | _ => None
  end.

(** The positions of the signature infos on a page of an export. *)
Definition info_positions (info : string) (r : SaveResult) (page : nat) : list (Q * Q) :=
  match r with
  | Saved _ pages =>
      match pages !! page with
      | Some cmds =>
          flat_map (fun c => match c with
                             | InsertText point _ _ _ =>
                                 if is_signature_info info c then [point] else []
                             | InsertImage _ _ => []
                             end) cmds
      | None => []
      end
  | _ => []
  end.

Definition close_to (tol a b : Q) : Prop := Qabs (a - b) <= tol.

Definition rect_close_to (tol : Q) (r1 r2 : Q * Q * Q * Q) : Prop :=
  let '(a1, b1, c1, d1) := r1 in
  let '(a2, b2, c2, d2) := r2 in
  close_to tol a1 a2 /\ close_to tol b1 b2 /\ close_to tol c1 c2 /\ close_to tol d1 d2.

(** The rectangle of the first placement on page [page], when that is an
    image. *)
Definition first_image_rect (r : SaveResult) (page : nat) : option (Q * Q * Q * Q) :=
  match r with
  | Saved _ pages =>
      match pages !! page with
      | Some (InsertImage rect _ :: _) => Some rect
      | _ => None
      end
  | _ => None
  end.

(** * Scenarios *)

(** A stand-in for the raster collaborator in the examples: an image is
    its pixel size, a thumbnail is clipped to the box, the encoder writes
    nothing.  No statement below depends on these choices. *)
Record Raster := { raster_width : Z; raster_height : Z }.

Definition clip (size : Z * Z) (r : Raster) : Raster :=
  {| raster_width := Z.min (fst size) (raster_width r);
     raster_height := Z.min (snd size) (raster_height r) |}.

Definition no_bytes (r : Raster) : list Byte.byte := [].

Definition scan : Raster := {| raster_width := 1200; raster_height := 400 |}.

Definition letter : PageRect := {| rect_width := 612; rect_height := 792 |}.

Definition a4_landscape : PageRect := {| rect_width := 842; rect_height := 595 |}.

(** A one-page letter document is open. *)
Definition letter_session : @State Raster :=
  open_pdf [letter] "contract" (initial_state "ALICE").

(** Scenario A: an image signature is added (at its default place). *)
Definition scenario_A : @State Raster := add_image_signature scan letter_session.

(** Scenario B: a text element is added (default height 22). *)
Definition scenario_B : @State Raster := add_text_signature letter_session.

Definition default_text : SignatureElement :=
  {| content := TextContent "Text"; x := 100; y := 200; width := 200;
     height := 12 + 10; page_num := 0%nat; canvas_id := None;
     text_color := "black" |}.

(** A letter page followed by a landscape A4 page; an image signature is
    put on the first page, then the second page is shown. *)
Definition mixed_pages_session : @State Raster :=
  next_page (add_image_signature scan
               (open_pdf [letter; a4_landscape] "contract" (initial_state "ALICE"))).

(** Scenario A, then a click on the image (canvas item 3). *)
Definition scenario_A_selected : @State Raster :=
  on_canvas_click 120 130 3 scenario_A.

(** Scenario B, zoomed in once, then a click on the text (canvas item 7). *)
Definition scenario_B_zoomed_selected : @State Raster :=
  on_canvas_click 130 250 7 (zoom_in scenario_B).

(** Scenario B, zoomed out four times: the zoom level is 0.5. *)
Definition scenario_B_half_zoom : @State Raster :=
  zoom_ops [ZoomOut; ZoomOut; ZoomOut; ZoomOut] scenario_B.

(** ... and the entry opened on the text. *)
Definition scenario_B_half_zoom_editing : @Ui Raster :=
  start_text_editing 0
    {| app := scenario_B_half_zoom; is_editing_text := false; text_entry := None |}.

(** The signature infos of the first and of the second page when the
    mixed document is exported with its second page shown. *)
Definition mixed_pages_info (page : nat) : list (Q * Q) :=
  info_positions ("Signed by ALICE" ++ newline ++ "Jan 05, 2026 10:00:00")
    (snd (save_pdf clip no_bytes "Jan 05, 2026 10:00:00" mixed_pages_session)) page.

(** Scenario B with the zoom level that [zoom_in] computes in binary64,
    [1.0 * 1.2] rounded, then the click on the text (canvas item 7) at
    (130, 250). *)
Definition scenario_B_zoomed_selected_64 : @State Raster :=
  on_canvas_click 130 250 7
    (update_page_display (set_zoom_level (round64 (1.0 * 1.2)) scenario_B)).

(** The x coordinate after three one-pixel moves to the right from 100
    with the anchor at 130 and the zoom level [12 / 10] rounded, in the
    Standard Library's specification of IEEE 754 binary64. *)
Definition three_moves_spec_float : SpecFloat.spec_float :=
  let add := SpecFloat.SFadd 53 1024 in
  let sub := SpecFloat.SFsub 53 1024 in
  let div := SpecFloat.SFdiv 53 1024 in
  let num := fun n : Z => spec_float_of n 0 in
  let zoom := div (num 12%Z) (num 10%Z) in
  let move := fun x (c a : Z) => add x (div (sub (num c) (num a)) zoom) in
  move (move (move (num 100%Z) 131%Z 130%Z) 132%Z 131%Z) 133%Z 132%Z.

(** Scenario A, exported. *)
Definition scenario_A_rect : option (Q * Q * Q * Q) :=
  first_image_rect (snd (save_pdf clip no_bytes "Jan 05, 2026 10:00:00" scenario_A)) 0.

(** Scenario A in the figures of the specification. *)
Definition scenario_A_as_specified (tol : Q) : Prop :=
  exists r, scenario_A_rect = Some r
            /\ rect_close_to tol r (87.42, 87.42, 218.56, 152.56).

(** ** A signing session *)

(** The stand-in for [Image.__eq__]: rasters of the same size. *)
Definition same_raster (a b : Raster) : bool :=
  Z.eqb (raster_width a) (raster_width b)
  && Z.eqb (raster_height a) (raster_height b).

(** A two-page document is opened, an image is put on the first page, a
    text on the second. *)
Definition signing : list (@Event Raster) :=
  [OpenPdf [letter; a4_landscape] "contract"; AddImage scan; NextPage; AddText].

(** ... the entry opens on the text and a name is typed ... *)
Definition signing_typed : list (@Event Raster) :=
  (signing ++ [StartEdit 1%nat; TypeText "  Jane Doe "])%list.

(** ... the name is confirmed and the view is zoomed in. *)
Definition signing_confirmed : list (@Event Raster) :=
  (signing_typed ++ [Confirm 1%nat; Zoom ZoomIn])%list.

Definition desk (evs : list (@Event Raster)) : @Ui Raster :=
  run same_raster clip no_bytes evs (started "ALICE").

(** The image and the text of the session, as [signing] leaves them. *)
Definition scan_element : SignatureElement :=
  {| content := ImageContent 0; x := 100; y := 100; width := 150;
     height := 75; page_num := 0%nat; canvas_id := Some 3%nat;
     text_color := "black" |}.

Definition text_element : SignatureElement :=
  {| content := TextContent "Text"; x := 100; y := 200; width := 200;
     height := 22; page_num := 1%nat; canvas_id := Some 5%nat;
     text_color := "black" |}.

(** The entry after the name was typed. *)
Definition name_entry : Entry :=
  {| entry_text := "  Jane Doe "; entry_font_size := 20; entry_x := 100 * 1.0;
     entry_y := 200 * 1.0; entry_width := 200 * 1.0 |}.

(** The text and its canvas item after [signing_confirmed]. *)
Definition name_element : SignatureElement :=
  {| content := TextContent "Jane Doe"; x := 100; y := 200; width := 200;
     height := 22; page_num := 1%nat; canvas_id := Some 13%nat;
     text_color := "black" |}.


(** * Properties *)

Section Properties.

Context {Image : Type}.
Variable thumbnail : Z * Z -> Image -> Image.
Variable save_png : Image -> list Byte.byte.

Local Abbreviation State := (@State Image).

(** ** Rendering does not touch what is stored *)

Lemma draw_element_stored zoom (imgs : gmap nat Image) e cv :
  stored (fst (draw_element_on_canvas zoom imgs e cv)) = stored e.
Proof.
  unfold draw_element_on_canvas.
  destruct (content e) as [ref|txt] eqn:Hc.
  - destruct (imgs !! ref); reflexivity.
  - reflexivity.
Qed.

Lemma render_signatures_stored zoom (imgs : gmap nat Image) cur els cv :
  List.map stored (fst (render_signatures zoom imgs cur els cv)) = List.map stored els.
Proof.
  revert cv. induction els as [|e rest IH]; intros cv; simpl; [reflexivity|].
  destruct (Nat.eqb (page_num e) cur).
  - pose proof (draw_element_stored zoom imgs e cv) as Hd.
    destruct (draw_element_on_canvas zoom imgs e cv) as [e' cv1]. simpl in Hd.
    specialize (IH cv1).
    destruct (render_signatures zoom imgs cur rest cv1) as [rest' cv2].
    simpl in *. now rewrite Hd, IH.
  - specialize (IH cv).
    destruct (render_signatures zoom imgs cur rest cv) as [rest' cv2].
    simpl in *. now rewrite IH.
Qed.

Lemma update_page_display_kept (s : State) :
  kept (update_page_display s) = kept s.
Proof.
  unfold update_page_display.
  destruct (doc_loaded s); simpl; [|reflexivity].
  destruct (pdf_doc s) as [pages|] eqn:Hd; [|unfold kept; simpl; now rewrite Hd].
  destruct (pages !! current_page s) as [page_rect|];
    [|unfold kept; simpl; now rewrite Hd].
  pose proof (render_signatures_stored (zoom_level s) (images s) (current_page s)
                (signature_elements s)) as Hr.
  simpl.
  match goal with
  | |- context [render_signatures ?z ?i ?c ?l ?cv] =>
      specialize (Hr cv); destruct (render_signatures z i c l cv) as [els cv3]
  end.
  simpl in Hr. unfold kept; simpl. now rewrite Hd, Hr.
Qed.

Lemma kept_doc_loaded (s1 s2 : State) :
  kept s1 = kept s2 -> doc_loaded s1 = doc_loaded s2.
Proof. unfold kept, doc_loaded. intros H. injection H as Hd _ _ _ _ _ _. now rewrite Hd. Qed.

Lemma zoom_op_stored op (s : State) :
  List.map stored (signature_elements (zoom_op op s))
  = List.map stored (signature_elements s).
Proof.
  assert (Hk : forall z, List.map stored
                 (signature_elements (update_page_display (set_zoom_level z s)))
               = List.map stored (signature_elements s)).
  { intros z. pose proof (update_page_display_kept (set_zoom_level z s)) as H.
    unfold kept in H. now injection H. }
  destruct op; simpl; unfold zoom_in, zoom_out, zoom_reset;
    destruct (doc_loaded s); auto.
Qed.

(** C3: whatever sequence of zoom operations runs, every element keeps
    its stored x, y, width and height (and its content, page and colour);
    the list keeps its length and order. *)
Theorem zoom_ops_keep_stored_geometry (ops : list ZoomOp) (s : State) :
  List.map geometry (signature_elements (zoom_ops ops s))
  = List.map geometry (signature_elements s)
  /\ List.map stored (signature_elements (zoom_ops ops s))
     = List.map stored (signature_elements s).
Proof.
  assert (Hs : List.map stored (signature_elements (zoom_ops ops s))
               = List.map stored (signature_elements s)).
  { revert s. induction ops as [|op ops IH]; intros s; [reflexivity|].
    unfold zoom_ops in *. simpl. rewrite IH. apply zoom_op_stored. }
  split; [|exact Hs].
  assert (Hg : forall e, geometry e = snd (fst (fst (stored e)))) by reflexivity.
  rewrite !(map_ext _ _ Hg), <- !(List.map_map stored (fun t => snd (fst (fst t)))).
  now rewrite Hs.
Qed.

(** ** The export reads stored fields and the base scale only *)

Lemma map_cons_eq {A B : Type} (f : A -> B) a b la lb :
  List.map f (a :: la) = List.map f (b :: lb) ->
  f a = f b /\ List.map f la = List.map f lb.
Proof.
  simpl. intros H. split.
  - exact (f_equal (hd (f a)) H).
  - exact (f_equal (@tl B) H).
Qed.

Lemma export_element_stored bs e1 e2 (imgs : gmap nat Image) :
  stored e1 = stored e2 ->
  export_element thumbnail save_png bs e1 imgs
  = export_element thumbnail save_png bs e2 imgs.
Proof.
  unfold stored, geometry, export_element. intros H.
  injection H as Hc Hx Hy Hw Hh _ Ht. now rewrite Hc, Hx, Hy, Hw, Hh, Ht.
Qed.

Lemma export_elements_stored bs l1 l2 (imgs : gmap nat Image) :
  List.map stored l1 = List.map stored l2 ->
  export_elements thumbnail save_png bs l1 imgs
  = export_elements thumbnail save_png bs l2 imgs.
Proof.
  revert l2 imgs. induction l1 as [|e1 l1 IH]; intros [|e2 l2] imgs H;
    try discriminate; [reflexivity|].
  apply map_cons_eq in H as [He Hl]. simpl.
  rewrite (export_element_stored bs e1 e2 imgs He).
  destruct (export_element thumbnail save_png bs e2 imgs) as [imgs1 [p|]];
    [|reflexivity].
  now rewrite (IH l2 imgs1 Hl).
Qed.

Lemma filter_stored (f : SignatureElement -> bool) l1 l2 :
  (forall a b, stored a = stored b -> f a = f b) ->
  List.map stored l1 = List.map stored l2 ->
  List.map stored (List.filter f l1) = List.map stored (List.filter f l2).
Proof.
  intros Hf. revert l2. induction l1 as [|e1 l1 IH]; intros [|e2 l2] H;
    try discriminate; [reflexivity|].
  apply map_cons_eq in H as [He Hl]. simpl. rewrite (Hf e1 e2 He).
  destruct (f e2); simpl; [rewrite He; f_equal|]; now apply IH.
Qed.

Lemma on_page_stored page a b :
  stored a = stored b -> Nat.eqb (page_num a) page = Nat.eqb (page_num b) page.
Proof. unfold stored. intros H. injection H as _ _ _ _ _ Hp _. now rewrite Hp. Qed.

Lemma is_image_stored a b : stored a = stored b -> is_image a = is_image b.
Proof.
  unfold stored, is_image, element_type. intros H.
  injection H as Hc _ _ _ _ _ _. now rewrite Hc.
Qed.

Lemma page_elements_stored page l1 l2 :
  List.map stored l1 = List.map stored l2 ->
  List.map stored (page_elements page l1) = List.map stored (page_elements page l2).
Proof. apply filter_stored, on_page_stored. Qed.

Lemma export_pages_stored bs l1 l2 pages (imgs : gmap nat Image) :
  List.map stored l1 = List.map stored l2 ->
  export_pages thumbnail save_png bs l1 pages imgs
  = export_pages thumbnail save_png bs l2 pages imgs.
Proof.
  intros H. revert imgs. induction pages as [|p pages IH]; intros imgs;
    simpl; [reflexivity|].
  rewrite (export_elements_stored bs _ _ imgs (page_elements_stored p l1 l2 H)).
  destruct (export_elements thumbnail save_png bs (page_elements p l2) imgs)
    as [imgs1 [placed|]]; [|reflexivity].
  now rewrite IH.
Qed.

Lemma existsb_stored (f : SignatureElement -> bool) l1 l2 :
  (forall a b, stored a = stored b -> f a = f b) ->
  List.map stored l1 = List.map stored l2 -> existsb f l1 = existsb f l2.
Proof.
  intros Hf. revert l2. induction l1 as [|e1 l1 IH]; intros [|e2 l2] H;
    try discriminate; [reflexivity|].
  apply map_cons_eq in H as [He Hl]. simpl. now rewrite (Hf e1 e2 He), (IH l2 Hl).
Qed.

Lemma signature_info_stored bs info page l1 l2 :
  List.map stored l1 = List.map stored l2 ->
  signature_info bs info page l1 = signature_info bs info page l2.
Proof.
  intros H. unfold signature_info.
  pose proof (page_elements_stored page l1 l2 H) as Hp.
  rewrite (existsb_stored is_image _ _ is_image_stored Hp).
  pose proof (filter_stored is_image _ _ is_image_stored Hp) as Hi.
  destruct (List.filter is_image (page_elements page l1)) as [|a la],
           (List.filter is_image (page_elements page l2)) as [|b lb];
    try discriminate; [reflexivity|].
  apply map_cons_eq in Hi as [Hab _]. unfold stored, geometry in Hab.
  injection Hab as _ Hx Hy _ _ _ _. now rewrite Hx, Hy.
Qed.

Lemma save_pdf_reads_export_input now (s1 s2 : State) :
  export_input s1 = export_input s2 ->
  snd (save_pdf thumbnail save_png now s1) = snd (save_pdf thumbnail save_png now s2).
Proof.
  unfold export_input. intros H. injection H as Hd Hf Hn Hi Hb Hs.
  assert (Hl : doc_loaded s1 = doc_loaded s2) by (unfold doc_loaded; now rewrite Hd).
  assert (Hc : page_count s1 = page_count s2) by (unfold page_count; now rewrite Hd).
  unfold save_pdf. rewrite Hl, Hc, Hb, Hi, Hf, Hn.
  destruct (doc_loaded s2); cbn [negb]; [|reflexivity].
  destruct (signature_elements s1) as [|a la] eqn:E1,
           (signature_elements s2) as [|b lb] eqn:E2;
    try discriminate; [reflexivity|].
  rewrite (export_pages_stored (base_scale_factor s2) _ _
             (seq 0 (page_count s2)) (images s2) Hs).
  destruct (export_pages thumbnail save_png (base_scale_factor s2) (b :: lb)
              (seq 0 (page_count s2)) (images s2)) as [imgs [placed|]];
    [|reflexivity].
  cbn [snd]. f_equal. apply imap_ext. intros i cmds _.
  f_equal. now apply signature_info_stored.
Qed.

Lemma update_page_display_base_scale (s : State) :
  base_scale_factor (update_page_display s) = refreshed_base_scale s.
Proof.
  unfold update_page_display, refreshed_base_scale.
  destruct (doc_loaded s); simpl; [|reflexivity].
  destruct (pdf_doc s) as [pages|]; [|reflexivity].
  destruct (pages !! current_page s) as [page_rect|]; [|reflexivity].
  simpl.
  match goal with
  | |- context [render_signatures ?z ?i ?c ?l ?cv] =>
      destruct (render_signatures z i c l cv) as [els cv3]
  end.
  reflexivity.
Qed.

Lemma update_page_display_export_input (s : State) :
  export_input (update_page_display s)
  = (pdf_doc s, pdf_file_name s, signature_name s, images s,
     refreshed_base_scale s, List.map stored (signature_elements s)).
Proof.
  unfold export_input. rewrite update_page_display_base_scale.
  pose proof (update_page_display_kept s) as H. unfold kept in H.
  injection H as -> -> _ _ -> -> ->. reflexivity.
Qed.

(** C1: the session shown at zoom level [z1] and the same session shown
    at zoom level [z2] export the same result: the same placements (image
    rectangles, text insertion points, font sizes, signature info) on the
    same pages, under the same file name.  No bound on the zoom levels is
    needed. *)
Theorem export_zoom_independent (now : string) (s : State) (z1 z2 : Q) :
  snd (save_pdf thumbnail save_png now (update_page_display (set_zoom_level z1 s)))
  = snd (save_pdf thumbnail save_png now (update_page_display (set_zoom_level z2 s))).
Proof.
  apply save_pdf_reads_export_input.
  now rewrite !update_page_display_export_input.
Qed.

(** The same through the zoom operations themselves: once the page has
    been displayed, no sequence of zoom operations changes what an export
    produces. *)
Lemma refreshed_base_scale_update (s : State) :
  refreshed_base_scale (update_page_display s) = refreshed_base_scale s.
Proof.
  pose proof (update_page_display_kept s) as Hk.
  pose proof (kept_doc_loaded _ _ Hk) as Hl.
  unfold kept in Hk. injection Hk as Hd _ Hc _ _ _ _.
  unfold refreshed_base_scale at 1.
  rewrite Hl, Hd, Hc, update_page_display_base_scale.
  unfold refreshed_base_scale.
  destruct (doc_loaded s); [|reflexivity].
  destruct (pdf_doc s) as [pages|]; [|reflexivity].
  now destruct (pages !! current_page s).
Qed.

Lemma zoom_op_export_input op (s : State) :
  base_scale_factor s = refreshed_base_scale s ->
  export_input (zoom_op op s) = export_input s
  /\ base_scale_factor (zoom_op op s) = refreshed_base_scale (zoom_op op s).
Proof.
  intros Hs.
  assert (H : forall z,
             export_input (update_page_display (set_zoom_level z s)) = export_input s
             /\ base_scale_factor (update_page_display (set_zoom_level z s))
                = refreshed_base_scale (update_page_display (set_zoom_level z s))).
  { intros z. split.
    - rewrite update_page_display_export_input. unfold export_input.
      now rewrite Hs.
    - now rewrite refreshed_base_scale_update, update_page_display_base_scale. }
  destruct op; simpl; unfold zoom_in, zoom_out, zoom_reset;
    destruct (doc_loaded s); auto.
Qed.

Lemma export_after_zoom_ops (now : string) (ops : list ZoomOp) (s : State) :
  snd (save_pdf thumbnail save_png now (zoom_ops ops (update_page_display s)))
  = snd (save_pdf thumbnail save_png now (update_page_display s)).
Proof.
  apply save_pdf_reads_export_input.
  assert (Hd : base_scale_factor (update_page_display s)
               = refreshed_base_scale (update_page_display s))
    by now rewrite refreshed_base_scale_update, update_page_display_base_scale.
  revert Hd. generalize (update_page_display s) as t.
  induction ops as [|op ops IH]; intros t Ht; [reflexivity|].
  destruct (zoom_op_export_input op t Ht) as [He Hr].
  unfold zoom_ops in *. simpl. now rewrite (IH _ Hr).
Qed.

(** ** The export leaves the session as it was *)

Lemma export_element_heap bs e (imgs : gmap nat Image) :
  imgs ⊆ fst (export_element thumbnail save_png bs e imgs).
Proof.
  unfold export_element.
  destruct (content e) as [ref|txt]; [|reflexivity].
  destruct (imgs !! ref) as [img|]; [|reflexivity].
  cbn [fst]. rewrite alter_insert_eq.
  apply insert_subseteq, not_elem_of_dom, is_fresh.
Qed.

Lemma export_elements_heap bs els (imgs : gmap nat Image) :
  imgs ⊆ fst (export_elements thumbnail save_png bs els imgs).
Proof.
  revert imgs. induction els as [|e rest IH]; intros imgs; simpl; [reflexivity|].
  pose proof (export_element_heap bs e imgs) as He.
  destruct (export_element thumbnail save_png bs e imgs) as [imgs1 [p|]];
    cbn [fst] in He; [|exact He].
  specialize (IH imgs1).
  destruct (export_elements thumbnail save_png bs rest imgs1) as [imgs2 r].
  cbn [fst] in *. now transitivity imgs1.
Qed.

Lemma export_pages_heap bs els pages (imgs : gmap nat Image) :
  imgs ⊆ fst (export_pages thumbnail save_png bs els pages imgs).
Proof.
  revert imgs. induction pages as [|p rest IH]; intros imgs; simpl; [reflexivity|].
  pose proof (export_elements_heap bs (page_elements p els) imgs) as He.
  destruct (export_elements thumbnail save_png bs (page_elements p els) imgs)
    as [imgs1 [placed|]]; cbn [fst] in He; [|exact He].
  specialize (IH imgs1).
  destruct (export_pages thumbnail save_png bs els rest imgs1) as [imgs2 r].
  cbn [fst] in *. now transitivity imgs1.
Qed.

Lemma set_images_same (s : State) : set_images (images s) s = s.
Proof. now destruct s. Qed.

(** C10: whatever its outcome, [save_pdf] returns the session with the
    element list as it was (same elements, same order, same fields), every
    other attribute unchanged, and every image object that existed before
    still there with the same contents; it only allocates copies. *)
Theorem save_pdf_leaves_model_intact (now : string) (s : State) :
  signature_elements (fst (save_pdf thumbnail save_png now s)) = signature_elements s
  /\ fst (save_pdf thumbnail save_png now s)
     = set_images (images (fst (save_pdf thumbnail save_png now s))) s
  /\ images s ⊆ images (fst (save_pdf thumbnail save_png now s)).
Proof.
  unfold save_pdf.
  destruct (doc_loaded s); cbn [negb fst];
    [|now rewrite set_images_same].
  destruct (signature_elements s) as [|e els] eqn:Hels;
    [cbn [fst]; now rewrite set_images_same, Hels|].
  rewrite <- Hels.
  pose proof (export_pages_heap (base_scale_factor s) (signature_elements s)
                (seq 0 (page_count s)) (images s)) as Hh.
  destruct (export_pages thumbnail save_png (base_scale_factor s)
              (signature_elements s) (seq 0 (page_count s)) (images s))
    as [imgs [placed|]]; cbn [fst] in *; auto.
Qed.

(** ** The signature info *)

Lemma over_base_scale_usable bs v r :
  over_base_scale bs v = Some r -> usable bs.
Proof.
  unfold over_base_scale, usable. destruct bs as [b|]; [|discriminate].
  destruct (Qeq_bool b 0) eqn:Hb; [discriminate|]. intros _. now exists b.
Qed.

Lemma over_base_scale_value b v :
  Qeq_bool b 0 = false -> over_base_scale (Some b) v = Some (v / b).
Proof. unfold over_base_scale. now intros ->. Qed.

Lemma py_max_lower a b : a <= py_max a b.
Proof.
  unfold py_max, Qltb. destruct (Qle_bool b a) eqn:H; simpl; [lra|].
  destruct (Qlt_le_dec a b) as [Hlt|Hle]; [lra|].
  apply Qle_bool_iff in Hle. congruence.
Qed.

Lemma element_text_is_not_info info pt txt h col :
  is_signature_info info (InsertText pt txt (py_max 8 h) col) = false.
Proof.
  unfold is_signature_info. apply andb_false_iff. right.
  destruct (Qeq_bool (py_max 8 h) 6) eqn:H; [|reflexivity].
  apply Qeq_bool_iff in H. pose proof (py_max_lower 8 h). lra.
Qed.

Lemma export_element_ok info bs e (imgs imgs1 : gmap nat Image) p :
  export_element thumbnail save_png bs e imgs = (imgs1, Some p) ->
  usable bs /\ is_signature_info info p = false.
Proof.
  unfold export_element.
  destruct (content e) as [ref|txt].
  - destruct (imgs !! ref) as [img|]; [|discriminate].
    intros H. injection H as _ H.
    destruct (alter _ _ _ !! _) as [img_copy|]; [|discriminate].
    cbn in H.
    destruct (over_base_scale bs (x e)) as [x0|] eqn:Hx; [|discriminate].
    apply over_base_scale_usable in Hx. split; [exact Hx|].
    destruct (over_base_scale bs (y e)); [|discriminate].
    destruct (over_base_scale bs (x e + width e)); [|discriminate].
    destruct (over_base_scale bs (y e + height e)); [|discriminate].
    cbn in H. now injection H as <-.
  - intros H. injection H as _ H.
    destruct (over_base_scale bs (x e)) as [x0|] eqn:Hx; [|discriminate].
    apply over_base_scale_usable in Hx. split; [exact Hx|].
    destruct (over_base_scale bs (y e + height e)); [|discriminate].
    destruct (over_base_scale bs (height e)); [|discriminate].
    cbn in H. injection H as <-. apply element_text_is_not_info.
Qed.

Lemma export_elements_ok info bs els (imgs imgs1 : gmap nat Image) cmds :
  export_elements thumbnail save_png bs els imgs = (imgs1, Some cmds) ->
  Forall (fun c => is_signature_info info c = false) cmds
  /\ (els <> [] -> usable bs).
Proof.
  revert imgs imgs1 cmds. induction els as [|e rest IH]; intros imgs imgs1 cmds; simpl.
  - intros H. injection H as _ <-. split; [constructor|congruence].
  - destruct (export_element thumbnail save_png bs e imgs) as [imgs2 [p|]] eqn:He;
      [|discriminate].
    apply (export_element_ok info) in He as [Hu Hp].
    destruct (export_elements thumbnail save_png bs rest imgs2) as [imgs3 [r|]] eqn:Hr;
      [|discriminate].
    intros H. cbn in H. injection H as _ <-.
    apply IH in Hr as [Hf _]. split; [now constructor|auto].
Qed.

Lemma export_pages_ok info bs els pl (imgs imgs1 : gmap nat Image) placed :
  export_pages thumbnail save_png bs els pl imgs = (imgs1, Some placed) ->
  forall i page cmds, pl !! i = Some page -> placed !! i = Some cmds ->
    Forall (fun c => is_signature_info info c = false) cmds
    /\ (page_elements page els <> [] -> usable bs).
Proof.
  revert imgs imgs1 placed. induction pl as [|q rest IH]; intros imgs imgs1 placed; simpl.
  - intros _ i page cmds H. discriminate.
  - destruct (export_elements thumbnail save_png bs (page_elements q els) imgs)
      as [imgs2 [c0|]] eqn:He; [|discriminate].
    destruct (export_pages thumbnail save_png bs els rest imgs2) as [imgs3 [r|]] eqn:Hr;
      [|discriminate].
    intros H. cbn in H. injection H as _ <-.
    intros [|i] page cmds Hp Hc; simpl in Hp, Hc.
    + injection Hp as <-. injection Hc as <-.
      now apply (export_elements_ok info) in He.
    + exact (IH _ _ _ Hr i page cmds Hp Hc).
Qed.

Lemma export_pages_length bs els pl (imgs imgs1 : gmap nat Image) placed :
  export_pages thumbnail save_png bs els pl imgs = (imgs1, Some placed) ->
  length placed = length pl.
Proof.
  revert imgs imgs1 placed. induction pl as [|q rest IH]; intros imgs imgs1 placed; simpl.
  - intros H. now injection H as _ <-.
  - destruct (export_elements thumbnail save_png bs (page_elements q els) imgs)
      as [imgs2 [c0|]]; [|discriminate].
    destruct (export_pages thumbnail save_png bs els rest imgs2) as [imgs3 [r|]] eqn:Hr;
      [|discriminate].
    intros H. cbn in H. injection H as _ <-. simpl. f_equal. eauto.
Qed.

Lemma filter_none {A : Type} (f : A -> bool) l :
  Forall (fun c => f c = false) l -> List.filter f l = [].
Proof. induction 1 as [|c l Hc _ IH]; simpl; [reflexivity|]. now rewrite Hc. Qed.

Lemma existsb_as_filter {A : Type} (f : A -> bool) l :
  existsb f l = match List.filter f l with [] => false | _ :: _ => true end.
Proof.
  induction l as [|a l IH]; simpl; [reflexivity|].
  destruct (f a); simpl; [reflexivity|exact IH].
Qed.

(** In a completed export the page list has one entry per page of the
    document, and on every page the signature info occurs exactly once
    when the page has an image element, at the stored top-left corner of
    the first of them divided by the base scale the session holds (that
    of the page shown), and not at all when the page has no image
    element (only text elements, or none). *)
Theorem signature_info_once_per_image_page (now : string) (s s' : State)
    (out : string) (pages : list (list Placement)) :
  save_pdf thumbnail save_png now s = (s', Saved out pages) ->
  length pages = page_count s
  /\ forall page cmds, pages !! page = Some cmds ->
       let info := "Signed by " ++ signature_name s ++ newline ++ now in
       match List.filter is_image (page_elements page (signature_elements s)) with
       | [] => List.filter (is_signature_info info) cmds = []
       | e :: _ =>
           exists b, base_scale_factor s = Some b /\ ~ b == 0
             /\ List.filter (is_signature_info info) cmds
                = [InsertText (x e / b, y e / b) info 6 (0.4, 0.4, 0.4)]
       end.
Proof.
  intros H.
  assert (exists imgs placed,
            export_pages thumbnail save_png (base_scale_factor s)
              (signature_elements s) (seq 0 (page_count s)) (images s)
            = (imgs, Some placed)
            /\ pages = imap (fun p cmds =>
                 (cmds ++ signature_info (base_scale_factor s)
                            ("Signed by " ++ signature_name s ++ newline ++ now)
                            p (signature_elements s))%list) placed)
    as (imgs & placed & Hx & ->).
  { unfold save_pdf in H.
    destruct (doc_loaded s); cbn [negb] in H; [|discriminate].
    destruct (signature_elements s) as [|e0 els0] eqn:Hels; [discriminate|].
    destruct (export_pages thumbnail save_png (base_scale_factor s)
                (e0 :: els0) (seq 0 (page_count s)) (images s))
      as [imgs [placed|]] eqn:Hx; [|discriminate].
    injection H as _ _ <-. now exists imgs, placed. }
  split.
  { rewrite length_imap, (export_pages_length _ _ _ _ _ _ Hx). apply length_seq. }
  intros page cmds Hp info.
  rewrite list_lookup_imap in Hp.
  destruct (placed !! page) as [c0|] eqn:Hc0; [|discriminate].
  cbn in Hp. injection Hp as <-.
  assert (Hlt : (page < page_count s)%nat).
  { apply lookup_lt_Some in Hc0.
    now rewrite (export_pages_length _ _ _ _ _ _ Hx), length_seq in Hc0. }
  assert (Hseq : seq 0 (page_count s) !! page = Some page)
    by (now apply lookup_seq_lt).
  destruct (export_pages_ok info _ _ _ _ _ _ Hx page page c0 Hseq Hc0) as [Hno Hu].
  rewrite List.filter_app, (filter_none _ _ Hno). cbn [app].
  unfold signature_info. rewrite existsb_as_filter.
  destruct (List.filter is_image (page_elements page (signature_elements s)))
    as [|e rest] eqn:Hf; [reflexivity|].
  destruct Hu as (b & Hb & Hb0).
  { intros Hnil. rewrite Hnil in Hf. discriminate. }
  exists b. split; [exact Hb|]. split.
  { intros Hz. apply Qeq_bool_iff in Hz. congruence. }
  rewrite Hb, !over_base_scale_value by exact Hb0.
  cbn [List.filter is_signature_info]. now rewrite String.eqb_refl.
Qed.

(** ** Python arithmetic *)

Lemma py_max_cases a b :
  (py_max a b = b /\ a < b) \/ (py_max a b = a /\ b <= a).
Proof.
  unfold py_max, Qltb. destruct (Qle_bool b a) eqn:H; simpl.
  - right. split; [reflexivity|now apply Qle_bool_iff].
  - left. split; [reflexivity|].
    destruct (Qlt_le_dec a b) as [Hlt|Hle]; [exact Hlt|].
    apply Qle_bool_iff in Hle. congruence.
Qed.

Lemma py_min_cases a b :
  (py_min a b = b /\ b < a) \/ (py_min a b = a /\ a <= b).
Proof.
  unfold py_min, Qltb. destruct (Qle_bool a b) eqn:H; simpl.
  - right. split; [reflexivity|now apply Qle_bool_iff].
  - left. split; [reflexivity|].
    destruct (Qlt_le_dec b a) as [Hlt|Hle]; [exact Hlt|].
    apply Qle_bool_iff in Hle. congruence.
Qed.

Lemma py_int_compat a b : a == b -> py_int a = py_int b.
Proof.
  unfold py_int, Qeq. destruct a as [n1 d1], b as [n2 d2]. simpl. intros H.
  rewrite <- (Z.quot_mul_cancel_r n1 (Zpos d1) (Zpos d2)) by discriminate.
  rewrite <- (Z.quot_mul_cancel_r n2 (Zpos d2) (Zpos d1)) by discriminate.
  now rewrite H, (Z.mul_comm (Zpos d2) (Zpos d1)).
Qed.

(** ** Drag *)

Lemma on_canvas_drag_step (cx cy : Q) (s : State) i e :
  selected_element s = Some i ->
  signature_elements s !! i = Some e ->
  selected_element (on_canvas_drag cx cy s) = Some i
  /\ zoom_level (on_canvas_drag cx cy s) = zoom_level s
  /\ drag_data (on_canvas_drag cx cy s) = (cx, cy)
  /\ signature_elements (on_canvas_drag cx cy s)
     = <[i := set_position (x e + (cx - fst (drag_data s)) / zoom_level s)
                (y e + (cy - snd (drag_data s)) / zoom_level s) e]>
         (signature_elements s).
Proof.
  intros Hsel Hi. unfold on_canvas_drag. rewrite Hsel, Hi. simpl. auto.
Qed.

Lemma last_cons {A : Type} (a d : A) l : List.last (a :: l) d = List.last l a.
Proof.
  revert a d. induction l as [|b l IH]; intros a d; [reflexivity|].
  change (List.last (a :: b :: l) d) with (List.last (b :: l) d).
  now rewrite !IH.
Qed.

(** In exact arithmetic: while an element is selected and the zoom level
    [z] lies in [0.5, 3.0], a drag that takes the pointer from the anchor
    through [path] moves the stored position by the pointer displacement
    divided by [z] (in both coordinates), leaves size, content and page
    of the element and every other element as they were, keeps the
    selection and leaves the anchor at the last pointer position.  With
    a one-point path this is the single incremental step of the handler.
    The binary64 arithmetic of the code rounds every step: see the part
    on the drag in binary64. *)
Theorem drag_moves_by_delta_over_zoom (path : list (Q * Q)) (s : State) i e :
  selected_element s = Some i ->
  signature_elements s !! i = Some e ->
  0.5 <= zoom_level s /\ zoom_level s <= 3.0 ->
  exists e',
    signature_elements (drag_through path s) !! i = Some e'
    /\ x e' == x e + (fst (List.last path (drag_data s)) - fst (drag_data s)) / zoom_level s
    /\ y e' == y e + (snd (List.last path (drag_data s)) - snd (drag_data s)) / zoom_level s
    /\ (width e', height e', content e', page_num e', text_color e')
       = (width e, height e, content e, page_num e, text_color e)
    /\ drag_data (drag_through path s) = List.last path (drag_data s)
    /\ selected_element (drag_through path s) = Some i
    /\ forall j, j <> i ->
         signature_elements (drag_through path s) !! j = signature_elements s !! j.
Proof.
  intros Hsel Hi [Hz _].
  assert (Hz0 : ~ zoom_level s == 0) by lra. clear Hz.
  revert s e Hsel Hi Hz0. induction path as [|[cx cy] path IH]; intros s e Hsel Hi Hz0.
  - exists e. simpl. repeat split; auto; field; exact Hz0.
  - destruct (on_canvas_drag_step cx cy s i e Hsel Hi) as (Hsel1 & Hzoom & Hdrag & Hels).
    assert (Hlt : (i < length (signature_elements s))%nat)
      by (now apply lookup_lt_Some in Hi).
    set (s1 := on_canvas_drag cx cy s) in *.
    set (e1 := set_position (x e + (cx - fst (drag_data s)) / zoom_level s)
                 (y e + (cy - snd (drag_data s)) / zoom_level s) e) in *.
    assert (Hi1 : signature_elements s1 !! i = Some e1)
      by (rewrite Hels; now apply list_lookup_insert_eq).
    assert (Hz1 : ~ zoom_level s1 == 0) by now rewrite Hzoom.
    destruct (IH s1 e1 Hsel1 Hi1 Hz1) as (e' & He' & Hx & Hy & Hrest & Hd & Hs & Hothers).
    change (drag_through ((cx, cy) :: path) s) with (drag_through path s1).
    rewrite last_cons. rewrite Hdrag, Hzoom in *.
    exists e'. repeat split; auto.
    + rewrite Hx. subst e1. simpl. field. exact Hz0.
    + rewrite Hy. subst e1. simpl. field. exact Hz0.
    + intros j Hj. rewrite (Hothers j Hj), Hels.
      apply list_lookup_insert_ne. congruence.
Qed.

(** ** Resize *)

Lemma rescale_bounds lo hi sf v : lo <= hi -> lo <= rescale lo hi sf v <= hi.
Proof.
  intros Hlh. unfold rescale.
  destruct (py_max_cases lo (v * sf)) as [[-> H1]|[-> H1]];
    destruct (py_min_cases hi (v * sf)) as [[E2 H2]|[E2 H2]];
    destruct (py_min_cases hi lo) as [[E3 H3]|[E3 H3]];
    rewrite ?E2, ?E3; lra.
Qed.

Lemma rescale_lower lo hi sf v :
  hi <= rescale lo hi sf v \/ v * sf <= rescale lo hi sf v.
Proof.
  unfold rescale.
  destruct (py_max_cases lo (v * sf)) as [[-> H1]|[-> H1]];
    destruct (py_min_cases hi (v * sf)) as [[E2 H2]|[E2 H2]];
    destruct (py_min_cases hi lo) as [[E3 H3]|[E3 H3]];
    rewrite ?E2, ?E3; lra.
Qed.

Lemma rescale_upper lo hi sf v :
  lo <= hi -> rescale lo hi sf v <= lo \/ rescale lo hi sf v <= v * sf.
Proof.
  intros Hlh. unfold rescale.
  destruct (py_max_cases lo (v * sf)) as [[-> H1]|[-> H1]];
    destruct (py_min_cases hi (v * sf)) as [[E2 H2]|[E2 H2]];
    destruct (py_min_cases hi lo) as [[E3 H3]|[E3 H3]];
    rewrite ?E2, ?E3; lra.
Qed.

Lemma iter_rescale_bounds lo hi sf v n :
  lo <= hi -> lo <= v <= hi -> lo <= Nat.iter n (rescale lo hi sf) v <= hi.
Proof.
  intros Hlh Hv. destruct n as [|n]; [exact Hv|]. simpl. now apply rescale_bounds.
Qed.

Lemma qpow_pos q n : 0 < q -> 0 < qpow q n.
Proof. intros Hq. induction n as [|n IH]; simpl; [lra|nra]. Qed.

Lemma qpow_grows q n m : 1 <= q -> (n <= m)%nat -> qpow q n <= qpow q m.
Proof.
  intros Hq Hnm. induction Hnm as [|m _ IH]; [lra|].
  simpl. pose proof (qpow_pos q m). nra.
Qed.

Lemma qpow_shrinks q n m : 0 < q <= 1 -> (n <= m)%nat -> qpow q m <= qpow q n.
Proof.
  intros [Hq0 Hq1] Hnm. induction Hnm as [|m _ IH]; [lra|].
  simpl. pose proof (qpow_pos q m Hq0). nra.
Qed.

(** Repeated enlarging passes [lo * sf^n] until it sits at [hi]. *)
Lemma iter_rescale_grows lo hi sf v n :
  0 < lo -> lo <= hi -> 1 <= sf -> lo <= v <= hi ->
  hi <= Nat.iter n (rescale lo hi sf) v
  \/ lo * qpow sf n <= Nat.iter n (rescale lo hi sf) v.
Proof.
  intros Hlo Hlh Hsf Hv. induction n as [|n IH]; [right; simpl; lra|].
  pose proof (iter_rescale_bounds lo hi sf v n Hlh Hv) as Hb.
  simpl. set (u := Nat.iter n (rescale lo hi sf) v) in *.
  pose proof (qpow_pos sf n).
  destruct (rescale_lower lo hi sf u) as [H1|H1]; [now left|].
  destruct IH as [IH|IH]; [left; nra|right; nra].
Qed.

(** Repeated shrinking falls below [hi * sf^n] until it sits at [lo]. *)
Lemma iter_rescale_shrinks lo hi sf v n :
  0 < lo -> lo <= hi -> 0 < sf <= 1 -> lo <= v <= hi ->
  Nat.iter n (rescale lo hi sf) v <= lo
  \/ Nat.iter n (rescale lo hi sf) v <= hi * qpow sf n.
Proof.
  intros Hlo Hlh Hsf Hv. induction n as [|n IH]; [right; simpl; lra|].
  pose proof (iter_rescale_bounds lo hi sf v n Hlh Hv) as Hb.
  simpl. set (u := Nat.iter n (rescale lo hi sf) v) in *.
  pose proof (qpow_pos sf n).
  destruct (rescale_upper lo hi sf u Hlh) as [H1|H1]; [now left|].
  destruct IH as [IH|IH]; [left; nra|right; nra].
Qed.

Lemma enlarge_reaches_limit lo hi v n k :
  0 < lo -> lo <= hi -> lo <= v <= hi ->
  hi <= lo * qpow 1.1 k -> (k <= n)%nat ->
  Nat.iter n (rescale lo hi 1.1) v == hi.
Proof.
  intros Hlo Hlh Hv Hk Hn.
  pose proof (iter_rescale_bounds lo hi 1.1 v n Hlh Hv) as Hb.
  assert (H11 : 1 <= 1.1) by lra.
  pose proof (qpow_grows 1.1 k n H11 Hn).
  destruct (iter_rescale_grows lo hi 1.1 v n Hlo Hlh H11 Hv); nra.
Qed.

Lemma shrink_reaches_limit lo hi v n k :
  0 < lo -> lo <= hi -> lo <= v <= hi ->
  hi * qpow 0.9 k <= lo -> (k <= n)%nat ->
  Nat.iter n (rescale lo hi 0.9) v == lo.
Proof.
  intros Hlo Hlh Hv Hk Hn.
  pose proof (iter_rescale_bounds lo hi 0.9 v n Hlh Hv) as Hb.
  assert (H09 : 0 < 0.9 <= 1) by lra.
  pose proof (qpow_shrinks 0.9 k n H09 Hn).
  destruct (iter_rescale_shrinks lo hi 0.9 v n Hlo Hlh H09 Hv); nra.
Qed.

Lemma on_ctrl_scroll_step (delta : Z) (s : State) i e :
  selected_element s = Some i ->
  signature_elements s !! i = Some e ->
  exists e1,
    selected_element (on_ctrl_scroll delta s) = Some i
    /\ signature_elements (on_ctrl_scroll delta s) !! i = Some e1
    /\ stored e1 = stored (set_size (rescale 20 500 (scroll_factor delta) (width e))
                             (rescale 10 300 (scroll_factor delta) (height e)) e)
    /\ forall j, j <> i ->
         signature_elements (on_ctrl_scroll delta s) !! j = signature_elements s !! j.
Proof.
  intros Hsel Hi. unfold on_ctrl_scroll. rewrite Hsel, Hi.
  fold (scroll_factor delta).
  fold (rescale 20 500 (scroll_factor delta) (width e)).
  fold (rescale 10 300 (scroll_factor delta) (height e)).
  match goal with
  | |- context [draw_element_on_canvas ?z ?im ?el ?cv] =>
      pose proof (draw_element_stored z im el cv) as Hd;
      destruct (draw_element_on_canvas z im el cv) as [e2 cv2]
  end.
  cbn [fst] in Hd. exists e2. cbn.
  assert (Hlt : (i < length (signature_elements s))%nat)
    by (now apply lookup_lt_Some in Hi).
  repeat split; auto.
  - now apply list_lookup_insert_eq.
  - intros j Hj. apply list_lookup_insert_ne. congruence.
Qed.

Lemma iter_on_ctrl_scroll (delta : Z) (n : nat) (s : State) i e :
  selected_element s = Some i ->
  signature_elements s !! i = Some e ->
  exists en,
    selected_element (Nat.iter n (on_ctrl_scroll delta) s) = Some i
    /\ signature_elements (Nat.iter n (on_ctrl_scroll delta) s) !! i = Some en
    /\ x en = x e /\ y en = y e
    /\ width en = Nat.iter n (rescale 20 500 (scroll_factor delta)) (width e)
    /\ height en = Nat.iter n (rescale 10 300 (scroll_factor delta)) (height e).
Proof.
  intros Hsel Hi. induction n as [|n IH].
  - exists e. simpl. repeat split; auto.
  - destruct IH as (en & Hs & Hl & Hx & Hy & Hw & Hh).
    destruct (on_ctrl_scroll_step delta _ i en Hs Hl) as (e1 & Hs1 & Hl1 & Hst & _).
    exists e1. simpl. unfold stored, geometry in Hst. simpl in Hst.
    injection Hst as _ Hx1 Hy1 Hw1 Hh1 _ _.
    repeat split; auto; congruence.
Qed.

Lemma enlarge_36_steps :
  500 <= 20 * qpow 1.1 36 /\ 300 <= 10 * qpow 1.1 36.
Proof. split; vm_compute; discriminate. Qed.

Lemma shrink_33_steps :
  500 * qpow 0.9 33 <= 20 /\ 300 * qpow 0.9 33 <= 10.
Proof. split; vm_compute; discriminate. Qed.

(** C7, with the shrink factor the handler uses (0.9): one ctrl+scroll
    step on the selected element multiplies width and height by 1.1
    (wheel delta positive) or by 0.9 (otherwise) and clamps the width to
    [20, 500] and the height to [10, 300]; the position is not changed.
    From an in-range size, any number of steps stays in range; 36 or more
    enlarging steps leave the size at 500 x 300, 33 or more shrinking
    steps leave it at 20 x 10. *)
Theorem ctrl_scroll_resize_policy (delta : Z) (n : nat) (s : State) i e :
  selected_element s = Some i ->
  signature_elements s !! i = Some e ->
  20 <= width e /\ width e <= 500 ->
  10 <= height e /\ height e <= 300 ->
  (exists e1,
     signature_elements (on_ctrl_scroll delta s) !! i = Some e1
     /\ width e1
        = py_min 500 (py_max 20 (width e * (if Z.ltb 0 delta then 1.1 else 0.9)))
     /\ height e1
        = py_min 300 (py_max 10 (height e * (if Z.ltb 0 delta then 1.1 else 0.9)))
     /\ x e1 = x e /\ y e1 = y e)
  /\ (exists en,
        signature_elements (Nat.iter n (on_ctrl_scroll delta) s) !! i = Some en
        /\ x en = x e /\ y en = y e
        /\ 20 <= width en /\ width en <= 500
        /\ 10 <= height en /\ height en <= 300
        /\ ((0 < delta)%Z -> (36 <= n)%nat -> width en == 500 /\ height en == 300)
        /\ ((delta <= 0)%Z -> (33 <= n)%nat -> width en == 20 /\ height en == 10)).
Proof.
  intros Hsel Hi Hw Hh. split.
  - destruct (on_ctrl_scroll_step delta s i e Hsel Hi) as (e1 & _ & Hl1 & Hst & _).
    exists e1. unfold stored, geometry in Hst. simpl in Hst.
    injection Hst as _ Hx1 Hy1 Hw1 Hh1 _ _.
    repeat split; assumption.
  - destruct (iter_on_ctrl_scroll delta n s i e Hsel Hi)
      as (en & _ & Hl & Hx & Hy & Hwn & Hhn).
    assert (H1 : 20 <= 500) by lra. assert (H2 : 10 <= 300) by lra.
    assert (H3 : 0 < 20) by lra. assert (H4 : 0 < 10) by lra.
    pose proof (iter_rescale_bounds 20 500 (scroll_factor delta) (width e) n H1 Hw) as Bw.
    pose proof (iter_rescale_bounds 10 300 (scroll_factor delta) (height e) n H2 Hh) as Bh.
    exists en. rewrite Hwn, Hhn.
    split; [exact Hl|]. split; [exact Hx|]. split; [exact Hy|].
    split; [exact (proj1 Bw)|]. split; [exact (proj2 Bw)|].
    split; [exact (proj1 Bh)|]. split; [exact (proj2 Bh)|].
    split.
    + intros Hd Hn. apply Z.ltb_lt in Hd. unfold scroll_factor. rewrite Hd. split.
      * apply (enlarge_reaches_limit 20 500 (width e) n 36);
          solve [assumption | apply enlarge_36_steps].
      * apply (enlarge_reaches_limit 10 300 (height e) n 36);
          solve [assumption | apply enlarge_36_steps].
    + intros Hd Hn. apply Z.ltb_ge in Hd. unfold scroll_factor. rewrite Hd. split.
      * apply (shrink_reaches_limit 20 500 (width e) n 33);
          solve [assumption | apply shrink_33_steps].
      * apply (shrink_reaches_limit 10 300 (height e) n 33);
          solve [assumption | apply shrink_33_steps].
Qed.

End Properties.

(** * The output file name *)

Lemma kept_space_is_blank c : keep_char c = true -> isspace c = Ascii.eqb c " ".
Proof.
  destruct c as [[] [] [] [] [] [] [] []]; vm_compute; intros H;
    first [reflexivity | discriminate H].
Qed.

Lemma join_if_all keep s : all_chars keep (join_if keep s) = true.
Proof.
  induction s as [|c r IH]; simpl; [reflexivity|].
  destruct (keep c) eqn:Hc; simpl; [now rewrite Hc|exact IH].
Qed.

Lemma rstrip_of_kept s :
  all_chars keep_char s = true -> rstrip s = drop_trailing_spaces s.
Proof.
  induction s as [|c r IH]; simpl; [reflexivity|].
  intros H. apply andb_true_iff in H as [Hc Hr].
  now rewrite (IH Hr), (kept_space_is_blank c Hc).
Qed.

Lemma drop_trailing_spaces_all p s :
  all_chars p s = true -> all_chars p (drop_trailing_spaces s) = true.
Proof.
  induction s as [|c r IH]; simpl; [reflexivity|].
  intros H. apply andb_true_iff in H as [Hc Hr]. specialize (IH Hr).
  destruct (drop_trailing_spaces r) as [|c' r'].
  - destruct (Ascii.eqb c " "); simpl; [reflexivity|now rewrite Hc].
  - simpl in *. now rewrite Hc, IH.
Qed.

Lemma replace_space_name_chars s :
  all_chars keep_char s = true ->
  all_chars name_char (replace_char " " "_" s) = true.
Proof.
  induction s as [|c r IH]; simpl; [reflexivity|].
  intros H. apply andb_true_iff in H as [Hc Hr]. rewrite (IH Hr), andb_true_r.
  destruct (Ascii.eqb c " ") eqn:Hsp; [reflexivity|].
  unfold keep_char in Hc. rewrite Hsp, orb_false_r in Hc. exact Hc.
Qed.

(** C9, with the trailing blanks removed as the code does: the file name
    is the base name, ["_signed_by_"], the sanitised annotator name and
    [".pdf"]; the sanitised name is the annotator name restricted to
    alphanumerics, spaces, hyphens and underscores, without its trailing
    spaces, with every remaining space replaced by an underscore; so it
    consists of alphanumerics, hyphens and underscores only. *)
Theorem output_filename_sanitized (file_name signature_name : string) :
  output_filename file_name signature_name
  = file_name ++ "_signed_by_" ++ safe_name signature_name ++ ".pdf"
  /\ safe_name signature_name
     = replace_char " " "_"
         (drop_trailing_spaces (join_if keep_char signature_name))
  /\ all_chars name_char (safe_name signature_name) = true.
Proof.
  assert (Hs : safe_name signature_name
               = replace_char " " "_"
                   (drop_trailing_spaces (join_if keep_char signature_name))).
  { unfold safe_name. now rewrite rstrip_of_kept by apply join_if_all. }
  split; [reflexivity|]. split; [exact Hs|].
  rewrite Hs. apply replace_space_name_chars, drop_trailing_spaces_all, join_if_all.
Qed.

(** C9 as stated fails: a trailing space does not become a trailing
    underscore. *)
Lemma trailing_space_is_dropped :
  safe_name "Bob " = "Bob"
  /\ sanitize_as_specified "Bob " = "Bob_"
  /\ safe_name "Bob " <> sanitize_as_specified "Bob ".
Proof. repeat split. vm_compute. discriminate. Qed.

(** * Scenario A *)

Lemma scenario_A_rect_value :
  scenario_A_rect = Some (61200 # 700, 61200 # 700, 153000 # 700, 107100 # 700).
Proof. vm_compute. reflexivity. Qed.

Lemma close_to_intro tol a b : a - b <= tol -> b - a <= tol -> close_to tol a b.
Proof.
  intros H1 H2. unfold close_to. apply Qabs_Qle_condition. split; lra.
Qed.

Lemma close_to_elim tol a b : close_to tol a b -> a - b <= tol /\ b - a <= tol.
Proof.
  unfold close_to. intros H. apply Qabs_Qle_condition in H. split; lra.
Qed.

(** C5 as stated fails: the bottom edge of the exported rectangle is 153,
    0.44 away from the 152.56 of the specification. *)
Lemma scenario_A_not_as_specified : ~ scenario_A_as_specified 0.4.
Proof.
  intros (r & Hr & Hc). rewrite scenario_A_rect_value in Hr. injection Hr as <-.
  destruct Hc as (_ & _ & _ & H). apply close_to_elim in H as [H _].
  vm_compute in H. now apply H.
Qed.

(** C5, with the figures the code produces: the base scale of a 612 pt
    page on the 700 px canvas is 1.1438 to four decimals, and the default
    image envelope (100, 100, 150, 75) is exported as the rectangle
    (87.43, 87.43, 218.57, 153.00) to two decimals. *)
Theorem scenario_A_export :
  (exists b, base_scale_factor scenario_A = Some b /\ close_to 0.00005 b 1.1438)
  /\ exists r, scenario_A_rect = Some r
               /\ rect_close_to 0.005 r (87.43, 87.43, 218.57, 153.00).
Proof.
  split.
  - exists (700 # 612). split; [vm_compute; reflexivity|].
    apply close_to_intro; vm_compute; discriminate.
  - eexists. split; [apply scenario_A_rect_value|].
    repeat split; apply close_to_intro; vm_compute; discriminate.
Qed.

(** * Pages of different widths *)

(** C4 fails on the code: with the second (842 pt wide) page shown, the
    image on the first (612 pt wide) page is exported with the scale of
    the second page, 700/842, as (120.29, 120.29, 300.71, 210.50), and not
    with its own page's scale, which gives (87.43, 87.43, 218.57,
    153.00). *)
Theorem export_uses_scale_of_shown_page :
  current_page mixed_pages_session = 1%nat
  /\ List.map (fun e => (page_num e, geometry e)) (signature_elements mixed_pages_session)
     = [(0%nat, (100, 100, 150, 75))]
  /\ base_scale_factor mixed_pages_session = Some (700 # 842)
  /\ exists r,
       first_image_rect
         (snd (save_pdf clip no_bytes "Jan 05, 2026 10:00:00" mixed_pages_session)) 0
       = Some r
       /\ rect_close_to 0.005 r (120.29, 120.29, 300.71, 210.50)
       /\ ~ rect_close_to 30 r (87.43, 87.43, 218.57, 153.00).
Proof.
  split; [reflexivity|]. split; [reflexivity|]. split; [vm_compute; reflexivity|].
  exists (84200 # 700, 84200 # 700, 210500 # 700, 147350 # 700).
  split; [vm_compute; reflexivity|]. split.
  - repeat split; apply close_to_intro; vm_compute; discriminate.
  - intros (H & _). apply close_to_elim in H as [H _].
    vm_compute in H. now apply H.
Qed.

(** C8 fails on the code, by the defect of C4: with the second (842 pt
    wide) page shown, the first page gets its signature info once, but at
    the corner of the image divided by the scale of the second page,
    (120.29, 120.29), and not at the document-space corner of the image,
    (87.43, 87.43), which its own page's scale 700/612 gives; the second
    page, without image, gets none. *)
Theorem signature_info_uses_scale_of_shown_page :
  current_page mixed_pages_session = 1%nat
  /\ List.map (fun e => (page_num e, geometry e)) (signature_elements mixed_pages_session)
     = [(0%nat, (100, 100, 150, 75))]
  /\ base_scale_factor mixed_pages_session = Some (700 # 842)
  /\ mixed_pages_info 1 = []
  /\ exists px py,
       mixed_pages_info 0 = [(px, py)]
       /\ close_to 0.005 px 120.29 /\ close_to 0.005 py 120.29
       /\ ~ close_to 30 px (100 / (700 / 612)) /\ ~ close_to 30 py (100 / (700 / 612)).
Proof.
  split; [reflexivity|]. split; [reflexivity|]. split; [vm_compute; reflexivity|].
  split; [vm_compute; reflexivity|].
  exists (84200 # 700), (84200 # 700).
  split; [vm_compute; reflexivity|].
  split; [apply close_to_intro; vm_compute; discriminate|].
  split; [apply close_to_intro; vm_compute; discriminate|].
  split; intros H; apply close_to_elim in H as [H _]; vm_compute in H; now apply H.
Qed.

(** * Font size and shrink factor *)

(** C6 fails on the code: a text element of the default height 22, shown
    at zoom level 0.5, is drawn by [draw_element_on_canvas] at font size
    9, that is [max(8, int(22 * 0.5 - 2))]; the claim gives [max(8, 22 -
    2)] scaled by 0.5, that is 10, and so does [start_text_editing] for
    the same element: the entry that opens on it has font size
    [int((22 - 2) * 0.5) = 10]. *)
Theorem text_font_size_at_half_zoom :
  zoom_level scenario_B_half_zoom == 0.5
  /\ List.map (fun e => (content e, height e, canvas_id e))
       (signature_elements scenario_B_half_zoom)
     = [(TextContent "Text", 22, Some 13%nat)]
  /\ item_font_size (canvas scenario_B_half_zoom) 13 = Some 9%Z
  /\ font_size_as_specified 22 0.5 = 10%Z
  /\ option_map entry_font_size (text_entry scenario_B_half_zoom_editing)
     = Some 10%Z.
Proof. repeat split; vm_compute; reflexivity. Qed.

(** C7 as stated fails: one shrinking step takes the width 150 to 135
    (factor 0.9), not to 150/1.1. *)
Lemma shrink_factor_is_nine_tenths :
  exists e1,
    signature_elements (on_ctrl_scroll (-120) scenario_A_selected) !! 0%nat = Some e1
    /\ width e1 == 135
    /\ ~ width e1 == py_min 500 (py_max 20 (150 * (1 / 1.1))).
Proof.
  eexists. split; [vm_compute; reflexivity|].
  split; [vm_compute; reflexivity | vm_compute; discriminate].
Qed.

(** * The theorems at concrete sessions *)

(** Scenario B at zoom level 1.2: the text is picked up at (130, 250) and
    dragged through (142, 262) to (190, 250). *)
Lemma drag_moves_by_delta_over_zoom_witness :
  exists e',
    signature_elements
      (drag_through [(142, 262); (190, 250)] scenario_B_zoomed_selected) !! 0%nat
    = Some e'
    /\ x e' == 100 + (190 - 130) / zoom_level scenario_B_zoomed_selected
    /\ y e' == 200 + (250 - 250) / zoom_level scenario_B_zoomed_selected
    /\ drag_data (drag_through [(142, 262); (190, 250)] scenario_B_zoomed_selected)
       = (190, 250).
Proof.
  assert (Hsel : selected_element scenario_B_zoomed_selected = Some 0%nat)
    by (vm_compute; reflexivity).
  assert (Hi : signature_elements scenario_B_zoomed_selected !! 0%nat
               = Some (set_canvas_id (Some 7%nat) default_text))
    by (vm_compute; reflexivity).
  assert (Hz : 0.5 <= zoom_level scenario_B_zoomed_selected
               /\ zoom_level scenario_B_zoomed_selected <= 3.0)
    by (split; vm_compute; discriminate).
  destruct (drag_moves_by_delta_over_zoom [(142, 262); (190, 250)]
              scenario_B_zoomed_selected 0%nat
              (set_canvas_id (Some 7%nat) default_text) Hsel Hi Hz)
    as (e' & He' & Hx & Hy & _ & Hd & _).
  exists e'. split; [exact He'|]. split; [exact Hx|]. split; [exact Hy|exact Hd].
Defined.

(** Scenario A with the image selected: forty enlarging steps. *)
Lemma ctrl_scroll_resize_policy_witness :
  exists en,
    signature_elements (Nat.iter 40 (on_ctrl_scroll 120) scenario_A_selected) !! 0%nat
    = Some en
    /\ x en = 100 /\ y en = 100 /\ width en == 500 /\ height en == 300.
Proof.
  assert (Hsel : selected_element scenario_A_selected = Some 0%nat)
    by (vm_compute; reflexivity).
  assert (Hi : signature_elements scenario_A_selected !! 0%nat
               = Some {| content := ImageContent 0; x := 100; y := 100;
                         width := 150; height := 75; page_num := 0%nat;
                         canvas_id := Some 3%nat; text_color := "black" |})
    by (vm_compute; reflexivity).
  destruct (ctrl_scroll_resize_policy 120 40 scenario_A_selected 0%nat _ Hsel Hi)
    as (_ & en & Hen & Hx & Hy & _ & _ & _ & _ & Hup & _).
  - split; vm_compute; discriminate.
  - split; vm_compute; discriminate.
  - exists en. split; [exact Hen|]. split; [exact Hx|]. split; [exact Hy|].
    apply Hup; [reflexivity|lia].
Defined.

(** Scenario A exported: one page, one signature info on it. *)
Lemma signature_info_once_per_image_page_witness :
  match snd (save_pdf clip no_bytes "Jan 05, 2026 10:00:00" scenario_A) with
  | Saved _ pages =>
      length pages = 1%nat
      /\ forall cmds, pages !! 0%nat = Some cmds ->
           exists b, base_scale_factor scenario_A = Some b /\ ~ b == 0
             /\ List.filter
                  (is_signature_info
                     ("Signed by ALICE" ++ newline ++ "Jan 05, 2026 10:00:00")) cmds
                = [InsertText (100 / b, 100 / b)
                     ("Signed by ALICE" ++ newline ++ "Jan 05, 2026 10:00:00")
                     6 (0.4, 0.4, 0.4)]
  | _ => False
  end.
Proof.
  destruct (save_pdf clip no_bytes "Jan 05, 2026 10:00:00" scenario_A)
    as [s' [| | |out pages]] eqn:Hsave; try (vm_compute in Hsave; discriminate Hsave).
  cbn [snd].
  destruct (signature_info_once_per_image_page clip no_bytes
              "Jan 05, 2026 10:00:00" scenario_A s' out pages Hsave) as [Hlen Hpages].
  split; [exact Hlen|].
  intros cmds Hc. exact (Hpages 0%nat cmds Hc).
Defined.

(** * Sessions *)

Section Sessions.

Context {Image : Type}.
Variable image_eq : Image -> Image -> bool.
Variable thumbnail : Z * Z -> Image -> Image.
Variable save_png : Image -> list Byte.byte.

Local Abbreviation State := (@State Image).
Local Abbreviation Ui := (@Ui Image).

(** ** Comparisons *)

Lemma Qltb_lt a b : Qltb a b = true <-> a < b.
Proof.
  unfold Qltb. rewrite negb_true_iff. split.
  - intros H. destruct (Qlt_le_dec a b) as [Hlt|Hle]; [exact Hlt|].
    apply Qle_bool_iff in Hle. congruence.
  - intros H. destruct (Qle_bool b a) eqn:E; [|reflexivity].
    apply Qle_bool_iff in E. lra.
Qed.

Lemma zoom_in_bounds z : 0.5 <= z -> 0.5 <= py_min 3.0 (z * 1.2) /\ py_min 3.0 (z * 1.2) <= 3.0.
Proof.
  intros Hz. destruct (py_min_cases 3.0 (z * 1.2)) as [[-> H]|[-> H]]; split; lra.
Qed.

Lemma zoom_out_bounds z : z <= 3.0 -> 0.5 <= py_max 0.5 (z / 1.2) /\ py_max 0.5 (z / 1.2) <= 3.0.
Proof.
  intros Hz.
  assert (Hd : z / 1.2 == z * (10 # 12)) by (field; discriminate).
  destruct (py_max_cases 0.5 (z / 1.2)) as [[-> H]|[-> H]]; split; lra.
Qed.

Lemma update_page_display_zoom (s : State) :
  zoom_level (update_page_display s) = zoom_level s.
Proof.
  pose proof (update_page_display_kept s) as H. unfold kept in H.
  now injection H as _ _ _ Hz _ _ _.
Qed.

Lemma zoom_op_range op (s : State) :
  0.5 <= zoom_level s /\ zoom_level s <= 3.0 ->
  0.5 <= zoom_level (zoom_op op s) /\ zoom_level (zoom_op op s) <= 3.0.
Proof.
  intros [Hlo Hhi].
  destruct op; simpl; unfold zoom_in, zoom_out, zoom_reset;
    destruct (doc_loaded s); try (split; assumption);
    rewrite update_page_display_zoom; simpl.
  - now apply zoom_in_bounds.
  - now apply zoom_out_bounds.
  - split; lra.
Qed.

(** Zoom operations keep the zoom level between 0.5 and 3.0. *)
Theorem zoom_ops_stay_in_range (ops : list ZoomOp) (s : State) :
  0.5 <= zoom_level s /\ zoom_level s <= 3.0 ->
  0.5 <= zoom_level (zoom_ops ops s) /\ zoom_level (zoom_ops ops s) <= 3.0.
Proof.
  revert s. induction ops as [|op ops IH]; intros s Hz; [exact Hz|].
  unfold zoom_ops in *. simpl. apply IH. now apply zoom_op_range.
Qed.

(** ** Redrawing *)

Lemma draw_element_drawn zoom (imgs : gmap nat Image) e cv :
  alive imgs e ->
  draw_element_on_canvas zoom imgs e cv
  = (set_canvas_id (Some (next_id cv)) e,
     snd (canvas_create (drawn_shape zoom e) "signature" cv)).
Proof.
  intros Ha. unfold draw_element_on_canvas, drawn_shape.
  destruct (content e) as [ref|txt] eqn:Hc; [|reflexivity].
  destruct (Ha ref Hc) as [img ->]. reflexivity.
Qed.

Lemma page_elements_cons page e rest :
  page_elements page (e :: rest)
  = if Nat.eqb (page_num e) page
    then e :: page_elements page rest else page_elements page rest.
Proof. reflexivity. Qed.

Lemma drawn_items_cons zoom n e shown :
  drawn_items zoom n (e :: shown)
  = {| item_id := n; item_tag := "signature"; item_shape := drawn_shape zoom e |}
    :: drawn_items zoom (S n) shown.
Proof.
  unfold drawn_items. simpl. rewrite Nat.add_0_r. f_equal.
  apply imap_ext. intros k a _. simpl. f_equal. lia.
Qed.

Lemma render_signatures_shown zoom (imgs : gmap nat Image) cur els cv :
  Forall (alive imgs) els ->
  render_signatures zoom imgs cur els cv
  = (relabel cur (next_id cv) els,
     {| next_id := (next_id cv + length (page_elements cur els))%nat;
        items := items cv ++ drawn_items zoom (next_id cv) (page_elements cur els) |}).
Proof.
  intros Ha. revert cv. induction Ha as [|e rest He _ IH]; intros cv.
  - simpl. rewrite Nat.add_0_r, app_nil_r. now destruct cv.
  - cbn [render_signatures relabel]. rewrite page_elements_cons.
    destruct (Nat.eqb (page_num e) cur).
    + rewrite (draw_element_drawn zoom imgs e cv He), IH.
      cbn [canvas_create snd next_id items length].
      rewrite drawn_items_cons, <- app_assoc. cbn [app].
      now rewrite Nat.add_succ_r.
    + now rewrite IH.
Qed.

(** A page refresh of an open document, written out. *)
Lemma update_page_display_shown (s : State) pages page_rect :
  doc_loaded s = true ->
  pdf_doc s = Some pages ->
  pages !! current_page s = Some page_rect ->
  Forall (alive (images s)) (signature_elements s) ->
  update_page_display s
  = {| pdf_doc := pdf_doc s; pdf_file_name := pdf_file_name s;
       signature_elements :=
         relabel (current_page s) (S (next_id (canvas s))) (signature_elements s);
       current_page := current_page s; selected_element := None;
       drag_data := drag_data s;
       page_scale_factor := fit_scale page_rect * zoom_level s;
       base_scale_factor := Some (fit_scale page_rect);
       zoom_level := zoom_level s; signature_name := signature_name s;
       canvas :=
         {| next_id := (S (next_id (canvas s))
                        + length (page_elements (current_page s) (signature_elements s)))%nat;
            items :=
              {| item_id := next_id (canvas s); item_tag := "pdf_page";
                 item_shape := PageImage (fit_scale page_rect * zoom_level s) |}
              :: drawn_items (zoom_level s) (S (next_id (canvas s)))
                   (page_elements (current_page s) (signature_elements s)) |};
       images := images s |}.
Proof.
  intros Hl Hd Hp Ha. unfold update_page_display. rewrite Hl, Hd, Hp.
  cbn [negb]. cbv zeta.
  cbn [set_scales set_selected set_canvas zoom_level images current_page
       signature_elements canvas].
  rewrite (render_signatures_shown _ _ _ _ _ Ha).
  rewrite <- Hd. reflexivity.
Qed.

Lemma fit_scale_positive page_rect : 0 < fit_scale page_rect.
Proof.
  unfold fit_scale, canvas_width.
  destruct (Qltb 0 (rect_width page_rect)) eqn:H; [|lra].
  apply Qltb_lt in H. apply Qlt_shift_div_l; lra.
Qed.

Lemma loaded_page (s : State) :
  doc_loaded s = true -> (current_page s < page_count s)%nat ->
  exists pages page_rect,
    pdf_doc s = Some pages /\ pages !! current_page s = Some page_rect.
Proof.
  unfold doc_loaded, page_count. destruct (pdf_doc s) as [pages|]; [|discriminate].
  intros _ Hlt. apply lookup_lt_is_Some in Hlt as [r Hr]. now exists pages, r.
Qed.


(** After a page refresh of an open document whose image elements are
    alive, the canvas holds the page raster followed by exactly one item
    per element of the page shown, in list order, each at the stored
    position times the zoom level; these elements hold the ids of their
    items, the elements of other pages keep their handles. *)
Theorem refresh_draws_page_elements (s : State) pages page_rect :
  doc_loaded s = true ->
  pdf_doc s = Some pages ->
  pages !! current_page s = Some page_rect ->
  Forall (alive (images s)) (signature_elements s) ->
  items (canvas (update_page_display s))
  = {| item_id := next_id (canvas s); item_tag := "pdf_page";
       item_shape := PageImage (fit_scale page_rect * zoom_level s) |}
    :: drawn_items (zoom_level s) (S (next_id (canvas s)))
         (page_elements (current_page s) (signature_elements s))
  /\ signature_elements (update_page_display s)
     = relabel (current_page s) (S (next_id (canvas s))) (signature_elements s).
Proof.
  intros Hl Hd Hp Ha.
  rewrite (update_page_display_shown s pages page_rect Hl Hd Hp Ha).
  split; reflexivity.
Qed.

(** ** What a session keeps *)

Lemma map_is_fmap {A B : Type} (f : A -> B) (l : list A) : List.map f l = f <$> l.
Proof. induction l as [|a l IH]; simpl; [reflexivity|now rewrite IH]. Qed.

Lemma elem_of_map {A B : Type} (f : A -> B) (l : list A) (c : B) :
  c ∈ List.map f l <-> exists a, f a = c /\ a ∈ l.
Proof.
  rewrite list_elem_of_In, in_map_iff. split; intros (a & Ha & Hin); exists a;
    (split; [exact Ha|]); now apply list_elem_of_In.
Qed.

Lemma drawn_below_le n m e : drawn_below n e -> (n <= m)%nat -> drawn_below m e.
Proof. intros (id & Hid & Hlt) Hnm. exists id. split; [exact Hid|lia]. Qed.

Lemma handles_not_fresh n m els :
  Forall (drawn_below m) els -> (m <= n)%nat -> Some n ∉ List.map canvas_id els.
Proof.
  intros Hb Hmn Hin. apply elem_of_map in Hin as (e & He & Hel).
  rewrite Forall_forall in Hb. destruct (Hb e Hel) as (id & Hid & Hlt).
  rewrite Hid in He. injection He as ->. lia.
Qed.

Lemma relabel_length cur n els : length (relabel cur n els) = length els.
Proof.
  revert n. induction els as [|e rest IH]; intros n; simpl; [reflexivity|].
  destruct (Nat.eqb (page_num e) cur); simpl; now rewrite IH.
Qed.

Lemma relabel_Forall (P : SignatureElement -> Prop) cur n els :
  (forall e c, P e -> P (set_canvas_id c e)) ->
  Forall P els -> Forall P (relabel cur n els).
Proof.
  intros HP Hf. revert n. induction Hf as [|e rest He _ IH]; intros n; simpl;
    [constructor|].
  destruct (Nat.eqb (page_num e) cur); constructor; auto.
Qed.

Lemma relabel_handles cur els n m :
  Forall (drawn_below m) els -> (m <= n)%nat ->
  NoDup (List.map canvas_id els) ->
  Forall (drawn_below (n + length (page_elements cur els))) (relabel cur n els)
  /\ NoDup (List.map canvas_id (relabel cur n els))
  /\ forall c, c ∈ List.map canvas_id (relabel cur n els) ->
       c ∈ List.map canvas_id els \/ exists id, c = Some id /\ (n <= id)%nat.
Proof.
  intros Hb. revert n. induction Hb as [|e rest He Hrest IH]; intros n Hmn Hnd.
  - simpl. repeat split; [constructor|constructor|]. intros c Hc. now left.
  - simpl in Hnd. apply NoDup_cons in Hnd as [Hnotin Hnd].
    cbn [relabel]. rewrite page_elements_cons.
    destruct (Nat.eqb (page_num e) cur).
    + destruct (IH (S n) ltac:(lia) Hnd) as (Hf & Hn & Hc).
      cbn [length List.map]. replace (n + S (length (page_elements cur rest)))%nat
        with (S n + length (page_elements cur rest))%nat by lia.
      split; [|split].
      * constructor; [|exact Hf]. exists n. split; [reflexivity|lia].
      * apply NoDup_cons. split; [|exact Hn]. cbn [canvas_id set_canvas_id].
        intros Hin. destruct (Hc _ Hin) as [Hold|(id & Hid & Hle)].
        -- now apply (handles_not_fresh n m rest Hrest Hmn).
        -- injection Hid as ->. lia.
      * intros c Hin. cbn [canvas_id set_canvas_id] in Hin.
        apply elem_of_cons in Hin as [->|Hin].
        -- right. exists n. split; [reflexivity|lia].
        -- destruct (Hc _ Hin) as [Hold|(id & Hid & Hle)].
           ++ left. now apply elem_of_cons; right.
           ++ right. exists id. split; [exact Hid|lia].
    + destruct (IH n Hmn Hnd) as (Hf & Hn & Hc).
      cbn [List.map]. split; [|split].
      * constructor; [|exact Hf]. apply (drawn_below_le m); [exact He|lia].
      * apply NoDup_cons. split; [|exact Hn].
        intros Hin. destruct (Hc _ Hin) as [Hold|(id & Hid & Hle)].
        -- contradiction.
        -- destruct He as (id' & Hid' & Hlt). rewrite Hid' in Hid.
           injection Hid as ->. lia.
      * intros c Hin. apply elem_of_cons in Hin as [->|Hin].
        -- left. now apply elem_of_cons; left.
        -- destruct (Hc _ Hin) as [Hold|(id & Hid & Hle)].
           ++ left. now apply elem_of_cons; right.
           ++ right. exists id. split; [exact Hid|lia].
Qed.

Lemma update_page_display_consistent (s : State) :
  0.5 <= zoom_level s /\ zoom_level s <= 3.0 ->
  Forall (alive (images s)) (signature_elements s) ->
  (doc_loaded s = true -> (current_page s < page_count s)%nat) ->
  Forall (fun e => (page_num e < page_count s)%nat) (signature_elements s) ->
  (forall i, selected_element s = Some i -> (i < length (signature_elements s))%nat) ->
  Forall (drawn_below (next_id (canvas s))) (signature_elements s) ->
  NoDup (List.map canvas_id (signature_elements s)) ->
  consistent (update_page_display s).
Proof.
  intros Hz Ha Hp Hanch Hsel Hb Hnd.
  destruct (doc_loaded s) eqn:Hl.
  - destruct (loaded_page s Hl (Hp eq_refl)) as (pages & page_rect & Hd & Hpg).
    rewrite (update_page_display_shown s pages page_rect Hl Hd Hpg Ha).
    destruct (relabel_handles (current_page s) (signature_elements s)
                (S (next_id (canvas s))) (next_id (canvas s)) Hb ltac:(lia) Hnd)
      as (Hf & Hn & _).
    constructor; cbn [zoom_level images signature_elements base_scale_factor
                      current_page selected_element canvas next_id].
    + exact Hz.
    + now apply relabel_Forall.
    + intros _. exists (fit_scale page_rect). split; [reflexivity|apply fit_scale_positive].
    + intros _. unfold page_count in *. cbn [pdf_doc]. now apply Hp.
    + unfold page_count in *. cbn [pdf_doc]. now apply relabel_Forall.
    + discriminate.
    + exact Hf.
    + exact Hn.
  - assert (Hu : update_page_display s = s)
      by (unfold update_page_display; now rewrite Hl).
    rewrite Hu.
    constructor; [exact Hz|exact Ha|rewrite Hl; discriminate|rewrite Hl; discriminate
                 |exact Hanch|exact Hsel|exact Hb|exact Hnd].
Qed.

Lemma consistent_set_canvas (s : State) cv :
  consistent s -> (next_id (canvas s) <= next_id cv)%nat ->
  consistent (set_canvas cv s).
Proof.
  intros [Hz Ha Hbase Hp Hanch Hsel Hb Hnd] Hle.
  constructor; try assumption.
  cbn [canvas set_canvas signature_elements].
  eapply Forall_impl; [exact Hb|]. intros e He. now apply (drawn_below_le _ _ e He).
Qed.

Lemma consistent_set_selected (s : State) sel :
  consistent s ->
  (forall i, sel = Some i -> (i < length (signature_elements s))%nat) ->
  consistent (set_selected sel s).
Proof.
  intros [Hz Ha Hbase Hp Hanch Hsel Hb Hnd] Hnew. constructor; assumption.
Qed.

Lemma consistent_set_drag_data (s : State) d :
  consistent s -> consistent (set_drag_data d s).
Proof. intros [Hz Ha Hbase Hp Hanch Hsel Hb Hnd]. constructor; assumption. Qed.

Lemma alive_weaken (imgs imgs' : gmap nat Image) e :
  imgs ⊆ imgs' -> alive imgs e -> alive imgs' e.
Proof.
  intros Hsub Ha r Hr. destruct (Ha r Hr) as [img Himg].
  exists img. now apply (lookup_weaken imgs imgs').
Qed.

Lemma consistent_set_images (s : State) imgs' :
  consistent s -> images s ⊆ imgs' -> consistent (set_images imgs' s).
Proof.
  intros [Hz Ha Hbase Hp Hanch Hsel Hb Hnd] Hsub. constructor; try assumption.
  cbn [images set_images signature_elements].
  eapply Forall_impl; [exact Ha|]. intros e He. now apply (alive_weaken (images s)).
Qed.

Lemma elem_of_insert_inv {A : Type} (l : list A) i (a b : A) :
  b ∈ <[i:=a]> l -> b = a \/ b ∈ l.
Proof.
  revert i. induction l as [|c l IH]; intros i Hin; [now right|].
  destruct i as [|i]; simpl in Hin; apply elem_of_cons in Hin as [->|Hin].
  - now left.
  - right. now apply elem_of_cons; right.
  - right. now apply elem_of_cons; left.
  - destruct (IH i Hin) as [->|H]; [now left|right; now apply elem_of_cons; right].
Qed.

Lemma NoDup_insert_fresh {A : Type} (l : list A) i (a : A) :
  NoDup l -> a ∉ l -> NoDup (<[i:=a]> l).
Proof.
  revert i. induction l as [|c l IH]; intros i Hnd Hnot; [exact Hnd|].
  apply NoDup_cons in Hnd as [Hc Hnd].
  apply not_elem_of_cons in Hnot as [Hne Hnot].
  destruct i as [|i]; simpl; apply NoDup_cons.
  - split; assumption.
  - split; [|now apply IH].
    intros Hin. destruct (elem_of_insert_inv _ _ _ _ Hin) as [->|H];
      [now apply Hne|now apply Hc].
Qed.

(** Replacing the element at [i] by one with a live content, the same
    page and either the same handle or a handle the canvas has just
    handed out. *)
Lemma consistent_replace (s : State) i e e2 cv' :
  consistent s ->
  signature_elements s !! i = Some e ->
  alive (images s) e2 ->
  page_num e2 = page_num e ->
  (canvas_id e2 = canvas_id e /\ (next_id (canvas s) <= next_id cv')%nat)
  \/ (exists n, canvas_id e2 = Some n
                /\ (next_id (canvas s) <= n)%nat /\ (n < next_id cv')%nat) ->
  consistent (set_canvas cv' (set_elements (<[i:=e2]> (signature_elements s)) s)).
Proof.
  intros [Hz Ha Hbase Hp Hanch Hsel Hb Hnd] Hi Halive Hpage Hid.
  assert (Hle : (next_id (canvas s) <= next_id cv')%nat)
    by (destruct Hid as [[_ H]|(n & _ & H1 & H2)]; lia).
  constructor; cbn [zoom_level images signature_elements canvas set_canvas
                    set_elements selected_element].
  - exact Hz.
  - now apply Forall_insert.
  - exact Hbase.
  - exact Hp.
  - apply Forall_insert; [exact Hanch|].
    rewrite Hpage. exact (Forall_lookup_1 _ _ _ _ Hanch Hi).
  - intros j Hj. rewrite length_insert. now apply Hsel.
  - apply Forall_insert.
    + eapply Forall_impl; [exact Hb|]. intros a Hb'. now apply (drawn_below_le _ _ a Hb').
    + destruct Hid as [[Hsame _]|(n & Hn & _ & Hlt)].
      * destruct (Forall_lookup_1 _ _ _ _ Hb Hi) as (id & Hid' & Hlt).
        exists id. split; [congruence|lia].
      * exists n. split; [exact Hn|exact Hlt].
  - rewrite map_is_fmap, list_fmap_insert, <- map_is_fmap.
    destruct Hid as [[Hsame _]|(n & Hn & Hge & _)].
    + rewrite list_insert_id; [exact Hnd|].
      rewrite map_is_fmap, list_lookup_fmap, Hi. simpl. now rewrite Hsame.
    + apply NoDup_insert_fresh; [exact Hnd|]. rewrite Hn.
      now apply (handles_not_fresh n (next_id (canvas s))).
Qed.

(** Appending a new element with a handle the canvas has just handed
    out. *)
Lemma consistent_append (s : State) e' cv' n :
  consistent s ->
  doc_loaded s = true ->
  alive (images s) e' ->
  page_num e' = current_page s ->
  canvas_id e' = Some n ->
  (next_id (canvas s) <= n)%nat -> (n < next_id cv')%nat ->
  consistent (set_canvas cv' (set_elements (signature_elements s ++ [e']) s)).
Proof.
  intros [Hz Ha Hbase Hp Hanch Hsel Hb Hnd] Hl Halive Hpage Hid Hge Hlt.
  constructor; cbn [zoom_level images signature_elements canvas set_canvas
                    set_elements selected_element].
  - exact Hz.
  - apply Forall_app. split; [exact Ha|]. now constructor.
  - exact Hbase.
  - exact Hp.
  - apply Forall_app. split; [exact Hanch|]. constructor; [|constructor].
    rewrite Hpage. now apply Hp.
  - intros j Hj. rewrite length_app. specialize (Hsel j Hj). lia.
  - apply Forall_app. split.
    + eapply Forall_impl; [exact Hb|]. intros a Hb'.
      apply (drawn_below_le _ _ a Hb'). lia.
    + constructor; [|constructor]. now exists n.
  - rewrite map_app. apply NoDup_app. split; [exact Hnd|]. split.
    + intros c Hc Hin. simpl in Hin. apply list_elem_of_singleton in Hin.
      rewrite Hid in Hin. subst c.
      now apply (handles_not_fresh n (next_id (canvas s)) _ Hb Hge).
    + simpl. apply NoDup_singleton.
Qed.

(** ** Every handler keeps a session consistent *)

Lemma zoom_op_consistent op (s : State) : consistent s -> consistent (zoom_op op s).
Proof.
  intros H. pose proof H as [Hz Ha Hbase Hp Hanch Hsel Hb Hnd].
  destruct Hz as [Hlo Hhi].
  destruct op; simpl; unfold zoom_in, zoom_out, zoom_reset;
    destruct (doc_loaded s) eqn:Hl; try exact H;
    (apply update_page_display_consistent;
     [|exact Ha|intros _; now apply Hp|exact Hanch|exact Hsel|exact Hb|exact Hnd]).
  - now apply zoom_in_bounds.
  - now apply zoom_out_bounds.
  - simpl. split; lra.
Qed.

Lemma prev_page_consistent (s : State) : consistent s -> consistent (prev_page s).
Proof.
  intros H. pose proof H as [Hz Ha Hbase Hp Hanch Hsel Hb Hnd].
  unfold prev_page.
  destruct (doc_loaded s && Nat.ltb 0 (current_page s)) eqn:Hg; [|exact H].
  apply andb_true_iff in Hg as [Hl Hlt]. apply Nat.ltb_lt in Hlt.
  apply consistent_set_selected; [|discriminate].
  apply update_page_display_consistent; try assumption.
  intros _. specialize (Hp Hl). unfold page_count in *. simpl in *. lia.
Qed.

Lemma next_page_consistent (s : State) : consistent s -> consistent (next_page s).
Proof.
  intros H. pose proof H as [Hz Ha Hbase Hp Hanch Hsel Hb Hnd].
  unfold next_page.
  destruct (doc_loaded s && Nat.ltb (current_page s) (page_count s - 1)) eqn:Hg;
    [|exact H].
  apply andb_true_iff in Hg as [Hl Hlt]. apply Nat.ltb_lt in Hlt.
  apply consistent_set_selected; [|discriminate].
  apply update_page_display_consistent; try assumption.
  intros _. unfold page_count in *. simpl in *. lia.
Qed.

Lemma open_pdf_consistent pages stem (s : State) :
  consistent s -> consistent (open_pdf pages stem s).
Proof.
  intros [Hz Ha Hbase Hp Hanch Hsel Hb Hnd]. unfold open_pdf.
  apply update_page_display_consistent; simpl;
    try constructor; try discriminate; try lra.
  unfold doc_loaded, page_count. simpl. destruct pages; [discriminate|simpl; lia].
Qed.

Lemma append_and_draw_shown (s : State) e :
  alive (images s) e ->
  append_and_draw e s
  = set_canvas (snd (canvas_create (drawn_shape (zoom_level s) e) "signature" (canvas s)))
      (set_elements
         (signature_elements s ++ [set_canvas_id (Some (next_id (canvas s))) e]) s).
Proof.
  intros Ha. unfold append_and_draw. now rewrite (draw_element_drawn _ _ _ _ Ha).
Qed.

Lemma append_and_draw_consistent (s : State) e :
  consistent s -> doc_loaded s = true -> alive (images s) e ->
  page_num e = current_page s ->
  consistent (append_and_draw e s).
Proof.
  intros H Hl Ha Hpage. rewrite (append_and_draw_shown s e Ha).
  apply (consistent_append s _ _ (next_id (canvas s))); auto; simpl; lia.
Qed.

Lemma add_image_signature_consistent img (s : State) :
  consistent s -> consistent (add_image_signature img s).
Proof.
  intros H. unfold add_image_signature.
  destruct (doc_loaded s) eqn:Hl; [|exact H]. cbn [negb].
  apply append_and_draw_consistent.
  - apply consistent_set_images; [exact H|].
    apply insert_subseteq, not_elem_of_dom, is_fresh.
  - exact Hl.
  - intros r Hr. simpl in Hr. injection Hr as <-.
    cbn [images set_images]. rewrite lookup_insert_eq. now eexists.
  - reflexivity.
Qed.

Lemma add_text_signature_consistent (s : State) :
  consistent s -> consistent (add_text_signature s).
Proof.
  intros H. unfold add_text_signature.
  destruct (doc_loaded s) eqn:Hl; [|exact H]. cbn [negb]. cbv zeta.
  match goal with
  | |- context [append_and_draw ?e s] =>
      assert (H1 : consistent (append_and_draw e s))
        by (apply append_and_draw_consistent; auto; intros r Hr; discriminate Hr);
      set (s1 := append_and_draw e s) in *
  end.
  destruct (signature_elements s1 !! length (signature_elements s)) as [e|] eqn:He;
    [|exact H1].
  apply consistent_set_canvas; [|simpl; lia].
  apply consistent_set_selected; [exact H1|].
  intros i Hi. injection Hi as <-. now apply lookup_lt_Some in He.
Qed.

Lemma on_canvas_click_consistent cx cy item (s : State) :
  consistent s -> consistent (on_canvas_click cx cy item s).
Proof.
  intros H. unfold on_canvas_click.
  destruct (find_clicked item (current_page s) 0 (signature_elements s)) as [i|].
  - destruct (signature_elements s !! i) as [e|] eqn:He.
    + apply consistent_set_canvas; [|simpl; lia].
      apply consistent_set_drag_data, consistent_set_selected; [exact H|].
      intros j Hj. injection Hj as <-. now apply lookup_lt_Some in He.
    + apply consistent_set_canvas; [|simpl; lia].
      apply consistent_set_selected; [exact H|discriminate].
  - apply consistent_set_canvas; [|simpl; lia].
    apply consistent_set_selected; [exact H|discriminate].
Qed.

Lemma next_id_canvas_move id dx dy cv : next_id (canvas_move id dx dy cv) = next_id cv.
Proof. now destruct id. Qed.

Lemma next_id_canvas_delete_drawn cid cv :
  next_id (canvas_delete_drawn cid cv) = next_id cv.
Proof. now destruct cid as [[|k]|]. Qed.

Lemma on_canvas_drag_consistent cx cy (s : State) :
  consistent s -> consistent (on_canvas_drag cx cy s).
Proof.
  intros H. unfold on_canvas_drag.
  destruct (selected_element s) as [i|]; [|exact H].
  destruct (signature_elements s !! i) as [e|] eqn:He; [|exact H].
  apply consistent_set_drag_data.
  apply (consistent_replace s i e); auto.
  - exact (Forall_lookup_1 _ _ _ _ (images_alive s H) He).
  - left. split; [reflexivity|]. simpl. rewrite next_id_canvas_move. lia.
Qed.

Lemma on_ctrl_scroll_consistent delta (s : State) :
  consistent s -> consistent (on_ctrl_scroll delta s).
Proof.
  intros H. unfold on_ctrl_scroll.
  destruct (selected_element s) as [i|]; [|exact H].
  destruct (signature_elements s !! i) as [e|] eqn:He; [|exact H].
  pose proof (Forall_lookup_1 _ _ _ _ (images_alive s H) He) as Ha.
  cbv zeta.
  match goal with
  | |- context [draw_element_on_canvas ?z ?im ?el ?cv] =>
      rewrite (draw_element_drawn z im el cv Ha)
  end.
  apply (consistent_replace s i e); auto.
  right. eexists. split; [reflexivity|].
  simpl. rewrite next_id_canvas_delete_drawn. lia.
Qed.

Lemma change_selected_text_color_consistent c (s : State) :
  consistent s -> consistent (change_selected_text_color c s).
Proof.
  intros H. unfold change_selected_text_color.
  destruct (selected_element s) as [i|]; [|exact H].
  destruct (signature_elements s !! i) as [e|] eqn:He; [|exact H].
  destruct (is_text e); [|exact H].
  pose proof (Forall_lookup_1 _ _ _ _ (images_alive s H) He) as Ha.
  cbv zeta.
  match goal with
  | |- context [draw_element_on_canvas ?z ?im ?el ?cv] =>
      rewrite (draw_element_drawn z im el cv Ha)
  end.
  apply (consistent_replace s i e); auto.
  right. eexists. split; [reflexivity|].
  simpl. rewrite next_id_canvas_delete_drawn. lia.
Qed.

Lemma list_remove_sublist (imgs : gmap nat Image) i value j l :
  list_remove image_eq imgs i value j l `sublist_of` l.
Proof.
  revert j. induction l as [|e rest IH]; intros j; simpl; [constructor|].
  destruct (Nat.eqb j i || element_eq image_eq imgs e value).
  - now apply sublist_cons.
  - now apply sublist_skip.
Qed.

Lemma Forall_sublist {A : Type} (P : A -> Prop) (l1 l2 : list A) :
  l1 `sublist_of` l2 -> Forall P l2 -> Forall P l1.
Proof.
  intros Hsub Hf. apply Forall_forall. intros a Ha.
  rewrite Forall_forall in Hf. apply Hf. now apply (elem_of_sublist l1 l2).
Qed.

Lemma delete_selected_consistent (s : State) :
  consistent s -> consistent (delete_selected image_eq s).
Proof.
  intros H. unfold delete_selected.
  destruct (selected_element s) as [i|]; [|exact H].
  destruct (signature_elements s !! i) as [e|] eqn:He; [|exact H].
  destruct H as [Hz Ha Hbase Hp Hanch Hsel Hb Hnd].
  pose proof (list_remove_sublist (images s) i e 0 (signature_elements s)) as Hsub.
  constructor; cbn [zoom_level images signature_elements canvas set_canvas
                    set_elements set_selected selected_element];
    try assumption.
  - now apply (Forall_sublist _ _ _ Hsub).
  - now apply (Forall_sublist _ _ _ Hsub).
  - discriminate.
  - rewrite next_id_canvas_delete_drawn. now apply (Forall_sublist _ _ _ Hsub).
  - rewrite !map_is_fmap in *. eapply sublist_NoDup; [exact Hnd|].
    now apply fmap_sublist.
Qed.

Lemma clear_all_consistent (s : State) : consistent s -> consistent (clear_all s).
Proof.
  intros [Hz Ha Hbase Hp Hanch Hsel Hb Hnd]. unfold clear_all.
  apply update_page_display_consistent; simpl;
    try assumption; try constructor; discriminate.
Qed.

Lemma update_page_display_length (s : State) :
  length (signature_elements (update_page_display s)) = length (signature_elements s).
Proof.
  pose proof (update_page_display_kept s) as H. unfold kept in H.
  injection H as _ _ _ _ _ _ Hm.
  rewrite <- (length_map stored), Hm. apply length_map.
Qed.

Lemma on_element_select_consistent index (s : State) :
  consistent s -> consistent (on_element_select index s).
Proof.
  intros H. unfold on_element_select.
  destruct (signature_elements s !! index) as [e|] eqn:He; [|exact H].
  pose proof H as [Hz Ha Hbase Hp Hanch Hsel Hb Hnd].
  apply lookup_lt_Some in He as Hlt.
  destruct (negb (Nat.eqb (page_num e) (current_page s))).
  - apply consistent_set_selected.
    + apply update_page_display_consistent; try assumption.
      intros _. simpl. exact (Forall_lookup_1 _ _ _ _ Hanch He).
    + intros i Hi. injection Hi as <-. now rewrite update_page_display_length.
  - apply consistent_set_selected; [exact H|].
    intros i Hi. now injection Hi as <-.
Qed.

Lemma save_pdf_state now (s : State) :
  exists imgs, fst (save_pdf thumbnail save_png now s) = set_images imgs s
               /\ images s ⊆ imgs.
Proof.
  unfold save_pdf.
  destruct (doc_loaded s); cbn [negb];
    [|exists (images s); now rewrite set_images_same].
  destruct (signature_elements s) as [|e els] eqn:Hels;
    [exists (images s); now rewrite set_images_same|].
  pose proof (export_pages_heap thumbnail save_png (base_scale_factor s) (e :: els)
                (seq 0 (page_count s)) (images s)) as Hh.
  destruct (export_pages thumbnail save_png (base_scale_factor s) (e :: els)
              (seq 0 (page_count s)) (images s)) as [imgs [placed|]];
    exists imgs; now split.
Qed.

Lemma save_pdf_consistent now (s : State) :
  consistent s -> consistent (fst (save_pdf thumbnail save_png now s)).
Proof.
  intros H. destruct (save_pdf_state now s) as (imgs & -> & Hsub).
  now apply consistent_set_images.
Qed.

Lemma start_text_editing_consistent i (u : Ui) :
  consistent (app u) -> consistent (app (start_text_editing i u)).
Proof.
  intros H. unfold start_text_editing.
  destruct (signature_elements (app u) !! i) as [e|]; [|exact H].
  destruct (content e); [exact H|].
  cbn [app]. apply consistent_set_canvas; [exact H|].
  cbn [canvas_create_window next_id]. rewrite next_id_canvas_delete_drawn. lia.
Qed.

Lemma type_text_app t (u : Ui) : app (type_text t u) = app u.
Proof. unfold type_text. now destruct (text_entry u). Qed.

Lemma close_entry_app i e1 (u : Ui) :
  alive (images (app u)) e1 ->
  app (close_entry i e1 u)
  = set_canvas
      (show_selection_border (zoom_level (app u))
         (set_canvas_id (Some (next_id (canvas (app u)))) e1)
         (snd (canvas_create (drawn_shape (zoom_level (app u)) e1) "signature"
                 (canvas (app u)))))
      (set_elements
         (<[i := set_canvas_id (Some (next_id (canvas (app u)))) e1]>
            (signature_elements (app u))) (app u)).
Proof.
  intros Ha. unfold close_entry. now rewrite (draw_element_drawn _ _ _ _ Ha).
Qed.

Lemma close_entry_consistent i e e1 (u : Ui) :
  consistent (app u) ->
  signature_elements (app u) !! i = Some e ->
  alive (images (app u)) e1 -> page_num e1 = page_num e ->
  consistent (app (close_entry i e1 u)).
Proof.
  intros H He Ha Hp. rewrite (close_entry_app i e1 u Ha).
  apply (consistent_replace (app u) i e); auto.
  right. eexists. split; [reflexivity|]. simpl. lia.
Qed.

Lemma finish_text_editing_consistent i (u : Ui) :
  consistent (app u) -> consistent (app (finish_text_editing i u)).
Proof.
  intros H. unfold finish_text_editing.
  destruct (text_entry u) as [en|]; [|exact H].
  destruct (negb (is_editing_text u)); [exact H|].
  destruct (signature_elements (app u) !! i) as [e|] eqn:He; [|exact H].
  destruct (content e); [exact H|].
  apply (close_entry_consistent i e); auto.
  - intros r Hr. destruct (strip (entry_text en)); discriminate Hr.
  - now destruct (strip (entry_text en)).
Qed.

Lemma cancel_text_editing_consistent i (u : Ui) :
  consistent (app u) -> consistent (app (cancel_text_editing i u)).
Proof.
  intros H. unfold cancel_text_editing.
  destruct (text_entry u) as [en|]; [|exact H].
  destruct (negb (is_editing_text u)); [exact H|].
  destruct (signature_elements (app u) !! i) as [e|] eqn:He; [|exact H].
  destruct (content e) as [r|txt] eqn:Hc; [exact H|].
  apply (close_entry_consistent i e); auto.
  - intros r Hr. destruct (String.eqb txt "Click to edit text"); simpl in Hr; congruence.
  - now destruct (String.eqb txt "Click to edit text").
Qed.

Lemma start_text_editing_removed_consistent e (u : Ui) :
  consistent (app u) -> consistent (app (start_text_editing_removed e u)).
Proof.
  intros H. unfold start_text_editing_removed.
  destruct (content e); [exact H|].
  cbn [app]. apply consistent_set_canvas; [exact H|].
  cbn [canvas_create_window next_id]. rewrite next_id_canvas_delete_drawn. lia.
Qed.

Lemma close_entry_removed_app e1 (u : Ui) :
  alive (images (app u)) e1 ->
  app (close_entry_removed e1 u)
  = set_canvas
      (show_selection_border (zoom_level (app u))
         (set_canvas_id (Some (next_id (canvas (app u)))) e1)
         (snd (canvas_create (drawn_shape (zoom_level (app u)) e1) "signature"
                 (canvas (app u)))))
      (app u).
Proof.
  intros Ha. unfold close_entry_removed. now rewrite (draw_element_drawn _ _ _ _ Ha).
Qed.

Lemma close_entry_removed_consistent e1 (u : Ui) :
  consistent (app u) -> alive (images (app u)) e1 ->
  consistent (app (close_entry_removed e1 u)).
Proof.
  intros H Ha. rewrite (close_entry_removed_app e1 u Ha).
  apply consistent_set_canvas; [exact H|]. simpl. lia.
Qed.

Lemma finish_text_editing_removed_consistent e (u : Ui) :
  consistent (app u) -> consistent (app (finish_text_editing_removed e u)).
Proof.
  intros H. unfold finish_text_editing_removed.
  destruct (text_entry u) as [en|]; [|exact H].
  destruct (negb (is_editing_text u)); [exact H|].
  destruct (content e); [exact H|].
  apply close_entry_removed_consistent; [exact H|].
  intros r Hr. destruct (strip (entry_text en)); discriminate Hr.
Qed.

Lemma cancel_text_editing_removed_consistent e (u : Ui) :
  consistent (app u) -> consistent (app (cancel_text_editing_removed e u)).
Proof.
  intros H. unfold cancel_text_editing_removed.
  destruct (text_entry u) as [en|]; [|exact H].
  destruct (negb (is_editing_text u)); [exact H|].
  destruct (content e) as [r|txt] eqn:Hc; [exact H|].
  apply close_entry_removed_consistent; [exact H|].
  intros r Hr. destruct (String.eqb txt "Click to edit text"); simpl in Hr; congruence.
Qed.

Lemma save_signature_name_consistent entered (s : State) :
  consistent s -> consistent (save_signature_name entered s).
Proof.
  intros H. unfold save_signature_name.
  destruct (strip entered); [exact H|].
  destruct H as [Hz Ha Hbase Hp Hanch Hsel Hb Hnd]. now constructor.
Qed.

Lemma remove_size_feedback_consistent (s : State) :
  consistent s -> consistent (remove_size_feedback s).
Proof.
  intros H. unfold remove_size_feedback.
  apply consistent_set_canvas; [exact H|]. simpl. lia.
Qed.

Lemma initial_state_consistent name : consistent (initial_state (Image := Image) name).
Proof.
  constructor; simpl; try constructor; try discriminate; lra.
Qed.

Lemma handle_consistent ev (u : Ui) :
  consistent (app u) ->
  consistent (app (handle image_eq thumbnail save_png ev u)).
Proof.
  intros H. destruct ev; cbn [handle on_app app].
  - now apply open_pdf_consistent.
  - now apply zoom_op_consistent.
  - now apply prev_page_consistent.
  - now apply next_page_consistent.
  - now apply add_image_signature_consistent.
  - now apply add_text_signature_consistent.
  - now apply on_canvas_click_consistent.
  - unfold on_double_click. destruct (selected_element (app u)); [|exact H].
    now apply start_text_editing_consistent.
  - now apply on_canvas_drag_consistent.
  - now apply on_ctrl_scroll_consistent.
  - now apply on_element_select_consistent.
  - now apply change_selected_text_color_consistent.
  - now apply delete_selected_consistent.
  - now apply clear_all_consistent.
  - now apply save_pdf_consistent.
  - now apply start_text_editing_consistent.
  - now rewrite type_text_app.
  - now apply finish_text_editing_consistent.
  - now apply cancel_text_editing_consistent.
  - now apply start_text_editing_removed_consistent.
  - now apply finish_text_editing_removed_consistent.
  - now apply cancel_text_editing_removed_consistent.
  - now apply save_signature_name_consistent.
  - now apply remove_size_feedback_consistent.
Qed.

Lemma run_consistent evs (u : Ui) :
  consistent (app u) ->
  consistent (app (run image_eq thumbnail save_png evs u)).
Proof.
  revert u. induction evs as [|ev evs IH]; intros u H; [exact H|].
  unfold run in *. simpl. apply IH. now apply handle_consistent.
Qed.

(** Whatever the user does after the start of the application, the
    session stays consistent: the zoom level is between 0.5 and 3.0, image
    elements refer to live images, an open document has a positive base
    scale and its current page exists, every element is anchored to a
    page of the document, the selected element is in the list, and the
    elements hold pairwise different canvas ids that the canvas has handed
    out. *)
Theorem sessions_stay_consistent (evs : list (@Event Image)) (name : string) :
  consistent (app (run image_eq thumbnail save_png evs (started name))).
Proof. apply run_consistent, initial_state_consistent. Qed.

(** ** The export, written out *)

Lemma export_element_placed b (imgs0 imgs : gmap nat Image) e :
  Qeq_bool b 0 = false -> imgs0 ⊆ imgs -> alive imgs0 e ->
  exists imgs' c,
    export_element thumbnail save_png (Some b) e imgs = (imgs', Some c)
    /\ imgs ⊆ imgs'
    /\ placed thumbnail save_png b imgs0 e = Some c.
Proof.
  intros Hb Hsub Ha. unfold export_element, placed.
  destruct (content e) as [ref|txt] eqn:Hc.
  - destruct (Ha ref Hc) as [img Himg].
    rewrite Himg, (lookup_weaken _ _ _ _ Himg Hsub).
    rewrite alter_insert_eq, lookup_insert_eq.
    rewrite !(over_base_scale_value b _ Hb). cbn.
    eexists _, _. split; [reflexivity|]. split; [|reflexivity].
    apply insert_subseteq, not_elem_of_dom, is_fresh.
  - rewrite !(over_base_scale_value b _ Hb). cbn.
    eexists _, _. split; [reflexivity|]. split; reflexivity.
Qed.

Lemma export_elements_placed b (imgs0 : gmap nat Image) els :
  Qeq_bool b 0 = false -> Forall (alive imgs0) els ->
  forall imgs, imgs0 ⊆ imgs ->
  exists imgs' cmds,
    export_elements thumbnail save_png (Some b) els imgs = (imgs', Some cmds)
    /\ imgs ⊆ imgs'
    /\ Forall2 (fun e c => placed thumbnail save_png b imgs0 e = Some c) els cmds.
Proof.
  intros Hb Ha. induction Ha as [|e rest He _ IH]; intros imgs Hsub.
  - exists imgs, []. repeat split; [reflexivity|constructor].
  - destruct (export_element_placed b imgs0 imgs e Hb Hsub He)
      as (imgs1 & c & Hx & Hsub1 & Hc).
    destruct (IH imgs1 ltac:(now transitivity imgs)) as (imgs2 & cmds & Hxs & Hsub2 & Hcs).
    exists imgs2, (c :: cmds). simpl. rewrite Hx, Hxs. cbn.
    repeat split; [now transitivity imgs1|now constructor].
Qed.

Lemma page_elements_alive (imgs : gmap nat Image) page els :
  Forall (alive imgs) els -> Forall (alive imgs) (page_elements page els).
Proof.
  intros H. apply Forall_forall. intros e He. rewrite Forall_forall in H.
  apply H. unfold page_elements in He.
  apply list_elem_of_In in He. apply filter_In in He as [He _].
  now apply list_elem_of_In.
Qed.

Lemma export_pages_placed b (imgs0 : gmap nat Image) els pl :
  Qeq_bool b 0 = false -> Forall (alive imgs0) els ->
  forall imgs, imgs0 ⊆ imgs ->
  exists imgs' bodies,
    export_pages thumbnail save_png (Some b) els pl imgs = (imgs', Some bodies)
    /\ imgs ⊆ imgs'
    /\ Forall2 (fun page body =>
                  Forall2 (fun e c => placed thumbnail save_png b imgs0 e = Some c)
                    (page_elements page els) body) pl bodies.
Proof.
  intros Hb Ha. induction pl as [|page pl IH]; intros imgs Hsub.
  - exists imgs, []. repeat split; [reflexivity|constructor].
  - destruct (export_elements_placed b imgs0 (page_elements page els) Hb
                (page_elements_alive imgs0 page els Ha) imgs Hsub)
      as (imgs1 & body & Hx & Hsub1 & Hbody).
    destruct (IH imgs1 ltac:(now transitivity imgs))
      as (imgs2 & bodies & Hxs & Hsub2 & Hbodies).
    exists imgs2, (body :: bodies). simpl. rewrite Hx, Hxs. cbn.
    repeat split; [now transitivity imgs1|now constructor].
Qed.

Lemma Qeq_bool_nonzero b : ~ b == 0 -> Qeq_bool b 0 = false.
Proof.
  intros H. destruct (Qeq_bool b 0) eqn:E; [|reflexivity].
  apply Qeq_bool_iff in E. contradiction.
Qed.

Lemma save_pdf_saved now (s : State) b :
  doc_loaded s = true ->
  signature_elements s <> [] ->
  base_scale_factor s = Some b -> ~ b == 0 ->
  Forall (alive (images s)) (signature_elements s) ->
  exists bodies,
    snd (save_pdf thumbnail save_png now s)
    = Saved (output_filename (pdf_file_name s) (signature_name s))
        (imap (fun page body =>
                 (body ++ signature_info (Some b)
                            ("Signed by " ++ signature_name s ++ newline ++ now)
                            page (signature_elements s))%list) bodies)
    /\ Forall2 (fun page body =>
                  Forall2 (fun e c => placed thumbnail save_png b (images s) e = Some c)
                    (page_elements page (signature_elements s)) body)
         (seq 0 (page_count s)) bodies.
Proof.
  intros Hl Hne Hbs Hb Ha. apply Qeq_bool_nonzero in Hb.
  destruct (export_pages_placed b (images s) (signature_elements s)
              (seq 0 (page_count s)) Hb Ha (images s) ltac:(reflexivity))
    as (imgs' & bodies & Hx & _ & Hbodies).
  exists bodies. split; [|exact Hbodies].
  unfold save_pdf. rewrite Hl. cbn [negb].
  destruct (signature_elements s) as [|e els] eqn:Hels; [congruence|].
  rewrite Hbs, Hx. reflexivity.
Qed.

(** With a document open, at least one element, a base scale that is not
    zero and live images, the export completes; its result has one entry
    per page of the document, and the entry of a page consists of one
    placement per element of that page, in list order and as [placed]
    describes it (from the element's own image, untouched by the copies
    made before), followed by the signature info of the page. *)
Theorem export_places_every_element now (s : State) b :
  doc_loaded s = true ->
  signature_elements s <> [] ->
  base_scale_factor s = Some b -> ~ b == 0 ->
  Forall (alive (images s)) (signature_elements s) ->
  exists pages,
    snd (save_pdf thumbnail save_png now s)
    = Saved (output_filename (pdf_file_name s) (signature_name s)) pages
    /\ length pages = page_count s
    /\ forall page cmds, pages !! page = Some cmds ->
         exists body,
           cmds = (body ++ signature_info (Some b)
                             ("Signed by " ++ signature_name s ++ newline ++ now)
                             page (signature_elements s))%list
           /\ Forall2 (fun e c => placed thumbnail save_png b (images s) e = Some c)
                (page_elements page (signature_elements s)) body.
Proof.
  intros Hl Hne Hbs Hb Ha.
  destruct (save_pdf_saved now s b Hl Hne Hbs Hb Ha) as (bodies & Hs & Hbodies).
  eexists. split; [exact Hs|].
  pose proof (Forall2_length _ _ _ Hbodies) as Hlen. rewrite length_seq in Hlen.
  split; [now rewrite length_imap|].
  intros page cmds Hp. rewrite list_lookup_imap in Hp.
  destruct (bodies !! page) as [body|] eqn:Hbody; [|discriminate].
  cbn in Hp. injection Hp as <-. exists body. split; [reflexivity|].
  assert (Hseq : seq 0 (page_count s) !! page = Some page).
  { apply lookup_seq_lt. apply lookup_lt_Some in Hbody. lia. }
  exact (Forall2_lookup_lr _ _ _ _ _ _ Hbodies Hseq Hbody).
Qed.

(** ** Exporting a session *)

Lemma session_export_saved now (s : State) :
  consistent s -> doc_loaded s = true -> signature_elements s <> [] ->
  exists b bodies,
    base_scale_factor s = Some b /\ 0 < b
    /\ snd (save_pdf thumbnail save_png now s)
       = Saved (output_filename (pdf_file_name s) (signature_name s))
           (imap (fun page body =>
                    (body ++ signature_info (Some b)
                               ("Signed by " ++ signature_name s ++ newline ++ now)
                               page (signature_elements s))%list) bodies)
    /\ Forall2 (fun page body =>
                  Forall2 (fun e c => placed thumbnail save_png b (images s) e = Some c)
                    (page_elements page (signature_elements s)) body)
         (seq 0 (page_count s)) bodies.
Proof.
  intros H Hl Hne.
  destruct (base_scale_positive s H Hl) as (b & Hbs & Hb).
  assert (Hb0 : ~ b == 0) by lra.
  destruct (save_pdf_saved now s b Hl Hne Hbs Hb0 (images_alive s H))
    as (bodies & Hs & Hbodies).
  now exists b, bodies.
Qed.

Lemma placed_is_not_info info b (imgs : gmap nat Image) e c :
  placed thumbnail save_png b imgs e = Some c -> is_signature_info info c = false.
Proof.
  unfold placed. destruct (content e) as [ref|txt].
  - destruct (imgs !! ref); [|discriminate]. now intros [= <-].
  - intros [= <-]. apply element_text_is_not_info.
Qed.

Lemma signature_info_is_info bs info page els :
  Forall (fun c => is_signature_info info c = true) (signature_info bs info page els).
Proof.
  unfold signature_info.
  destruct (existsb is_image (page_elements page els)); [|constructor].
  destruct (List.filter is_image (page_elements page els)) as [|e rest]; [constructor|].
  destruct (over_base_scale bs (x e)); [|constructor].
  destruct (over_base_scale bs (y e)); constructor; [|constructor].
  simpl. now rewrite String.eqb_refl.
Qed.

Lemma count_placements info b (imgs : gmap nat Image) l body tail :
  Forall2 (fun e c => placed thumbnail save_png b imgs e = Some c) l body ->
  Forall (fun c => is_signature_info info c = true) tail ->
  List.filter (fun c => negb (is_signature_info info c)) (body ++ tail) = body.
Proof.
  intros Hb Ht. rewrite List.filter_app.
  replace (List.filter (fun c => negb (is_signature_info info c)) tail) with (@nil Placement).
  - rewrite app_nil_r. induction Hb as [|e c l body Hc _ IH]; [reflexivity|].
    simpl. now rewrite (placed_is_not_info info _ _ _ _ Hc), IH.
  - induction Ht as [|c tail Hc _ IH]; [reflexivity|]. simpl. now rewrite Hc.
Qed.

Lemma count_bodies info b (imgs : gmap nat Image) els bs n :
  forall a bodies,
  Forall2 (fun page body =>
             Forall2 (fun e c => placed thumbnail save_png b imgs e = Some c)
               (page_elements page els) body) (seq a n) bodies ->
  length (List.filter (fun c => negb (is_signature_info info c))
            (concat (imap (fun k body =>
                             (body ++ signature_info bs info (a + k) els)%list) bodies)))
  = length (concat (List.map (fun page => page_elements page els) (seq a n))).
Proof.
  induction n as [|n IH]; intros a bodies Hf; simpl in Hf.
  - apply Forall2_nil_inv_l in Hf as ->. reflexivity.
  - apply Forall2_cons_inv_l in Hf as (body & rest & Hbody & Hrest & ->).
    cbn [imap concat List.map seq]. rewrite List.filter_app, !length_app.
    rewrite Nat.add_0_r.
    rewrite (count_placements info b imgs _ body _ Hbody
               (signature_info_is_info bs info a els)).
    rewrite (Forall2_length _ _ _ Hbody). f_equal.
    rewrite <- (IH (S a) rest Hrest). do 3 f_equal.
    apply imap_ext. intros k c _. simpl. do 2 f_equal. lia.
Qed.

Lemma filter_length_split {A : Type} (p q : A -> bool) l :
  (forall a, p a = true -> q a = true -> False) ->
  length (List.filter (fun a => p a || q a) l)
  = (length (List.filter p l) + length (List.filter q l))%nat.
Proof.
  intros Hd. induction l as [|a l IH]; [reflexivity|]. simpl.
  destruct (p a) eqn:Hp, (q a) eqn:Hq; simpl; rewrite IH; try lia.
  exfalso. now apply (Hd a).
Qed.

Lemma elements_by_page els n :
  length (concat (List.map (fun page => page_elements page els) (seq 0 n)))
  = length (List.filter (fun e => Nat.ltb (page_num e) n) els).
Proof.
  induction n as [|n IH].
  - simpl. induction els as [|e els IHe]; [reflexivity|exact IHe].
  - rewrite seq_S, map_app, concat_app, length_app, IH. simpl.
    rewrite app_nil_r. unfold page_elements.
    rewrite <- filter_length_split.
    + f_equal. apply filter_ext. intros e.
      destruct (Nat.ltb_spec (page_num e) n), (Nat.eqb_spec (page_num e) n),
               (Nat.ltb_spec (page_num e) (S n)); simpl; try reflexivity; lia.
    + intros e H1 H2. apply Nat.ltb_lt in H1. apply Nat.eqb_eq in H2. lia.
Qed.

Lemma filter_all {A : Type} (p : A -> bool) l :
  Forall (fun a => p a = true) l -> List.filter p l = l.
Proof. induction 1 as [|a l Ha _ IH]; simpl; [reflexivity|]. now rewrite Ha, IH. Qed.

(** In a session, a completed export places every element exactly once:
    apart from the signature infos, the pages together hold as many
    placements as there are elements. *)
Theorem sessions_export_every_element_once (evs : list (@Event Image))
    (name now : string) :
  match snd (save_pdf thumbnail save_png now
               (app (run image_eq thumbnail save_png evs (started name)))) with
  | Saved _ pages =>
      length
        (List.filter
           (fun c =>
              negb (is_signature_info
                      ("Signed by "
                       ++ signature_name
                            (app (run image_eq thumbnail save_png evs (started name)))
                       ++ newline ++ now) c))
           (concat pages))
      = length (signature_elements
                  (app (run image_eq thumbnail save_png evs (started name))))
  | _ => True
  end.
Proof.
  pose proof (run_consistent evs (started name) (initial_state_consistent name)) as H.
  set (s := app (run image_eq thumbnail save_png evs (started name))) in *.
  destruct (doc_loaded s) eqn:Hl; [|unfold save_pdf; now rewrite Hl].
  destruct (signature_elements s) as [|e0 els0] eqn:Hels;
    [unfold save_pdf; now rewrite Hl, Hels|].
  destruct (session_export_saved now s H Hl) as (b & bodies & _ & _ & Hs & Hb).
  { now rewrite Hels. }
  rewrite Hs, <- Hels.
  rewrite (count_bodies _ b (images s) (signature_elements s) (Some b)
             (page_count s) 0 bodies Hb).
  rewrite elements_by_page. f_equal. apply filter_all.
  eapply Forall_impl; [exact (elements_anchored s H)|].
  intros e He. now apply Nat.ltb_lt.
Qed.

(** ** Hit testing *)

Lemma find_clicked_sound item cur els :
  forall k j, find_clicked item cur k els = Some j ->
  exists i e, j = (k + i)%nat /\ els !! i = Some e
              /\ canvas_id e = Some item /\ page_num e = cur.
Proof.
  induction els as [|e rest IH]; intros k j H; simpl in H; [discriminate|].
  destruct (canvas_id e) as [id|] eqn:Hid.
  - destruct (Nat.eqb id item && Nat.eqb (page_num e) cur) eqn:Hm.
    + injection H as <-. apply andb_true_iff in Hm as [H1 H2].
      apply Nat.eqb_eq in H1, H2. exists 0%nat, e.
      repeat split; [lia|congruence|exact H2].
    + destruct (IH _ _ H) as (i & e' & -> & He' & Hc & Hp).
      exists (S i), e'. repeat split; [lia|exact He'|exact Hc|exact Hp].
  - simpl in H. destruct (IH _ _ H) as (i & e' & -> & He' & Hc & Hp).
    exists (S i), e'. repeat split; [lia|exact He'|exact Hc|exact Hp].
Qed.

Lemma find_clicked_complete item cur els :
  NoDup (List.map canvas_id els) ->
  forall k i e, els !! i = Some e -> canvas_id e = Some item -> page_num e = cur ->
  find_clicked item cur k els = Some (k + i)%nat.
Proof.
  induction els as [|e0 rest IH]; intros Hnd k i e Hi Hc Hp; [discriminate|].
  simpl in Hnd. apply NoDup_cons in Hnd as [Hnot Hnd].
  destruct i as [|i]; simpl in Hi.
  - injection Hi as ->. simpl. rewrite Hc, Hp, !Nat.eqb_refl. simpl.
    now rewrite Nat.add_0_r.
  - simpl. destruct (canvas_id e0) as [id|] eqn:Hid.
    + destruct (Nat.eqb_spec id item) as [->|Hne].
      * exfalso. apply Hnot. apply elem_of_map. exists e.
        split; [congruence|]. now apply list_elem_of_lookup_2 in Hi.
      * simpl. rewrite (IH Hnd (S k) i e Hi Hc Hp). f_equal. lia.
    + simpl. rewrite (IH Hnd (S k) i e Hi Hc Hp). f_equal. lia.
Qed.

(** A click changes no element, and the element it selects (if any) is
    one of the page shown whose canvas item is the one that was hit. *)
Theorem click_selects_only_hit_element cx cy item (s : State) :
  signature_elements (on_canvas_click cx cy item s) = signature_elements s
  /\ forall j, selected_element (on_canvas_click cx cy item s) = Some j ->
       exists e, signature_elements s !! j = Some e
                 /\ canvas_id e = Some item /\ page_num e = current_page s.
Proof.
  unfold on_canvas_click.
  destruct (find_clicked item (current_page s) 0 (signature_elements s)) as [i|] eqn:Hf.
  - destruct (find_clicked_sound _ _ _ _ _ Hf) as (i' & e & -> & He & Hc & Hp).
    simpl in *. rewrite He. simpl. split; [reflexivity|].
    intros j Hj. injection Hj as <-. now exists e.
  - simpl. split; [reflexivity|]. discriminate.
Qed.

(** In a session, a click that hits the canvas item of an element of the
    page shown selects that element and anchors the drag at the click. *)
Theorem sessions_click_selects_drawn_element (evs : list (@Event Image))
    (name : string) cx cy i e id :
  signature_elements (app (run image_eq thumbnail save_png evs (started name))) !! i
  = Some e ->
  page_num e = current_page (app (run image_eq thumbnail save_png evs (started name))) ->
  canvas_id e = Some id ->
  selected_element
    (on_canvas_click cx cy id (app (run image_eq thumbnail save_png evs (started name))))
  = Some i
  /\ drag_data
       (on_canvas_click cx cy id (app (run image_eq thumbnail save_png evs (started name))))
     = (cx, cy).
Proof.
  pose proof (run_consistent evs (started name) (initial_state_consistent name)) as H.
  set (s := app (run image_eq thumbnail save_png evs (started name))) in *.
  intros Hi Hp Hc. unfold on_canvas_click.
  rewrite (find_clicked_complete id (current_page s) _ (handles_distinct s H)
             0 i e Hi Hc Hp).
  simpl. rewrite Hi. split; reflexivity.
Qed.

(** ** Deleting *)

Lemma element_eq_canvas_id (imgs : gmap nat Image) a b :
  element_eq image_eq imgs a b = true -> canvas_id a = canvas_id b.
Proof.
  unfold element_eq. intros H.
  apply andb_true_iff in H as [H _]. apply andb_true_iff in H as [_ H].
  destruct (canvas_id a), (canvas_id b); simpl in H; try discriminate; [|reflexivity].
  apply Nat.eqb_eq in H. now subst.
Qed.

Lemma list_remove_delete (imgs : gmap nat Image) l :
  NoDup (List.map canvas_id l) ->
  forall k i value, l !! i = Some value ->
  list_remove image_eq imgs (k + i) value k l = delete i l.
Proof.
  induction l as [|e rest IH]; intros Hnd k i value Hi; [discriminate|].
  simpl in Hnd. apply NoDup_cons in Hnd as [Hnot Hnd].
  destruct i as [|i]; simpl in Hi; simpl.
  - now rewrite Nat.add_0_r, Nat.eqb_refl.
  - destruct (Nat.eqb_spec k (k + S i)) as [Hk|_]; [lia|]. simpl.
    destruct (element_eq image_eq imgs e value) eqn:Heq.
    + exfalso. apply Hnot. apply elem_of_map. exists value.
      split; [symmetry; now apply (element_eq_canvas_id imgs)|].
      now apply list_elem_of_lookup_2 in Hi.
    + f_equal. rewrite <- (IH Hnd (S k) i value Hi). f_equal. lia.
Qed.

(** In a session, deleting removes exactly the selected element: the
    others stay, in their order, and nothing is selected afterwards. *)
Theorem sessions_delete_selected (evs : list (@Event Image)) (name : string) i :
  selected_element (app (run image_eq thumbnail save_png evs (started name))) = Some i ->
  signature_elements
    (delete_selected image_eq (app (run image_eq thumbnail save_png evs (started name))))
  = delete i (signature_elements
                (app (run image_eq thumbnail save_png evs (started name))))
  /\ selected_element
       (delete_selected image_eq
          (app (run image_eq thumbnail save_png evs (started name))))
     = None.
Proof.
  pose proof (run_consistent evs (started name) (initial_state_consistent name)) as H.
  set (s := app (run image_eq thumbnail save_png evs (started name))) in *.
  intros Hsel. unfold delete_selected. rewrite Hsel.
  destruct (lookup_lt_is_Some_2 _ _ (selection_in_list s H i Hsel)) as [e He].
  rewrite He. simpl. split; [|reflexivity].
  exact (list_remove_delete (images s) _ (handles_distinct s H) 0 i e He).
Qed.

(** ** Selecting from the list, colouring *)

(** Choosing a row of the element list shows the page of that element
    and selects it; no stored field of any element changes. *)
Theorem on_element_select_shows_and_selects index (s : State) e :
  signature_elements s !! index = Some e ->
  current_page (on_element_select index s) = page_num e
  /\ selected_element (on_element_select index s) = Some index
  /\ List.map stored (signature_elements (on_element_select index s))
     = List.map stored (signature_elements s).
Proof.
  intros He. unfold on_element_select. rewrite He.
  destruct (Nat.eqb_spec (page_num e) (current_page s)) as [Heq|Hne]; simpl.
  - repeat split. now rewrite Heq.
  - pose proof (update_page_display_kept (set_current_page (page_num e) s)) as Hk.
    unfold kept in Hk. injection Hk as _ _ Hc _ _ _ Hm.
    repeat split; assumption.
Qed.

(** Applying a colour changes the colour of the selected text element and
    no other stored field of any element; with an image or nothing
    selected it changes nothing at all. *)
Theorem change_selected_text_color_only_colours c (s : State) :
  match selected_element s with
  | Some i =>
      match signature_elements s !! i with
      | Some e =>
          if is_text e
          then List.map stored (signature_elements (change_selected_text_color c s))
               = List.map stored (<[i := set_text_color c e]> (signature_elements s))
          else change_selected_text_color c s = s
      | None => change_selected_text_color c s = s
      end
  | None => change_selected_text_color c s = s
  end.
Proof.
  unfold change_selected_text_color.
  destruct (selected_element s) as [i|]; [|reflexivity].
  destruct (signature_elements s !! i) as [e|]; [|reflexivity].
  destruct (is_text e); [|reflexivity].
  match goal with
  | |- context [draw_element_on_canvas ?z ?im ?el ?cv] =>
      pose proof (draw_element_stored z im el cv) as Hd;
      destruct (draw_element_on_canvas z im el cv) as [e2 cv2]
  end.
  cbn [fst] in Hd. cbn [signature_elements set_canvas set_elements].
  rewrite !map_is_fmap, !list_fmap_insert. now rewrite Hd.
Qed.

(** ** Inline text editing *)

Lemma lstrip_head s :
  lstrip s = EmptyString
  \/ exists c r, lstrip s = String c r /\ isspace c = false.
Proof.
  induction s as [|c r IH]; simpl; [now left|].
  destruct (isspace c) eqn:Hc; [exact IH|]. right. now exists c, r.
Qed.

Lemma rstrip_head c r :
  isspace c = false -> exists r', rstrip (String c r) = String c r'.
Proof.
  intros Hc. simpl. destruct (rstrip r) as [|c' r'']; rewrite ?Hc; eauto.
Qed.

Lemma rstrip_idempotent s : rstrip (rstrip s) = rstrip s.
Proof.
  induction s as [|c r IH]; simpl; [reflexivity|].
  destruct (rstrip r) as [|c' r'] eqn:Hr.
  - destruct (isspace c) eqn:Hc; simpl; [reflexivity|now rewrite Hc].
  - change (rstrip (String c (String c' r'))) with
      (match rstrip (String c' r') with
       | EmptyString => if isspace c then EmptyString else String c EmptyString
       | String a b => String c (String a b)
       end).
    now rewrite IH.
Qed.

Lemma strip_idempotent s : strip (strip s) = strip s.
Proof.
  unfold strip. destruct (lstrip_head s) as [->|(c & r & -> & Hc)]; [reflexivity|].
  destruct (rstrip_head c r Hc) as [r' Hr]. rewrite Hr at 1.
  simpl lstrip. rewrite Hc, <- Hr. apply rstrip_idempotent.
Qed.

Lemma close_entry_closed i e1 (u : Ui) :
  is_editing_text (close_entry i e1 u) = false
  /\ text_entry (close_entry i e1 u) = None.
Proof.
  unfold close_entry.
  destruct (draw_element_on_canvas _ _ _ _) as [e2 cv2]. now split.
Qed.

Lemma close_entry_elements i e e1 (u : Ui) :
  signature_elements (app u) !! i = Some e ->
  exists e2,
    stored e2 = stored e1
    /\ signature_elements (app (close_entry i e1 u))
       = <[i := e2]> (signature_elements (app u)).
Proof.
  intros He. unfold close_entry.
  match goal with
  | |- context [draw_element_on_canvas ?z ?im ?el ?cv] =>
      pose proof (draw_element_stored z im el cv) as Hd;
      destruct (draw_element_on_canvas z im el cv) as [e2 cv2]
  end.
  exists e2. split; [exact Hd|reflexivity].
Qed.

(** Confirming an edit of the text element at [i] sets its text to what
    was typed without surrounding blanks, or to ["Text"] when nothing but
    blanks was typed: never to the empty string.  Nothing else of the
    element and no other element changes, and the editing is over. *)
Theorem finish_text_editing_sets_trimmed_text i (u : Ui) en e old :
  is_editing_text u = true ->
  text_entry u = Some en ->
  signature_elements (app u) !! i = Some e ->
  content e = TextContent old ->
  List.map stored (signature_elements (app (finish_text_editing i u)))
  = List.map stored
      (<[i := set_content (TextContent (confirmed_text (entry_text en))) e]>
         (signature_elements (app u)))
  /\ confirmed_text (entry_text en) <> EmptyString
  /\ strip (confirmed_text (entry_text en)) = confirmed_text (entry_text en)
  /\ is_editing_text (finish_text_editing i u) = false
  /\ text_entry (finish_text_editing i u) = None.
Proof.
  intros Hed Hen He Hc. unfold finish_text_editing.
  rewrite Hen, Hed, He, Hc. cbn [negb].
  assert (Hct : forall (e0 : SignatureElement),
             match strip (entry_text en) with
             | EmptyString => set_content (TextContent "Text") e0
             | String _ _ => set_content (TextContent (strip (entry_text en))) e0
             end = set_content (TextContent (confirmed_text (entry_text en))) e0).
  { intros e0. unfold confirmed_text. now destruct (strip (entry_text en)). }
  rewrite Hct.
  destruct (close_entry_elements i e
              (set_content (TextContent (confirmed_text (entry_text en))) e) u He)
    as (e2 & Hst & ->).
  split; [|split; [|split]].
  - rewrite !map_is_fmap, !list_fmap_insert. now rewrite Hst.
  - unfold confirmed_text. destruct (strip (entry_text en)); discriminate.
  - unfold confirmed_text. destruct (strip (entry_text en)) eqn:Hs; [reflexivity|].
    rewrite <- Hs. apply strip_idempotent.
  - apply close_entry_closed.
Qed.

(** Cancelling an edit leaves every stored field of every element as it
    was (the text too, unless it is the placeholder ["Click to edit
    text"]), and the editing is over. *)
Theorem cancel_text_editing_keeps_text i (u : Ui) en e old :
  is_editing_text u = true ->
  text_entry u = Some en ->
  signature_elements (app u) !! i = Some e ->
  content e = TextContent old ->
  old <> "Click to edit text" ->
  List.map stored (signature_elements (app (cancel_text_editing i u)))
  = List.map stored (signature_elements (app u))
  /\ is_editing_text (cancel_text_editing i u) = false
  /\ text_entry (cancel_text_editing i u) = None.
Proof.
  intros Hed Hen He Hc Hold. unfold cancel_text_editing.
  rewrite Hen, Hed, He, Hc. cbn [negb].
  destruct (String.eqb_spec old "Click to edit text") as [Heq|_]; [contradiction|].
  destruct (close_entry_elements i e e u He) as (e2 & Hst & ->).
  split; [|apply close_entry_closed].
  rewrite !map_is_fmap, list_fmap_insert, Hst, <- map_is_fmap.
  rewrite list_insert_id; [reflexivity|].
  now rewrite map_is_fmap, list_lookup_fmap, He.
Qed.

(** Once an edit is confirmed, a second confirmation (Return followed by
    the loss of focus) or a cancellation does nothing. *)
Theorem finish_text_editing_once i j (u : Ui) en e old :
  is_editing_text u = true ->
  text_entry u = Some en ->
  signature_elements (app u) !! i = Some e ->
  content e = TextContent old ->
  finish_text_editing j (finish_text_editing i u) = finish_text_editing i u
  /\ cancel_text_editing j (finish_text_editing i u) = finish_text_editing i u.
Proof.
  intros Hed Hen He Hc.
  assert (Hnone : text_entry (finish_text_editing i u) = None).
  { unfold finish_text_editing. rewrite Hen, Hed, He, Hc. cbn [negb].
    apply close_entry_closed. }
  unfold finish_text_editing at 1, cancel_text_editing at 1.
  now rewrite Hnone.
Qed.

End Sessions.

(** * More on the file name *)

Lemma name_char_facts c :
  name_char c = true ->
  keep_char c = true /\ isspace c = false /\ Ascii.eqb c " " = false.
Proof.
  destruct c as [[] [] [] [] [] [] [] []]; vm_compute; intros H;
    first [discriminate H | repeat split].
Qed.

Lemma join_if_kept keep s : all_chars keep s = true -> join_if keep s = s.
Proof.
  induction s as [|c r IH]; simpl; [reflexivity|].
  intros H. apply andb_true_iff in H as [Hc Hr]. now rewrite Hc, IH.
Qed.

Lemma rstrip_no_blank s :
  all_chars (fun c => negb (isspace c)) s = true -> rstrip s = s.
Proof.
  induction s as [|c r IH]; simpl; [reflexivity|].
  intros H. apply andb_true_iff in H as [Hc Hr]. rewrite (IH Hr).
  apply negb_true_iff in Hc. rewrite Hc. now destruct r.
Qed.

Lemma replace_char_absent a b s :
  all_chars (fun c => negb (Ascii.eqb c a)) s = true -> replace_char a b s = s.
Proof.
  induction s as [|c r IH]; simpl; [reflexivity|].
  intros H. apply andb_true_iff in H as [Hc Hr]. rewrite (IH Hr).
  apply negb_true_iff in Hc. now rewrite Hc.
Qed.

Lemma all_chars_impl (p q : ascii -> bool) s :
  (forall c, p c = true -> q c = true) ->
  all_chars p s = true -> all_chars q s = true.
Proof.
  intros Hpq. induction s as [|c r IH]; simpl; [reflexivity|].
  intros H. apply andb_true_iff in H as [Hc Hr]. now rewrite (Hpq c Hc), IH.
Qed.

Lemma safe_name_of_name_chars s :
  all_chars name_char s = true -> safe_name s = s.
Proof.
  intros H. unfold safe_name.
  rewrite join_if_kept, rstrip_no_blank, replace_char_absent; try reflexivity.
  - apply (all_chars_impl name_char); [|exact H].
    intros c Hc. apply negb_true_iff. now apply name_char_facts.
  - apply (all_chars_impl name_char); [|exact H].
    intros c Hc. apply negb_true_iff. now apply name_char_facts.
  - apply (all_chars_impl name_char); [|exact H].
    intros c Hc. now apply name_char_facts.
Qed.

(** Sanitising is idempotent: a sanitised name is its own sanitised
    form, so a file name can be derived again from a derived name. *)
Theorem safe_name_idempotent (signature_name : string) :
  safe_name (safe_name signature_name) = safe_name signature_name.
Proof.
  apply safe_name_of_name_chars. unfold safe_name.
  rewrite rstrip_of_kept by apply join_if_all.
  apply replace_space_name_chars, drop_trailing_spaces_all, join_if_all.
Qed.

(** * The canvas follows the elements *)

Section Display.

Context {Image : Type}.
Variable image_eq : Image -> Image -> bool.
Variable thumbnail : Z * Z -> Image -> Image.
Variable save_png : Image -> list Byte.byte.

Local Abbreviation State := (@State Image).
Local Abbreviation Ui := (@Ui Image).












(** ** A page refresh *)






(** ** Every handler keeps the canvas in step *)


































End Display.

(** * Element sizes *)

Section Sizes.

Context {Image : Type}.
Variable image_eq : Image -> Image -> bool.
Variable thumbnail : Z * Z -> Image -> Image.
Variable save_png : Image -> list Byte.byte.

Local Abbreviation State := (@State Image).
Local Abbreviation Ui := (@Ui Image).

Lemma in_bounds_stored e e' : stored e = stored e' -> in_bounds e -> in_bounds e'.
Proof.
  unfold stored, geometry, in_bounds. intros H.
  injection H as _ _ _ Hw Hh _ _. now rewrite Hw, Hh.
Qed.

Lemma Forall_in_bounds_stored l :
  forall l', List.map stored l = List.map stored l' ->
  Forall in_bounds l -> Forall in_bounds l'.
Proof.
  induction l as [|e l IH]; intros [|e' l'] H Hf; try discriminate; [constructor|].
  cbn [List.map] in H.
  assert (He : stored e = stored e') by congruence.
  assert (Hl : List.map stored l = List.map stored l') by congruence.
  apply Forall_cons in Hf as [Hb Hf]. constructor.
  - exact (in_bounds_stored e e' He Hb).
  - now apply IH.
Qed.

Lemma update_page_display_sized (s : State) :
  Forall in_bounds (signature_elements s) ->
  Forall in_bounds (signature_elements (update_page_display s)).
Proof.
  intros H. pose proof (update_page_display_kept s) as Hk. unfold kept in Hk.
  injection Hk as _ _ _ _ _ _ Hm.
  exact (Forall_in_bounds_stored _ _ (eq_sym Hm) H).
Qed.

Lemma in_bounds_drawn zoom (imgs : gmap nat Image) e cv :
  in_bounds e -> in_bounds (fst (draw_element_on_canvas zoom imgs e cv)).
Proof.
  apply in_bounds_stored. symmetry. apply draw_element_stored.
Qed.

Lemma append_and_draw_sized e (s : State) :
  in_bounds e -> Forall in_bounds (signature_elements s) ->
  Forall in_bounds (signature_elements (append_and_draw e s)).
Proof.
  intros He H. unfold append_and_draw.
  pose proof (in_bounds_drawn (zoom_level s) (images s) e (canvas s) He) as Hd.
  destruct (draw_element_on_canvas (zoom_level s) (images s) e (canvas s)) as [e' cv].
  cbn [signature_elements set_canvas set_elements].
  apply Forall_app. split; [exact H|]. now constructor.
Qed.

Lemma clamped_in_bounds w h e :
  in_bounds (set_size (py_min 500 (py_max 20 w)) (py_min 300 (py_max 10 h)) e).
Proof.
  unfold in_bounds. cbn [width height set_size].
  destruct (py_max_cases 20 w) as [[-> ?]|[-> ?]];
    destruct (py_max_cases 10 h) as [[-> ?]|[-> ?]];
    match goal with
    | |- context [py_min 500 ?a] => destruct (py_min_cases 500 a) as [[-> ?]|[-> ?]]
    end;
    match goal with
    | |- context [py_min 300 ?a] => destruct (py_min_cases 300 a) as [[-> ?]|[-> ?]]
    end;
    repeat split; lra.
Qed.

Lemma handle_sized ev (u : Ui) :
  Forall in_bounds (signature_elements (app u)) ->
  Forall in_bounds
    (signature_elements (app (handle image_eq thumbnail save_png ev u))).
Proof.
  intros H. destruct ev; cbn [handle on_app app].
  - unfold open_pdf. apply update_page_display_sized. constructor.
  - destruct op; simpl; unfold zoom_in, zoom_out, zoom_reset;
      destruct (doc_loaded (app u)); try exact H;
      now apply update_page_display_sized.
  - unfold prev_page. destruct (_ && _); [|exact H].
    cbn [signature_elements set_selected]. now apply update_page_display_sized.
  - unfold next_page. destruct (_ && _); [|exact H].
    cbn [signature_elements set_selected]. now apply update_page_display_sized.
  - unfold add_image_signature. destruct (doc_loaded (app u)); [|exact H].
    cbn [negb]. apply append_and_draw_sized; [|exact H].
    unfold in_bounds. cbn [width height]. repeat split; lra.
  - unfold add_text_signature. destruct (doc_loaded (app u)); [|exact H].
    cbn [negb]. cbv zeta.
    match goal with
    | |- context [append_and_draw ?e (app u)] =>
        assert (H1 : Forall in_bounds (signature_elements (append_and_draw e (app u))))
          by (apply append_and_draw_sized; [|exact H];
              unfold in_bounds; cbn [width height]; repeat split; lra);
        set (s1 := append_and_draw e (app u)) in *
    end.
    now destruct (signature_elements s1 !! length (signature_elements (app u))).
  - unfold on_canvas_click.
    destruct (find_clicked _ _ _ _) as [i|];
      [destruct (signature_elements (app u) !! i)|]; exact H.
  - unfold on_double_click. destruct (selected_element (app u)) as [i|]; [|exact H].
    unfold start_text_editing.
    destruct (signature_elements (app u) !! i) as [e|]; [|exact H].
    now destruct (content e).
  - unfold on_canvas_drag. destruct (selected_element (app u)) as [i|]; [|exact H].
    destruct (signature_elements (app u) !! i) as [e|] eqn:He; [|exact H].
    cbn [signature_elements set_canvas set_elements set_drag_data].
    apply Forall_insert; [exact H|].
    exact (Forall_lookup_1 _ _ _ _ H He).
  - unfold on_ctrl_scroll. destruct (selected_element (app u)) as [i|]; [|exact H].
    destruct (signature_elements (app u) !! i) as [e|] eqn:He; [|exact H].
    cbv zeta.
    match goal with
    | |- context [draw_element_on_canvas ?z ?im ?el ?cv] =>
        pose proof (in_bounds_drawn z im el cv (clamped_in_bounds _ _ e)) as Hd;
        destruct (draw_element_on_canvas z im el cv) as [e2 cv2]
    end.
    cbn [signature_elements set_canvas set_elements].
    now apply Forall_insert.
  - unfold on_element_select.
    destruct (signature_elements (app u) !! index) as [e|]; [|exact H].
    cbn [signature_elements set_selected].
    destruct (negb _); [|exact H]. now apply update_page_display_sized.
  - unfold change_selected_text_color.
    destruct (selected_element (app u)) as [i|]; [|exact H].
    destruct (signature_elements (app u) !! i) as [e|] eqn:He; [|exact H].
    destruct (is_text e); [|exact H]. cbv zeta.
    match goal with
    | |- context [draw_element_on_canvas ?z ?im ?el ?cv] =>
        pose proof (in_bounds_drawn z im el cv (Forall_lookup_1 _ _ _ _ H He)) as Hd;
        destruct (draw_element_on_canvas z im el cv) as [e2 cv2]
    end.
    cbn [signature_elements set_canvas set_elements].
    now apply Forall_insert.
  - unfold delete_selected. destruct (selected_element (app u)) as [i|]; [|exact H].
    destruct (signature_elements (app u) !! i) as [e|]; [|exact H].
    cbn [signature_elements set_canvas set_elements set_selected].
    exact (Forall_sublist _ _ _ (list_remove_sublist image_eq _ _ _ _ _) H).
  - unfold clear_all. apply update_page_display_sized. constructor.
  - destruct (save_pdf_state thumbnail save_png now (app u)) as (imgs & -> & _).
    exact H.
  - unfold start_text_editing.
    destruct (signature_elements (app u) !! i) as [e|]; [|exact H].
    now destruct (content e).
  - now rewrite type_text_app.
  - unfold finish_text_editing.
    destruct (text_entry u) as [en|]; [|exact H].
    destruct (negb (is_editing_text u)); [exact H|].
    destruct (signature_elements (app u) !! i) as [e|] eqn:He; [|exact H].
    destruct (content e); [exact H|].
    unfold close_entry.
    match goal with
    | |- context [draw_element_on_canvas ?z ?im ?el ?cv] =>
        assert (Hd : in_bounds (fst (draw_element_on_canvas z im el cv)))
          by (apply in_bounds_drawn;
              pose proof (Forall_lookup_1 _ _ _ _ H He);
              now destruct (strip (entry_text en)));
        destruct (draw_element_on_canvas z im el cv) as [e2 cv2]
    end.
    cbn [app signature_elements set_canvas set_elements].
    now apply Forall_insert.
  - unfold cancel_text_editing.
    destruct (text_entry u) as [en|]; [|exact H].
    destruct (negb (is_editing_text u)); [exact H|].
    destruct (signature_elements (app u) !! i) as [e|] eqn:He; [|exact H].
    destruct (content e) as [r|txt]; [exact H|].
    unfold close_entry.
    match goal with
    | |- context [draw_element_on_canvas ?z ?im ?el ?cv] =>
        assert (Hd : in_bounds (fst (draw_element_on_canvas z im el cv)))
          by (apply in_bounds_drawn;
              pose proof (Forall_lookup_1 _ _ _ _ H He);
              now destruct (String.eqb txt "Click to edit text"));
        destruct (draw_element_on_canvas z im el cv) as [e2 cv2]
    end.
    cbn [app signature_elements set_canvas set_elements].
    now apply Forall_insert.
  - unfold start_text_editing_removed. now destruct (content e).
  - unfold finish_text_editing_removed.
    destruct (text_entry u) as [en|]; [|exact H].
    destruct (negb (is_editing_text u)); [exact H|].
    destruct (content e); [exact H|].
    unfold close_entry_removed.
    now destruct (draw_element_on_canvas _ _ _ _).
  - unfold cancel_text_editing_removed.
    destruct (text_entry u) as [en|]; [|exact H].
    destruct (negb (is_editing_text u)); [exact H|].
    destruct (content e); [exact H|].
    unfold close_entry_removed.
    now destruct (draw_element_on_canvas _ _ _ _).
  - unfold save_signature_name. now destruct (strip entered).
  - exact H.
Qed.

Lemma run_sized evs (u : Ui) :
  Forall in_bounds (signature_elements (app u)) ->
  Forall in_bounds
    (signature_elements (app (run image_eq thumbnail save_png evs u))).
Proof.
  revert u. induction evs as [|ev evs IH]; intros u H; [exact H|].
  unfold run in *. simpl. apply IH. now apply handle_sized.
Qed.

Lemma py_int_positive q : 1 <= q -> (0 < py_int q)%Z.
Proof.
  destruct q as [n d]. unfold py_int, Qle. simpl. intros H.
  apply Z.quot_str_pos. lia.
Qed.

(** In a session every element keeps a width between 20 and 500 and a
    height between 10 and 300, and the pixel size an element is drawn
    with (its size times the zoom level, truncated) is positive. *)
Theorem sessions_sizes_in_bounds (evs : list (@Event Image)) (name : string) i e :
  signature_elements (app (run image_eq thumbnail save_png evs (started name))) !! i
  = Some e ->
  in_bounds e
  /\ (0 < py_int (width e
                  * zoom_level (app (run image_eq thumbnail save_png evs
                                       (started name)))))%Z
  /\ (0 < py_int (height e
                  * zoom_level (app (run image_eq thumbnail save_png evs
                                       (started name)))))%Z.
Proof.
  intros He.
  assert (Hb : in_bounds e).
  { refine (Forall_lookup_1 _ _ _ _ (run_sized evs (started name) _) He).
    constructor. }
  destruct (zoom_in_range _ (run_consistent image_eq thumbnail save_png evs
                               (started name) (initial_state_consistent name)))
    as [Hz _].
  destruct Hb as (Hw & Hw' & Hh & Hh').
  split; [now repeat split|].
  split; apply py_int_positive; nra.
Qed.

End Sizes.

(** * The session theorems at concrete sessions *)

Lemma scenario_A_alive : Forall (alive (images scenario_A)) (signature_elements scenario_A).
Proof.
  repeat constructor. intros r Hr. vm_compute in Hr. injection Hr as <-.
  vm_compute. eauto.
Qed.

(** Scenario A, zoomed in twice and out once. *)
Lemma zoom_ops_stay_in_range_witness :
  0.5 <= zoom_level (zoom_ops [ZoomIn; ZoomIn; ZoomOut] scenario_A)
  /\ zoom_level (zoom_ops [ZoomIn; ZoomIn; ZoomOut] scenario_A) <= 3.0.
Proof.
  apply zoom_ops_stay_in_range. split; vm_compute; discriminate.
Defined.


(** Scenario A is refreshed: the page raster and the image. *)
Lemma refresh_draws_page_elements_witness :
  items (canvas (update_page_display scenario_A))
  = {| item_id := next_id (canvas scenario_A); item_tag := "pdf_page";
       item_shape := PageImage (fit_scale letter * zoom_level scenario_A) |}
    :: drawn_items (zoom_level scenario_A) (S (next_id (canvas scenario_A)))
         (page_elements (current_page scenario_A) (signature_elements scenario_A))
  /\ signature_elements (update_page_display scenario_A)
     = relabel (current_page scenario_A) (S (next_id (canvas scenario_A)))
         (signature_elements scenario_A).
Proof.
  apply (refresh_draws_page_elements scenario_A [letter] letter);
    [vm_compute; reflexivity|vm_compute; reflexivity|vm_compute; reflexivity
    |exact scenario_A_alive].
Defined.

(** Scenario A is exported. *)
Lemma export_places_every_element_witness :
  exists pages,
    snd (save_pdf clip no_bytes "Jan 05, 2026 10:00:00" scenario_A)
    = Saved (output_filename (pdf_file_name scenario_A) (signature_name scenario_A))
        pages
    /\ length pages = page_count scenario_A
    /\ forall page cmds, pages !! page = Some cmds ->
         exists body,
           cmds = (body ++ signature_info (Some (700 # 612))
                             ("Signed by " ++ signature_name scenario_A ++ newline
                              ++ "Jan 05, 2026 10:00:00")
                             page (signature_elements scenario_A))%list
           /\ Forall2 (fun e c => placed clip no_bytes (700 # 612)
                                     (images scenario_A) e = Some c)
                (page_elements page (signature_elements scenario_A)) body.
Proof.
  apply (export_places_every_element clip no_bytes "Jan 05, 2026 10:00:00"
           scenario_A (700 # 612));
    [vm_compute; reflexivity|vm_compute; discriminate|vm_compute; reflexivity
    |vm_compute; discriminate|exact scenario_A_alive].
Defined.

(** Scenario A, a click on the image (canvas item 3). *)
Lemma click_selects_only_hit_element_witness :
  exists e, signature_elements scenario_A !! 0%nat = Some e
            /\ canvas_id e = Some 3%nat /\ page_num e = current_page scenario_A.
Proof.
  apply (proj2 (click_selects_only_hit_element 120 130 3 scenario_A) 0%nat).
  vm_compute; reflexivity.
Defined.

(** After [signing], a click on the text (canvas item 5). *)
Lemma sessions_click_selects_drawn_element_witness :
  selected_element (on_canvas_click 130 210 5 (app (desk signing))) = Some 1%nat
  /\ drag_data (on_canvas_click 130 210 5 (app (desk signing))) = (130, 210).
Proof.
  apply (sessions_click_selects_drawn_element same_raster clip no_bytes signing
           "ALICE" 130 210 1%nat text_element 5%nat);
    vm_compute; reflexivity.
Defined.

(** After [signing] the text is selected; it is deleted. *)
Lemma sessions_delete_selected_witness :
  signature_elements (delete_selected same_raster (app (desk signing)))
  = delete 1%nat (signature_elements (app (desk signing)))
  /\ selected_element (delete_selected same_raster (app (desk signing))) = None.
Proof.
  apply (sessions_delete_selected same_raster clip no_bytes signing "ALICE" 1%nat).
  vm_compute; reflexivity.
Defined.

(** The second page of the mixed document is shown; the row of the image
    (on the first page) is chosen. *)
Lemma on_element_select_shows_and_selects_witness :
  current_page (on_element_select 0 mixed_pages_session) = 0%nat
  /\ selected_element (on_element_select 0 mixed_pages_session) = Some 0%nat
  /\ List.map stored (signature_elements (on_element_select 0 mixed_pages_session))
     = List.map stored (signature_elements mixed_pages_session).
Proof.
  apply (on_element_select_shows_and_selects 0 mixed_pages_session scan_element).
  vm_compute; reflexivity.
Defined.

(** The typed name is confirmed. *)
Lemma finish_text_editing_sets_trimmed_text_witness :
  List.map stored
    (signature_elements (app (finish_text_editing 1 (desk signing_typed))))
  = List.map stored
      (<[1%nat := set_content (TextContent (confirmed_text "  Jane Doe "))
                    text_element]>
         (signature_elements (app (desk signing_typed))))
  /\ confirmed_text "  Jane Doe " <> EmptyString
  /\ strip (confirmed_text "  Jane Doe ") = confirmed_text "  Jane Doe "
  /\ is_editing_text (finish_text_editing 1 (desk signing_typed)) = false
  /\ text_entry (finish_text_editing 1 (desk signing_typed)) = None.
Proof.
  apply (finish_text_editing_sets_trimmed_text 1 (desk signing_typed) name_entry
           text_element "Text");
    vm_compute; reflexivity.
Defined.

(** The typed name is given up. *)
Lemma cancel_text_editing_keeps_text_witness :
  List.map stored
    (signature_elements (app (cancel_text_editing 1 (desk signing_typed))))
  = List.map stored (signature_elements (app (desk signing_typed)))
  /\ is_editing_text (cancel_text_editing 1 (desk signing_typed)) = false
  /\ text_entry (cancel_text_editing 1 (desk signing_typed)) = None.
Proof.
  apply (cancel_text_editing_keeps_text 1 (desk signing_typed) name_entry
           text_element "Text");
    [vm_compute; reflexivity|vm_compute; reflexivity|vm_compute; reflexivity
    |vm_compute; reflexivity|discriminate].
Defined.

(** Return, then the loss of focus, then Escape. *)
Lemma finish_text_editing_once_witness :
  finish_text_editing 1 (finish_text_editing 1 (desk signing_typed))
  = finish_text_editing 1 (desk signing_typed)
  /\ cancel_text_editing 1 (finish_text_editing 1 (desk signing_typed))
     = finish_text_editing 1 (desk signing_typed).
Proof.
  apply (finish_text_editing_once 1 1 (desk signing_typed) name_entry
           text_element "Text");
    vm_compute; reflexivity.
Defined.


(** The text after [signing_confirmed]. *)
Lemma sessions_sizes_in_bounds_witness :
  in_bounds name_element
  /\ (0 < py_int (width name_element * zoom_level (app (desk signing_confirmed))))%Z
  /\ (0 < py_int (height name_element * zoom_level (app (desk signing_confirmed))))%Z.
Proof.
  apply (sessions_sizes_in_bounds same_raster clip no_bytes signing_confirmed
           "ALICE" 1%nat name_element).
  vm_compute; reflexivity.
Defined.

(** * The drag in binary64 *)

(** ** Rounding *)

Lemma rne_error s : Qabs (inject_Z (rne s) - s) <= 1 # 2.
Proof.
  unfold rne. pose proof (Qfloor_le s) as Hl. pose proof (Qlt_floor s) as Hu.
  rewrite inject_Z_plus in Hu. change (inject_Z 1) with 1 in Hu.
  apply Qabs_Qle_condition.
  destruct (Qcompare (s - inject_Z (Qfloor s)) (1 # 2)) eqn:Hc.
  - apply Qeq_alt in Hc. destruct (Z.even (Qfloor s));
      [|rewrite inject_Z_plus; change (inject_Z 1) with 1]; split; lra.
  - apply Qlt_alt in Hc. split; lra.
  - apply Qgt_alt in Hc. rewrite inject_Z_plus. change (inject_Z 1) with 1.
    split; lra.
Qed.

Lemma pow2_pos e : 0 < 2 ^ e.
Proof. now apply Qpower_0_lt. Qed.

Lemma pow2_add a b : 2 ^ (a + b) == 2 ^ a * 2 ^ b.
Proof. apply Qpower_plus. discriminate. Qed.

Lemma pow2_cancel e : 2 ^ (- e) * 2 ^ e == 1.
Proof. rewrite <- pow2_add. now replace (- e + e)%Z with 0%Z by lia. Qed.

(** A positive rational [n / d] is at least [2 ^ (log2 n - log2 d - 1)]. *)
Lemma log2_lower (n : Z) (d : positive) :
  (0 < n)%Z ->
  2 ^ (Z.log2 n - Z.log2 (Zpos d) - 1) <= n # d.
Proof.
  intros Hn.
  destruct (Z.log2_spec n Hn) as [Hn1 _].
  destruct (Z.log2_spec (Zpos d) eq_refl) as [_ Hd2].
  pose proof (Z.log2_nonneg n) as Hln. pose proof (Z.log2_nonneg (Zpos d)) as Hld.
  replace (Z.log2 n - Z.log2 (Zpos d) - 1)%Z
    with (Z.log2 n + - Z.succ (Z.log2 (Zpos d)))%Z by lia.
  rewrite pow2_add, Qpower_opp.
  rewrite <- !(Zpower_Qpower 2) by lia.
  set (p := (2 ^ Z.log2 n)%Z) in *. set (r := (2 ^ Z.succ (Z.log2 (Zpos d)))%Z) in *.
  assert (Hr : (0 < r)%Z) by lia.
  rewrite (Qmake_Qdiv n d). unfold Qdiv.
  apply Qle_shift_div_l; [change 0 with (inject_Z 0); rewrite <- Zlt_Qlt; lia|].
  rewrite <- Qmult_assoc, (Qmult_comm (/ inject_Z r)), Qmult_assoc.
  apply Qle_shift_div_r; [change 0 with (inject_Z 0); rewrite <- Zlt_Qlt; lia|].
  rewrite <- !inject_Z_mult, <- Zle_Qle. nia.
Qed.

(** The scaled mantissa has its 53rd bit set. *)
Lemma scaled_lower a : 0 < a -> 2 ^ 52 <= a * 2 ^ (- binary64_exponent a).
Proof.
  intros Ha. unfold binary64_exponent.
  set (e0 := (Z.log2 (Qnum a) - Z.log2 (Zpos (Qden a)) - 53)%Z).
  destruct (Qle_bool (2 ^ 53) (a * 2 ^ (- e0))) eqn:Hb.
  - apply Qle_bool_iff in Hb.
    replace (- (e0 + 1))%Z with (- e0 + -1)%Z by lia.
    rewrite pow2_add, Qmult_assoc.
    change (2 ^ (-1)) with (1 # 2). change (2 ^ 53) with (2 * 2 ^ 52) in Hb.
    set (t := a * 2 ^ (- e0)) in *. set (c := 2 ^ 52) in *. lra.
  - assert (Hn : (0 < Qnum a)%Z)
      by (destruct a as [n d]; unfold Qlt in Ha; simpl in *; lia).
    pose proof (log2_lower (Qnum a) (Qden a) Hn) as Hl.
    replace (Z.log2 (Qnum a) - Z.log2 (Zpos (Qden a)) - 1)%Z with (e0 + 52)%Z in Hl
      by (unfold e0; lia).
    rewrite pow2_add in Hl.
    assert (Ha' : Qnum a # Qden a == a) by (now destruct a).
    rewrite Ha' in Hl.
    pose proof (pow2_pos (- e0)) as Hp. pose proof (pow2_cancel e0) as Hc.
    apply (Qmult_le_compat_r _ _ (2 ^ (- e0))) in Hl; [|lra].
    rewrite (Qmult_comm (2 ^ e0)), <- Qmult_assoc, (Qmult_comm (2 ^ e0)), Hc in Hl.
    lra.
Qed.

Lemma round64_magnitude a :
  0 < a ->
  Qabs (inject_Z (rne (a * 2 ^ (- binary64_exponent a))) * 2 ^ binary64_exponent a - a)
  <= unit_roundoff * a.
Proof.
  intros Ha.
  pose proof (scaled_lower a Ha) as Hl.
  pose proof (rne_error (a * 2 ^ (- binary64_exponent a))) as Hr.
  pose proof (pow2_pos (binary64_exponent a)) as Hp.
  pose proof (pow2_cancel (binary64_exponent a)) as Hc.
  set (s := a * 2 ^ (- binary64_exponent a)) in *.
  set (p := 2 ^ binary64_exponent a) in *.
  set (m := inject_Z (rne s)) in *.
  assert (Has : a == s * p).
  { unfold s. rewrite <- Qmult_assoc. fold p. rewrite Hc. ring. }
  apply Qabs_Qle_condition in Hr. destruct Hr as [Hr1 Hr2].
  apply Qabs_Qle_condition.
  change (2 ^ 52) with 4503599627370496 in Hl.
  unfold unit_roundoff. change (1 # 2 ^ 53) with (1 # 9007199254740992).
  rewrite Has.
  assert (H1 : (m - s) * p <= (1 # 2) * p) by (apply Qmult_le_compat_r; lra).
  assert (H2 : - (1 # 2) * p <= (m - s) * p) by (apply Qmult_le_compat_r; lra).
  assert (H3 : 4503599627370496 * p <= s * p) by (apply Qmult_le_compat_r; lra).
  split; lra.
Qed.

(** Rounding to binary64 changes a number by at most the unit roundoff
    times its magnitude. *)
Lemma round64_error q : Qabs (round64 q - q) <= unit_roundoff * Qabs q.
Proof.
  unfold round64. destruct q as [n d]. cbn [Qnum].
  destruct n as [|n|n].
  - unfold Qle. simpl. lia.
  - cbv zeta. change (Qabs (Z.pos n # d)) with (Z.pos n # d).
    rewrite Qred_correct. change (Z.pos n <? 0)%Z with false. cbv iota.
    apply (round64_magnitude (Z.pos n # d)). reflexivity.
  - cbv zeta. change (Qabs (Z.neg n # d)) with (Z.pos n # d).
    rewrite Qred_correct. change (Z.neg n <? 0)%Z with true. cbv iota.
    pose proof (round64_magnitude (Z.pos n # d) eq_refl) as H.
    set (r := inject_Z _ * _) in *.
    assert (Hq : (Z.neg n # d) == - (Z.pos n # d)) by reflexivity.
    rewrite Hq.
    assert (Hr : - r - - (Z.pos n # d) == - (r - (Z.pos n # d))) by ring.
    now rewrite Hr, Qabs_opp.
Qed.

(** A positive rational [n / d] is below [2 ^ (log2 n - log2 d + 1)]. *)
Lemma log2_upper (n : Z) (d : positive) :
  (0 < n)%Z ->
  n # d < 2 ^ (Z.log2 n - Z.log2 (Zpos d) + 1).
Proof.
  intros Hn.
  destruct (Z.log2_spec n Hn) as [_ Hn2].
  destruct (Z.log2_spec (Zpos d) eq_refl) as [Hd1 _].
  pose proof (Z.log2_nonneg n) as Hln. pose proof (Z.log2_nonneg (Zpos d)) as Hld.
  replace (Z.log2 n - Z.log2 (Zpos d) + 1)%Z
    with (Z.succ (Z.log2 n) + - Z.log2 (Zpos d))%Z by lia.
  rewrite pow2_add, Qpower_opp.
  rewrite <- !(Zpower_Qpower 2) by lia.
  set (p := (2 ^ Z.succ (Z.log2 n))%Z) in *. set (r := (2 ^ Z.log2 (Zpos d))%Z) in *.
  assert (Hr : (0 < r)%Z) by (unfold r; apply Z.pow_pos_nonneg; lia).
  rewrite (Qmake_Qdiv n d). unfold Qdiv.
  apply Qlt_shift_div_r; [reflexivity|].
  rewrite <- Qmult_assoc, (Qmult_comm (/ inject_Z r)), Qmult_assoc.
  apply Qlt_shift_div_l; [change 0 with (inject_Z 0); rewrite <- Zlt_Qlt; lia|].
  rewrite <- !inject_Z_mult, <- Zlt_Qlt. nia.
Qed.

(** ... and no 54th. *)
Lemma scaled_upper a : 0 < a -> a * 2 ^ (- binary64_exponent a) < 2 ^ 53.
Proof.
  intros Ha. unfold binary64_exponent.
  set (e0 := (Z.log2 (Qnum a) - Z.log2 (Zpos (Qden a)) - 53)%Z).
  destruct (Qle_bool (2 ^ 53) (a * 2 ^ (- e0))) eqn:Hb.
  - assert (Hn : (0 < Qnum a)%Z)
      by (destruct a as [n d]; unfold Qlt in Ha; simpl in *; lia).
    pose proof (log2_upper (Qnum a) (Qden a) Hn) as Hl.
    replace (Z.log2 (Qnum a) - Z.log2 (Zpos (Qden a)) + 1)%Z with (e0 + 54)%Z in Hl
      by (unfold e0; lia).
    rewrite pow2_add in Hl.
    assert (Ha' : Qnum a # Qden a == a) by (now destruct a).
    rewrite Ha' in Hl.
    pose proof (pow2_pos (- e0)) as Hp. pose proof (pow2_cancel e0) as Hc.
    apply (Qmult_lt_compat_r _ _ (2 ^ (- e0))) in Hl; [|lra].
    rewrite (Qmult_comm (2 ^ e0)), <- Qmult_assoc, (Qmult_comm (2 ^ e0)), Hc in Hl.
    replace (- (e0 + 1))%Z with (- e0 + -1)%Z by lia.
    rewrite pow2_add, Qmult_assoc.
    change (2 ^ (-1)) with (1 # 2). change (2 ^ 54) with (2 * 2 ^ 53) in Hl.
    set (t := a * 2 ^ (- e0)) in *. set (c := 2 ^ 53) in *. lra.
  - destruct (Qlt_le_dec (a * 2 ^ (- e0)) (2 ^ 53)) as [Hlt|Hle]; [exact Hlt|].
    apply Qle_bool_iff in Hle. congruence.
Qed.

Lemma rne_range s (lo : Z) : inject_Z lo <= s -> s < inject_Z (lo * 2) ->
  (lo <= rne s <= lo * 2)%Z.
Proof.
  intros Hl Hu.
  assert (H1 : (lo <= Qfloor s)%Z).
  { rewrite <- (Qfloor_Z lo). now apply Qfloor_resp_le. }
  assert (H2 : (Qfloor s < lo * 2)%Z).
  { rewrite Zlt_Qlt. eapply Qle_lt_trans; [apply Qfloor_le|exact Hu]. }
  unfold rne. destruct (Qcompare _ _); [destruct (Z.even _)| |]; lia.
Qed.

(** [round64] gives the binary64 number nearest to its argument: a
    mantissa of 53 bits at an exponent [e], within half a unit of [2^e]. *)
Lemma round64_nearest q :
  ~ q == 0 ->
  exists m e,
    (2 ^ 52 <= m <= 2 ^ 53)%Z
    /\ Qabs (round64 q) == inject_Z m * 2 ^ e
    /\ Qabs (round64 q - q) <= (1 # 2) * 2 ^ e.
Proof.
  intros Hq.
  assert (Ha : 0 < Qabs q).
  { pose proof (Qabs_nonneg q) as H. destruct (Qlt_le_dec 0 (Qabs q)) as [|Hle]; [assumption|].
    exfalso. apply Hq. apply Qabs_Qle_condition in Hle. lra. }
  set (a := Qabs q) in *. set (e := binary64_exponent a).
  set (m := rne (a * 2 ^ (- e))).
  pose proof (scaled_lower a Ha) as Hl. pose proof (scaled_upper a Ha) as Hu.
  fold e in Hl, Hu.
  pose proof (rne_error (a * 2 ^ (- e))) as Hr. fold m in Hr.
  pose proof (pow2_pos e) as Hp. pose proof (pow2_cancel e) as Hc.
  assert (Hm : (2 ^ 52 <= m <= 2 ^ 53)%Z).
  { apply (rne_range _ (2 ^ 52)); [exact Hl|exact Hu]. }
  assert (Hr64 : round64 q == (if (Qnum q <? 0)%Z then - (inject_Z m * 2 ^ e)
                               else inject_Z m * 2 ^ e)).
  { unfold round64. destruct (Qnum q) eqn:Hn.
    - exfalso. apply Hq. destruct q as [n d]. simpl in Hn. subst n. reflexivity.
    - now rewrite Qred_correct.
    - now rewrite Qred_correct. }
  assert (Hm0 : 0 <= inject_Z m * 2 ^ e).
  { apply Qmult_le_0_compat; [|lra]. change 0 with (inject_Z 0).
    rewrite <- Zle_Qle. lia. }
  assert (Has : a == (a * 2 ^ (- e)) * 2 ^ e).
  { rewrite <- Qmult_assoc, Hc. ring. }
  assert (Hd : Qabs (inject_Z m * 2 ^ e - a) <= (1 # 2) * 2 ^ e).
  { apply Qabs_Qle_condition in Hr. destruct Hr as [Hr1 Hr2].
    set (s := a * 2 ^ (- e)) in *. set (p := 2 ^ e) in *. set (mq := inject_Z m) in *.
    apply Qabs_Qle_condition. rewrite Has.
    assert (H1 : (mq - s) * p <= (1 # 2) * p) by (apply Qmult_le_compat_r; lra).
    assert (H2 : - (1 # 2) * p <= (mq - s) * p) by (apply Qmult_le_compat_r; lra).
    split; lra. }
  exists m, e. split; [exact Hm|].
  destruct (Qnum q <? 0)%Z eqn:Hs.
  - assert (Hqa : q == - a).
    { unfold a. rewrite Qabs_neg; [ring|].
      destruct q as [n d]. simpl in Hs. apply Z.ltb_lt in Hs.
      unfold Qle. simpl. lia. }
    split.
    + rewrite Hr64, Qabs_opp. now apply Qabs_pos.
    + rewrite Hr64, Hqa.
      assert (E : - (inject_Z m * 2 ^ e) - - a == - (inject_Z m * 2 ^ e - a)) by ring.
      now rewrite E, Qabs_opp.
  - assert (Hqa : q == a).
    { unfold a. rewrite Qabs_pos; [reflexivity|].
      destruct q as [n d]. simpl in Hs. apply Z.ltb_ge in Hs.
      unfold Qle. simpl. lia. }
    split.
    + rewrite Hr64. now apply Qabs_pos.
    + now rewrite Hr64, Hqa.
Qed.

(** ** One move *)

Lemma Qabs_sum3 a b c : Qabs (a + b + c) <= Qabs a + Qabs b + Qabs c.
Proof.
  pose proof (Qabs_triangle (a + b) c). pose proof (Qabs_triangle a b). lra.
Qed.

Lemma Qabs_over_zoom v z : 1 # 2 <= z -> Qabs (v / z) <= 2 * Qabs v.
Proof.
  intros Hz. unfold Qdiv. rewrite Qabs_Qmult, Qabs_Qinv.
  rewrite (Qabs_pos z) by lra.
  assert (Hi : / z <= 2) by (apply Qle_shift_inv_r; lra).
  pose proof (Qabs_nonneg v).
  rewrite Qmult_comm. apply Qmult_le_compat_r; assumption.
Qed.

(** One coordinate of one move: the stored value against the exact one. *)
Lemma rounded_move_error v c a z W :
  1 # 2 <= z -> Qabs c <= W -> Qabs a <= W ->
  Qabs (float_add v (float_div (float_sub c a) z) - (v + (c - a) / z))
  <= unit_roundoff * (Qabs v + 14 * W).
Proof.
  intros Hz Hc Ha. unfold float_add, float_div, float_sub.
  set (dl := c - a).
  assert (Hdl : Qabs dl <= 2 * W).
  { unfold dl. pose proof (Qabs_triangle c (- a)) as H. rewrite Qabs_opp in H.
    unfold Qminus. lra. }
  pose proof (round64_error dl) as H1. set (d := round64 dl) in *.
  pose proof (round64_error (d / z)) as H2. set (q := round64 (d / z)) in *.
  pose proof (round64_error (v + q)) as H3. set (v' := round64 (v + q)) in *.
  pose proof (Qabs_over_zoom d z Hz) as Ht.
  pose proof (Qabs_over_zoom (d - dl) z Hz) as Hs.
  assert (Hd : Qabs d <= Qabs dl + Qabs (d - dl)).
  { pose proof (Qabs_triangle dl (d - dl)) as H.
    assert (E : dl + (d - dl) == d) by ring. now rewrite E in H. }
  assert (Hq : Qabs q <= Qabs (d / z) + Qabs (q - d / z)).
  { pose proof (Qabs_triangle (d / z) (q - d / z)) as H.
    assert (E : d / z + (q - d / z) == q) by ring. now rewrite E in H. }
  pose proof (Qabs_triangle v q) as Hvq.
  assert (E : v' - (v + dl / z) == (v' - (v + q)) + (q - d / z) + (d - dl) / z)
    by (unfold Qdiv; ring).
  rewrite E. pose proof (Qabs_sum3 (v' - (v + q)) (q - d / z) ((d - dl) / z)) as Hsum.
  unfold unit_roundoff in *. change (1 # 2 ^ 53) with (1 # 9007199254740992) in *.
  pose proof (Qabs_nonneg v). pose proof (Qabs_nonneg dl).
  set (A1 := Qabs (d - dl)) in *. set (A2 := Qabs (q - d / z)) in *.
  set (A3 := Qabs (v' - (v + q))) in *. set (Ad := Qabs d) in *.
  set (At := Qabs (d / z)) in *. set (Aq := Qabs q) in *.
  set (Av := Qabs v) in *. set (Adl := Qabs dl) in *.
  set (As := Qabs ((d - dl) / z)) in *. set (Avq := Qabs (v + q)) in *.
  lra.
Qed.

(** The drift of one coordinate grows by at most [20 * unit_roundoff * W]
    with a move, during the first [2^43] moves. *)
Lemma drift_step (v v0 c a a0 z W K : Q) :
  1 # 2 <= z -> Qabs c <= W -> Qabs a <= W -> Qabs a0 <= W -> Qabs v0 <= W ->
  0 <= K -> K <= 2 ^ 43 ->
  Qabs (v - (v0 + (a - a0) / z)) <= 20 * unit_roundoff * (K * W) ->
  Qabs (float_add v (float_div (float_sub c a) z) - (v0 + (c - a0) / z))
  <= 20 * unit_roundoff * ((K + 1) * W).
Proof.
  intros Hz Hc Ha Ha0 Hv0 HK0 HK Hinv.
  pose proof (rounded_move_error v c a z W Hz Hc Ha) as Hm.
  set (v' := float_add v (float_div (float_sub c a) z)) in *.
  assert (HW : 0 <= W) by (pose proof (Qabs_nonneg c); lra).
  assert (E : v' - (v0 + (c - a0) / z)
              == (v' - (v + (c - a) / z)) + (v - (v0 + (a - a0) / z)))
    by (unfold Qdiv; ring).
  rewrite E.
  pose proof (Qabs_triangle (v' - (v + (c - a) / z)) (v - (v0 + (a - a0) / z))) as Ht.
  assert (Hv : Qabs v <= Qabs v0 + Qabs ((a - a0) / z) + Qabs (v - (v0 + (a - a0) / z))).
  { pose proof (Qabs_sum3 v0 ((a - a0) / z) (v - (v0 + (a - a0) / z))) as H.
    assert (E2 : v0 + (a - a0) / z + (v - (v0 + (a - a0) / z)) == v) by ring.
    now rewrite E2 in H. }
  pose proof (Qabs_over_zoom (a - a0) z Hz) as Hq.
  assert (Hd : Qabs (a - a0) <= 2 * W).
  { pose proof (Qabs_triangle a (- a0)) as H. rewrite Qabs_opp in H.
    unfold Qminus. lra. }
  assert (HP : K * W <= 2 ^ 43 * W) by (now apply Qmult_le_compat_r).
  assert (HP0 : 0 <= K * W) by (now apply Qmult_le_0_compat).
  assert (E3 : (K + 1) * W == K * W + W) by ring.
  rewrite E3.
  unfold unit_roundoff in *. change (1 # 2 ^ 53) with (1 # 9007199254740992) in *.
  change (2 ^ 43) with 8796093022208 in HP.
  set (P := K * W) in *.
  set (A1 := Qabs (v' - (v + (c - a) / z))) in *.
  set (A2 := Qabs (v - (v0 + (a - a0) / z))) in *.
  set (A3 := Qabs v) in *. set (A4 := Qabs v0) in *.
  set (A5 := Qabs ((a - a0) / z)) in *. set (A6 := Qabs (a - a0)) in *.
  lra.
Qed.

(** ** A drag *)

Section Drag64.

Context {Image : Type}.

Local Abbreviation State := (@State Image).

Lemma on_canvas_drag_64_step (cx cy : Q) (s : State) i e :
  selected_element s = Some i ->
  signature_elements s !! i = Some e ->
  selected_element (on_canvas_drag_64 cx cy s) = Some i
  /\ zoom_level (on_canvas_drag_64 cx cy s) = zoom_level s
  /\ drag_data (on_canvas_drag_64 cx cy s) = (cx, cy)
  /\ signature_elements (on_canvas_drag_64 cx cy s)
     = <[i := set_position
               (float_add (x e)
                  (float_div (float_sub cx (fst (drag_data s))) (zoom_level s)))
               (float_add (y e)
                  (float_div (float_sub cy (snd (drag_data s))) (zoom_level s))) e]>
         (signature_elements s).
Proof.
  intros Hsel Hi. unfold on_canvas_drag_64. rewrite Hsel, Hi. simpl. auto.
Qed.

(** The drift against the start [x0], [y0], [a0] of the drag, [k] moves
    after it. *)
Lemma drag_through_64_drift i (z W : Q) (x0 y0 : Q) (a0 : Q * Q) :
  1 # 2 <= z -> Qabs x0 <= W -> Qabs y0 <= W -> within W a0 ->
  forall (path : list (Q * Q)) (s : State) e (k : nat),
  selected_element s = Some i ->
  signature_elements s !! i = Some e ->
  zoom_level s = z ->
  Forall (within W) (drag_data s :: path) ->
  (Z.of_nat (k + length path) <= 2 ^ 43)%Z ->
  Qabs (x e - (x0 + (fst (drag_data s) - fst a0) / z))
  <= 20 * unit_roundoff * (inject_Z (Z.of_nat k) * W) ->
  Qabs (y e - (y0 + (snd (drag_data s) - snd a0) / z))
  <= 20 * unit_roundoff * (inject_Z (Z.of_nat k) * W) ->
  exists e',
    signature_elements (drag_through_64 path s) !! i = Some e'
    /\ Qabs (x e' - (x0 + (fst (List.last path (drag_data s)) - fst a0) / z))
       <= 20 * unit_roundoff * (inject_Z (Z.of_nat (k + length path)) * W)
    /\ Qabs (y e' - (y0 + (snd (List.last path (drag_data s)) - snd a0) / z))
       <= 20 * unit_roundoff * (inject_Z (Z.of_nat (k + length path)) * W)
    /\ (width e', height e', content e', page_num e', text_color e')
       = (width e, height e, content e, page_num e, text_color e)
    /\ drag_data (drag_through_64 path s) = List.last path (drag_data s)
    /\ selected_element (drag_through_64 path s) = Some i
    /\ forall j, j <> i ->
         signature_elements (drag_through_64 path s) !! j = signature_elements s !! j.
Proof.
  intros Hz Hx0 Hy0 [Hax0 Hay0].
  induction path as [|[cx cy] path IH]; intros s e k Hsel Hi Hzoom Hw Hk Hx Hy.
  - exists e. simpl. rewrite Nat.add_0_r. repeat split; auto.
  - destruct (on_canvas_drag_64_step cx cy s i e Hsel Hi)
      as (Hsel1 & Hzoom1 & Hdrag & Hels).
    assert (Hlt : (i < length (signature_elements s))%nat)
      by (now apply lookup_lt_Some in Hi).
    set (s1 := on_canvas_drag_64 cx cy s) in *.
    match type of Hels with _ = <[_ := ?t]> _ => set (e1 := t) in * end.
    assert (Hi1 : signature_elements s1 !! i = Some e1)
      by (rewrite Hels; now apply list_lookup_insert_eq).
    apply Forall_cons in Hw as [[Hax Hay] Hw].
    pose proof Hw as Hw1. apply Forall_cons in Hw1 as [[Hcx Hcy] _].
    simpl in Hcx, Hcy.
    assert (HK0 : 0 <= inject_Z (Z.of_nat k))
      by (change 0 with (inject_Z 0); rewrite <- Zle_Qle; lia).
    assert (HK : inject_Z (Z.of_nat k) <= 2 ^ 43).
    { change (2 ^ 43) with (inject_Z (2 ^ 43)). rewrite <- Zle_Qle.
      simpl length in Hk. lia. }
    assert (HS : inject_Z (Z.of_nat (S k)) == inject_Z (Z.of_nat k) + 1).
    { rewrite Nat2Z.inj_succ. unfold Z.succ. now rewrite inject_Z_plus. }
    destruct (IH s1 e1 (S k) Hsel1 Hi1)
      as (e' & He' & Hx' & Hy' & Hrest & Hd & Hs & Hothers).
    + now rewrite Hzoom1.
    + rewrite Hdrag. exact Hw.
    + simpl length in Hk.
      replace (S k + length path)%nat with (k + S (length path))%nat by lia.
      exact Hk.
    + rewrite Hdrag, HS. subst e1. cbn [x set_position fst]. rewrite Hzoom.
      now apply drift_step.
    + rewrite Hdrag, HS. subst e1. cbn [y set_position snd]. rewrite Hzoom.
      now apply drift_step.
    + change (drag_through_64 ((cx, cy) :: path) s) with (drag_through_64 path s1).
      rewrite last_cons. rewrite Hdrag in *.
      replace (k + length ((cx, cy) :: path))%nat with (S k + length path)%nat
        by (simpl; lia).
      exists e'. repeat split; auto.
      intros j Hj. rewrite (Hothers j Hj), Hels.
      apply list_lookup_insert_ne. congruence.
Qed.

(** C2, as the binary64 arithmetic of the code allows it: while an
    element is selected and the zoom level [z] lies in [0.5, 3.0], every
    pointer move adds the pointer delta divided by [z] to the stored
    position, each operation rounded, and moves the anchor to the
    pointer.  When the stored position, the anchor and the pointer
    positions are at most [W] in magnitude, a drag of [n] moves ([n] at
    most [2^43]) through [path] leaves each stored coordinate within
    [20 * n * 2^-53 * W] of its start value plus the pointer displacement
    divided by [z]; size, content and page of the element and every
    other element stay as they were, the selection is kept and the
    anchor is the last pointer position. *)
Theorem drag_moves_by_delta_over_zoom_rounded (path : list (Q * Q)) (s : State)
    i e W :
  selected_element s = Some i ->
  signature_elements s !! i = Some e ->
  0.5 <= zoom_level s /\ zoom_level s <= 3.0 ->
  Qabs (x e) <= W /\ Qabs (y e) <= W ->
  Forall (within W) (drag_data s :: path) ->
  (Z.of_nat (length path) <= 2 ^ 43)%Z ->
  exists e',
    signature_elements (drag_through_64 path s) !! i = Some e'
    /\ Qabs (x e' - (x e + (fst (List.last path (drag_data s)) - fst (drag_data s))
                           / zoom_level s))
       <= 20 * unit_roundoff * (inject_Z (Z.of_nat (length path)) * W)
    /\ Qabs (y e' - (y e + (snd (List.last path (drag_data s)) - snd (drag_data s))
                           / zoom_level s))
       <= 20 * unit_roundoff * (inject_Z (Z.of_nat (length path)) * W)
    /\ (width e', height e', content e', page_num e', text_color e')
       = (width e, height e, content e, page_num e, text_color e)
    /\ drag_data (drag_through_64 path s) = List.last path (drag_data s)
    /\ selected_element (drag_through_64 path s) = Some i
    /\ forall j, j <> i ->
         signature_elements (drag_through_64 path s) !! j = signature_elements s !! j.
Proof.
  intros Hsel Hi [Hz _] [Hx Hy] Hw Hn.
  assert (Ha : within W (drag_data s)) by (now apply Forall_cons in Hw as [Ha _]).
  assert (Hz' : 1 # 2 <= zoom_level s) by lra.
  assert (HW : 0 <= W) by (pose proof (Qabs_nonneg (x e)); lra).
  assert (E : forall v a : Q, Qabs (v - (v + (a - a) / zoom_level s)) == 0).
  { intros v a. assert (E0 : v - (v + (a - a) / zoom_level s) == 0)
      by (unfold Qdiv; ring). now rewrite E0. }
  apply (drag_through_64_drift i (zoom_level s) W (x e) (y e) (drag_data s)
           Hz' Hx Hy Ha path s e 0%nat); auto.
  - rewrite E. change (inject_Z (Z.of_nat 0)) with 0. lra.
  - rewrite E. change (inject_Z (Z.of_nat 0)) with 0. lra.
Qed.

End Drag64.

(** ** The claim's exactness fails in binary64 *)

(** The rounding agrees with the Standard Library's specification of
    IEEE 754 binary64 along the three moves of the counterexample. *)
Lemma round64_agrees_with_spec_float :
  exists e3,
    signature_elements
      (drag_through_64 [(131, 250); (132, 250); (133, 250)]
         scenario_B_zoomed_selected_64) !! 0%nat = Some e3
    /\ option_map Qred (spec_float_value three_moves_spec_float) = Some (x e3).
Proof. eexists. split; vm_compute; reflexivity. Qed.

(** C2 as stated fails: at the zoom level [1.0 * 1.2] of binary64, the text
    at x = 100 dragged from 130 to 133 in three moves of one pixel is
    stored at 102.49999999999999 (102.5 less 2^-46), dragged there in
    one move at 102.5; the first is not 100 plus 3 divided by the zoom
    level, neither exactly nor as binary64 computes that quotient, and
    the two paths disagree. *)
Lemma drag_not_exact_in_binary64 :
  exists e3 e1,
    signature_elements
      (drag_through_64 [(131, 250); (132, 250); (133, 250)]
         scenario_B_zoomed_selected_64) !! 0%nat = Some e3
    /\ signature_elements
         (drag_through_64 [(133, 250)] scenario_B_zoomed_selected_64) !! 0%nat
       = Some e1
    /\ x e3 == 102.5 - (1 # 2 ^ 46)
    /\ x e1 == 102.5
    /\ ~ x e3 == 100 + (133 - 130) / zoom_level scenario_B_zoomed_selected_64
    /\ ~ x e3 == 100 + float_div (133 - 130) (zoom_level scenario_B_zoomed_selected_64)
    /\ ~ x e3 == x e1.
Proof.
  eexists. eexists.
  split; [vm_compute; reflexivity|]. split; [vm_compute; reflexivity|].
  split; [vm_compute; reflexivity|]. split; [vm_compute; reflexivity|].
  split; [vm_compute; discriminate|]. split; vm_compute; discriminate.
Qed.

(** The same three moves: both coordinates stay within 60 * 2^-53 * 256 of
    the exact values. *)
Lemma drag_moves_by_delta_over_zoom_rounded_witness :
  exists e',
    signature_elements
      (drag_through_64 [(131, 250); (132, 250); (133, 250)]
         scenario_B_zoomed_selected_64) !! 0%nat = Some e'
    /\ Qabs (x e' - (100 + (133 - 130) / zoom_level scenario_B_zoomed_selected_64))
       <= 20 * unit_roundoff * (inject_Z 3 * 256)
    /\ Qabs (y e' - (200 + (250 - 250) / zoom_level scenario_B_zoomed_selected_64))
       <= 20 * unit_roundoff * (inject_Z 3 * 256).
Proof.
  assert (Hsel : selected_element scenario_B_zoomed_selected_64 = Some 0%nat)
    by (vm_compute; reflexivity).
  assert (Hi : signature_elements scenario_B_zoomed_selected_64 !! 0%nat
               = Some (set_canvas_id (Some 7%nat) default_text))
    by (vm_compute; reflexivity).
  assert (Hz : 0.5 <= zoom_level scenario_B_zoomed_selected_64
               /\ zoom_level scenario_B_zoomed_selected_64 <= 3.0)
    by (split; vm_compute; discriminate).
  destruct (drag_moves_by_delta_over_zoom_rounded
              [(131, 250); (132, 250); (133, 250)] scenario_B_zoomed_selected_64
              0%nat (set_canvas_id (Some 7%nat) default_text) 256 Hsel Hi Hz)
    as (e' & He' & Hx & Hy & _).
  - split; vm_compute; discriminate.
  - repeat constructor; vm_compute; discriminate.
  - vm_compute; discriminate.
  - exists e'. split; [exact He'|]. split; [exact Hx|exact Hy].
Defined.
